(** * Auto_Defect: checkpointing, hop deduplication, retry policy and the
      per-path workflow, as a shallow embedding of the Python sources.

    The Python modules are embedded one Rocq module each:
    - [status_manager.py]  as [StatusManager],
    - [pathfinder_step.py] as [Pathfinder],
    - [relaxer_step.py]    as [RelaxerStep],
    - [neb_step.py]        as [NebStep],
    - [io_step.py]         as [IoStep],
    - [prefactor_step.py]  as [PrefactorStep],
    - [supercell_step.py]  as [SupercellStep],
    - [main_workflow.py]   as [MainWorkflow].

    Python dictionaries are finite maps ([gmap string json]); the file system
    is a finite map from paths to file contents; printing and the calls into
    the scientific libraries are recorded in an event log.  Exceptions are a
    [Raise] result.  The module-level dictionary [DEFAULT_STATUS] is a mutable
    Python object that [get_status] hands out by reference, so it is a
    component of the program state. *)

From Stdlib Require Import Ascii ZArith QArith Qabs Qpower Qcanon Qround Lqa.
From stdpp Require Import gmap strings list fin_maps pretty countable numbers.

Local Set Warnings "-register-all,-clear-no-such-hyp".
Local Open Scope Z_scope.

(** ** Python values and results *)

(** Values that [json.load] produces and [json.dump] accepts. A float is kept
    as the rational it denotes. *)
Inductive json : Type :=
  | JNull
  | JBool (b : bool)
  | JInt (n : Z)
  | JReal (q : Q)
  | JStr (s : string)
  | JArr (l : list json)
  | JObj (m : gmap string json).

Inductive exn : Type :=
  | TypeError
  | KeyError
  | IndexError
  | FileNotFoundError
  | UnicodeDecodeError
  | ExternalError (what : string).

Inductive result (A : Type) : Type :=
  | Ok (a : A)
  | Raise (e : exn).
Arguments Ok {A} a.
Arguments Raise {A} e.

#[export] Instance result_ret : MRet result := λ A a, Ok a.
#[export] Instance result_bind : MBind result := λ A B f r,
  match r with
  | Ok a => f a
  | Raise e => Raise e
  end.

(** Truth value of a Python object, as [if x:] and [not x] take it. *)
Definition py_truthy (v : json) : bool :=
  match v with
  | JNull => false
  | JBool b => b
  | JInt n => negb (n =? 0)
  | JReal q => negb (Qnum q =? 0)
  | JStr s => negb (String.eqb s "")
  | JArr l => negb (bool_decide (l = []))
  | JObj m => negb (bool_decide (m = ∅))
  end.

(** [v == 0]: [False], [0] and [0.0] are equal to zero, nothing else is. *)
Definition py_eq_zero (v : json) : bool :=
  match v with
  | JBool b => negb b
  | JInt n => n =? 0
  | JReal q => Qnum q =? 0
  | _ => false
  end.

Definition is_str (key : string) (v : json) : bool :=
  match v with
  | JStr s => String.eqb s key
  | _ => false
  end.

Fixpoint is_substring (key s : string) : bool :=
  String.prefix key s ||
  match s with
  | EmptyString => false
  | String _ s' => is_substring key s'
  end.

(** [key in container] for a string [key]. *)
Definition py_contains (container : json) (key : string) : result bool :=
  match container with
  | JObj m => Ok (bool_decide (is_Some (m !! key)))
  | JArr l => Ok (existsb (is_str key) l)
  | JStr s => Ok (is_substring key s)
  | _ => Raise TypeError
  end.

(** [container[key] = value] for a string [key]. *)
Definition py_setitem (container : json) (key : string) (value : json)
  : result json :=
  match container with
  | JObj m => Ok (JObj (<[key := value]> m))
  | _ => Raise TypeError
  end.

(** [container[key]] for a string [key]. *)
Definition py_getitem (container : json) (key : string) : result json :=
  match container with
  | JObj m =>
      match m !! key with
      | Some v => Ok v
      | None => Raise KeyError
      end
  | _ => Raise TypeError
  end.

(** ** Floats *)

(** A float is the rational it denotes. [round_half_even] is the nearest
    integer, the even one of two equally near: C's [rint] in the default
    rounding mode, and the integer that both roundings below go through. *)
Definition round_half_even (x : Q) : Z :=
  let n := Qnum x in
  let d := Z.pos (Qden x) in
  let f := n / d in
  match 2 * (n mod d) ?= d with
  | Lt => f
  | Gt => f + 1
  | Eq => if Z.even f then f else f + 1
  end.

Definition scaled (x : Q) (ndigits : Z) : Q := (x * 10 ^ ndigits)%Q.

(** IEEE 754 binary64 arithmetic on finite values. [binade x] is the
    exponent of the power of two at or below [|x|]; [round_binary64 x] is
    the double nearest to [x], the one with the even significand of two
    equally near: a multiple of [2 ^ e] where [e] leaves 53 significant
    bits, and is at least [-1074] (the subnormal doubles). An operation
    returns the double nearest to the exact result. Overflow is left out:
    the values computed here are distances inside a cutoff radius,
    energy differences and products of frequency ratios, far below
    [2 ^ 1024]. *)
Definition binade (x : Q) : Z :=
  let c := Z.log2 (Z.abs (Qnum x)) - Z.log2 (Z.pos (Qden x)) in
  if Qle_bool (2 ^ c) (Qabs x) then c else c - 1.

Definition round_binary64 (x : Q) : Q :=
  if Qeq_bool x 0 then 0%Q
  else
    let e := Z.max (binade x - 52) (-1074) in
    (inject_Z (round_half_even (x / 2 ^ e)) * 2 ^ e)%Q.

Definition float_mul (x y : Q) : Q := round_binary64 (x * y).
Definition float_div (x y : Q) : Q := round_binary64 (x / y).

(** The built-in [round(x, ndigits)] of a Python [float] is correctly
    rounded: the double nearest to the multiple of [10 ^ -ndigits] that
    is closest to the exact value of [x], the even one of two equally
    close multiples. *)
Definition py_round (x : Q) (ndigits : Z) : Q :=
  round_binary64
    (inject_Z (round_half_even (scaled x ndigits)) / 10 ^ ndigits).

(** numpy's [power_of_ten]: a table of the doubles [1e0 .. 1e8], and
    beyond it [ret = 1e9; while (n-- > 9) ret *= 10.]. The powers up to
    [10 ^ 22] are doubles, so that the products are exact up to there. *)
Definition power_of_ten (n : Z) : Q :=
  if n <? 9 then (10 ^ n)%Q
  else Z.iter (n - 9) (λ ret, float_mul ret 10) (10 ^ 9)%Q.

Definition rint (x : Q) : Q := inject_Z (round_half_even x).

(** [round(x, decimals)] of a [numpy.float64], which is [x.round(decimals)]:
    multiply by the power of ten, [rint], divide (for negative
    [decimals]: divide, [rint], multiply), each step a binary64
    operation on the result of the step before. *)
Definition np_round (x : Q) (decimals : Z) : Q :=
  if 0 <=? decimals then
    float_div (rint (float_mul x (power_of_ten decimals)))
              (power_of_ten decimals)
  else
    float_mul (rint (float_div x (power_of_ten (- decimals))))
              (power_of_ten (- decimals)).

(** ** Structures, files and the program state *)

Record site : Type := Site {
  specie : string;
  frac_coords : Q * Q * Q
}.

(** A pymatgen [Structure] and an ASE [Atoms] object, as their list of
    sites. *)
Abbreviation Struct := (list site).
Abbreviation Atoms := (list site).

(** What a file holds: a JSON document, given by the value it decodes to;
    other text, which [json.load] rejects; a structure in POSCAR format,
    also text that is no JSON document; or the images of an ASE trajectory,
    a binary format. *)
Inductive file : Type :=
  | JsonDoc (v : json)
  | Unparsable (text : string)
  | Poscar (s : Struct)
  | Trajectory (frames : list Atoms).

(** [json.load(f)] on an open text file: the value, or [None] for
    [JSONDecodeError], the one exception [get_status] handles. A binary file
    fails earlier, when its bytes are decoded. *)
Definition json_load (f : file) : result (option json) :=
  match f with
  | JsonDoc v => Ok (Some v)
  | Unparsable _ | Poscar _ => Ok None
  | Trajectory _ => Raise UnicodeDecodeError
  end.

(** The observable trace: lines printed, entries into the functions that
    drive the scientific libraries, and the optimizer runs. *)
Inductive event : Type :=
  | Print (line : string)
  | Called (function argument : string)
  | NebAttempt (climb : bool) (optimizer method : string) (fmax : Q)
               (steps : Z).

Record state : Type := State {
  default_status : gmap string json;   (* the object DEFAULT_STATUS *)
  files : gmap string file;
  log : list event
}.

Definition M (A : Type) : Type := state → result A * state.

#[export] Instance M_ret : MRet M := λ A a s, (Ok a, s).
#[export] Instance M_bind : MBind M := λ A B f c s,
  match c s with
  | (Ok a, s') => f a s'
  | (Raise e, s') => (Raise e, s')
  end.

Definition raise {A} (e : exn) : M A := λ s, (Raise e, s).
Definition lift {A} (r : result A) : M A := λ s, (r, s).
(** [try: c except Exception: ...] hands the outcome to the handler. *)
Definition catch {A} (c : M A) : M (result A) := λ s,
  let '(r, s') := c s in (Ok r, s').

Definition emit (e : event) : M unit := λ s,
  (Ok (), State (default_status s) (files s) (log s ++ [e])).
Definition print (line : string) : M unit := emit (Print line).

Definition os_path_exists (path : string) : M bool := λ s,
  (Ok (bool_decide (is_Some (files s !! path))), s).
Definition write_file (path : string) (f : file) : M unit := λ s,
  (Ok (), State (default_status s) (<[path := f]> (files s)) (log s)).
Definition read_file (path : string) : M file := λ s,
  match files s !! path with
  | Some f => (Ok f, s)
  | None => (Raise FileNotFoundError, s)
  end.

Definition ends_with_slash (a : string) : bool :=
  match String.get (String.length a - 1) a with
  | Some c => bool_decide (c = "/"%char)
  | None => false
  end.

(** The text [os.path.join a b] puts in front of a relative [b]. *)
Definition join_prefix (a : string) : string :=
  if String.eqb a "" then ""
  else if ends_with_slash a then a
  else a +:+ "/".

Definition os_path_join (a b : string) : string :=
  if String.prefix "/" b then b else join_prefix a +:+ b.

Fixpoint basename_from (candidate s : string) : string :=
  match s with
  | EmptyString => candidate
  | String c s' =>
      if Ascii.eqb c "/" then basename_from s' s'
      else basename_from candidate s'
  end.

Definition os_path_basename (path : string) : string :=
  basename_from path path.

(** [str(e)] of a caught exception, up to the wording of the libraries. *)
Definition exn_text (e : exn) : string :=
  match e with
  | TypeError => "TypeError"
  | KeyError => "KeyError"
  | IndexError => "index out of range"
  | FileNotFoundError => "No such file or directory"
  | UnicodeDecodeError => "codec can't decode byte"
  | ExternalError what => what
  end.

(** [ase.io.read(path)]: the last image of the file. *)
Definition ase_read (path : string) : M Atoms :=
  f ← read_file path;
  match f with
  | Poscar s => mret s
  | Trajectory frames =>
      match list.last frames with
      | Some a => mret a
      | None => raise (ExternalError "no images in file")
      end
  | _ => raise (ExternalError "unknown file type")
  end.

(** [ase.io.read(path + '@-n:')]: the last [n] images of the file. *)
Definition ase_read_last (path : string) (n : nat) : M (list Atoms) :=
  f ← read_file path;
  match f with
  | Poscar s => mret [s]
  | Trajectory frames => mret (drop (length frames - n)%nat frames)
  | _ => raise (ExternalError "unknown file type")
  end.

(** ** The scientific libraries

    What the code gets back from MatterSim, ASE and pymatgen is given by
    functions of what it passes in. A run that writes a trajectory reports
    the frames written together with its outcome, and an analysis of
    vibrations the cache files it writes. *)

Inductive run_outcome (A : Type) : Type :=
  | SetupFailed (e : exn)
  | Ran (frames : list Atoms) (r : result A).
Arguments SetupFailed {A} e.
Arguments Ran {A} frames r.

Record optimizer_config : Type := OptimizerConfig {
  optimizer : string;
  method : string;
  fmax : Q
}.

Record collaborators : Type := Collaborators {
  (* Relaxer(...).relax(structure, steps=500, fmax=0.001, trajectory=...) *)
  relaxer_relax : Atoms → run_outcome (bool * Atoms);
  (* NEB(images, climb, method); interpolate; optimizer(...).run(fmax, steps) *)
  neb_optimize : bool → optimizer_config → list Atoms → Z
                 → run_outcome (bool * Z);
  (* NEBTools(images).get_barrier()[0] *)
  neb_barrier : list Atoms → result Q;
  (* the energies of fit_images(images).lines *)
  fit_energies : list Atoms → result (list Q);
  (* the calculator and Vibrations(atoms, name=vib_dir_name).run(); then
     vib.summary(log=f); then the real parts of vib.get_frequencies(): see
     PrefactorStep *)
  vibrations_run :
    Atoms → string → gmap string file → list (string * file) * result ();
  vibrations_summary :
    Atoms → string → gmap string file → string * result ();
  vibrations_frequencies :
    Atoms → string → gmap string file → result (list Q);
  (* a float as '.4f' *)
  format_4f : Q → string;
  (* str() of a float, and the distance between two sites as '.2f' *)
  repr_float : Q → string;
  distance_2f : Struct → nat → nat → string
}.

(** ** status_manager.py *)

Module StatusManager.

Definition STATUS_FILENAME : string := "status.json".

(** The value [DEFAULT_STATUS] is bound to when the module is loaded. *)
Definition DEFAULT_STATUS : gmap string json :=
  list_to_map [
    ("initial_relax_complete", JBool false);
    ("final_relax_complete", JBool false);
    ("neb_steps_taken", JInt 0);
    ("neb_climb_steps_taken", JInt 0);
    ("neb_analysis_complete", JBool false);
    ("prefactor_complete", JBool false);
    ("neb_barrier_eV", JNull);
    ("prefactor_THz", JNull)
  ].

(** A Python reference to a status object: either the module-level
    dictionary itself, or an object of the caller's own. *)
Inductive status_ref : Type :=
  | TheDefault
  | Fresh (v : json).

Definition deref (r : status_ref) (s : state) : json :=
  match r with
  | TheDefault => JObj (default_status s)
  | Fresh v => v
  end.

(** What [DEFAULT_STATUS] holds now. *)
Definition current_default : M (gmap string json) := λ s,
  (Ok (default_status s), s).

(** The object behind a reference, as it is now. *)
Definition load_ref (r : status_ref) : M json := λ s, (Ok (deref r s), s).

(** [json.dump(status, f, indent=4)] under [open(status_path, 'w')]. The
    values of type [json] are those that [json.dump] encodes, so the
    document is written whole; a status with a value of another kind, on
    which [json.dump] raises with the file already truncated, is not a
    state of this model. *)
Definition dump (status_path : string) (r : status_ref) : M unit :=
  v ← load_ref r;
  write_file status_path (JsonDoc v).

(** One round of [for key, value in DEFAULT_STATUS.items()]. *)
Definition fill_key (key : string) (value : json) (acc : result json)
  : result json :=
  match acc with
  | Ok status =>
      match py_contains status key with
      | Ok true => Ok status
      | Ok false => py_setitem status key value
      | Raise e => Raise e
      end
  | Raise e => Raise e
  end.

Definition fill_defaults (defaults : gmap string json) (status : json)
  : result json :=
  map_fold fill_key (Ok status) defaults.

Definition corrupt_warning (directory : string) : string :=
  "Warning: Corrupted status file in " +:+ directory +:+ ". Resetting.".

Definition get_status (directory : string) : M status_ref :=
  let status_path := os_path_join directory STATUS_FILENAME in
  present ← os_path_exists status_path;
  if negb present then
    dump status_path TheDefault;;
    mret TheDefault
  else
    f ← read_file status_path;
    loaded ← lift (json_load f);
    match loaded with
    | Some status =>
        defaults ← current_default;
        status ← lift (fill_defaults defaults status);
        mret (Fresh status)
    | None =>
        print (corrupt_warning directory);;
        dump status_path TheDefault;;
        mret TheDefault
    end.

(** [DEFAULT_STATUS[key] = value]: the module-level object is updated in
    place. *)
Definition set_default_item (key : string) (value : json) : M unit := λ s,
  (Ok (), State (<[key := value]> (default_status s)) (files s) (log s)).

(** [status[key_to_update] = value] through the reference. *)
Definition assign (r : status_ref) (key : string) (value : json)
  : M status_ref :=
  match r with
  | TheDefault =>
      set_default_item key value;;
      mret TheDefault
  | Fresh v =>
      v' ← lift (py_setitem v key value);
      mret (Fresh v')
  end.

Definition update_status (directory key_to_update : string) (value : json)
  : M unit :=
  status ← get_status directory;
  status ← assign status key_to_update value;
  let status_path := os_path_join directory STATUS_FILENAME in
  dump status_path status.

End StatusManager.

(** ** pathfinder_step.py *)

Module Pathfinder.

(** An entry of [structure.get_neighbors(...)], through [as_dict()]:
    ['nn_distance'] (a [numpy.float64]), ['index'] and the first key of
    ['species']. *)
Record neighbor : Type := Neighbor {
  nn_distance : Q;
  index : nat;
  neighbor_symbol : string
}.

(** [(tuple(sorted((start_rep_idx, end_rep_idx))), rounded_distance)]
    with [rounded_distance = round(distance, distance_precision)] on the
    [numpy.float64] distance; the float is kept in canonical form, so
    that equal floats are equal keys. *)
Definition hop_type : Type := nat * nat * Qc.

Definition make_hop_type (start_rep_idx end_rep_idx : nat)
    (distance : Q) (distance_precision : Z) : hop_type :=
  (Nat.min start_rep_idx end_rep_idx, Nat.max start_rep_idx end_rep_idx,
   Q2Qc (np_round distance distance_precision)).

Definition enumerate {A} (l : list A) : list (nat * A) := imap pair l.

Definition no_atoms_error (migrating_element : string) : string :=
  "Error: No atoms of '" +:+ migrating_element
    +:+ "' found in the supercell.".

Section Finder.
(** [SpacegroupAnalyzer(structure).get_symmetry_dataset()
    ["equivalent_atoms"]], which raises when the symmetry search fails,
    and [structure.get_neighbors(site, r)]. *)
Variable equivalent_atoms_of : Struct → result (list nat).
Variable get_neighbors : Struct → site → Q → list neighbor.

(** The loop state: [processed_hop_types], [final_hops_to_generate]. *)
Definition finder_state : Type := gset hop_type * list (nat * nat).

(** The body of [for neighbor in neighbors]. *)
Definition visit_neighbor (equivalent_atoms : list nat)
    (migrating_element : string) (distance_precision : Z) (start_idx : nat)
    (acc : result finder_state) (nb : neighbor) : result finder_state :=
  match acc with
  | Raise e => Raise e
  | Ok (processed_hop_types, final_hops_to_generate) =>
      let distance := nn_distance nb in
      let end_idx := index nb in
      if String.eqb (neighbor_symbol nb) migrating_element then
        match equivalent_atoms !! start_idx, equivalent_atoms !! end_idx with
        | Some start_rep_idx, Some end_rep_idx =>
            let hop := make_hop_type start_rep_idx end_rep_idx
                         distance distance_precision in
            if decide (hop ∈ processed_hop_types)
            then Ok (processed_hop_types, final_hops_to_generate)
            else Ok ({[hop]} ∪ processed_hop_types,
                     final_hops_to_generate ++ [(start_idx, end_idx)])
        | _, _ => Raise IndexError
        end
      else Ok (processed_hop_types, final_hops_to_generate)
  end.

(** The body of [for start_idx in all_migrating_ion_indices]. *)
Definition visit_start (structure : Struct) (equivalent_atoms : list nat)
    (migrating_element : string) (max_hop_distance : Q)
    (distance_precision : Z)
    (acc : result finder_state) (start_idx : nat) : result finder_state :=
  match acc with
  | Raise e => Raise e
  | Ok st =>
      match structure !! start_idx with
      | Some origin =>
          let neighbors :=
            get_neighbors structure origin max_hop_distance in
          foldl (visit_neighbor equivalent_atoms migrating_element
                   distance_precision start_idx) (Ok st) neighbors
      | None => Raise IndexError
      end
  end.

(** Returns what is printed and the value returned (or the exception).
    The symmetry analysis comes first, before the migrating sites are
    looked for. *)
Definition find_unique_hops (structure : Struct)
    (migrating_element : string) (max_hop_distance : Q)
    (distance_precision : Z) : list string * result (list (nat * nat)) :=
  match equivalent_atoms_of structure with
  | Raise e => ([], Raise e)
  | Ok equivalent_atoms =>
      let all_migrating_ion_indices :=
        omap (λ '(i, site),
                if String.eqb (specie site) migrating_element
                then Some i else None)
             (enumerate structure) in
      match all_migrating_ion_indices with
      | [] => ([no_atoms_error migrating_element], Ok [])
      | _ =>
          ([],
           match foldl (visit_start structure equivalent_atoms
                          migrating_element max_hop_distance
                          distance_precision)
                       (Ok (∅, [])) all_migrating_ion_indices with
           | Ok (_, final_hops_to_generate) => Ok final_hops_to_generate
           | Raise e => Raise e
           end)
      end
  end.
End Finder.

End Pathfinder.

(** ** relaxer_step.py *)

Module RelaxerStep.
Section WithCollaborators.
Variable ext : collaborators.

(** [relaxer.relax(structure, steps=500, fmax=0.001,
    trajectory=trajectory_file)]. *)
Definition relax (structure : Atoms) (trajectory_file : string)
  : M (bool * Atoms) :=
  match relaxer_relax ext structure with
  | SetupFailed e => raise e
  | Ran frames r =>
      write_file trajectory_file (Trajectory frames);;
      lift r
  end.

Definition run_vacancy_relaxation (filename trajectory_file : string)
  : M (option Atoms) :=
  emit (Called "run_vacancy_relaxation" filename);;
  r ← catch (
    print ("  > Starting fixed-cell relaxation for "
             +:+ os_path_basename filename +:+ "...");;
    structure ← ase_read filename;
    relaxed_result ← relax structure trajectory_file;
    let '(converged, relaxed_atoms) := relaxed_result in
    if converged : bool then
      print ("  > Fixed-cell relaxation converged. Trajectory saved to "
               +:+ trajectory_file);;
      mret (Some relaxed_atoms)
    else
      print ("  > Warning: Fixed-cell relaxation did not converge. "
               +:+ "Trajectory saved to " +:+ trajectory_file);;
      mret None);
  match r with
  | Ok relaxed => mret relaxed
  | Raise e =>
      print ("An error occurred during vacancy relaxation of "
               +:+ filename +:+ ": " +:+ exn_text e);;
      mret None
  end.
End WithCollaborators.

Section Bulk.
(** [Relaxer(optimizer="BFGS", filter="FrechetCellFilter",
    constrain_symmetry=False).relax(structure, steps=500, fmax=0.001)]: no
    trajectory is written. *)
Variable bulk_relax : Atoms → result (bool * Atoms).

Definition run_bulk_relaxation (filename : string) : M (option Atoms) :=
  emit (Called "run_bulk_relaxation" filename);;
  r ← catch (
    structure ← ase_read filename;
    relaxed_result ← lift (bulk_relax structure);
    let '(converged, relaxed_atoms) := relaxed_result in
    if converged : bool then
      print ("Bulk relaxation converged for " +:+ filename +:+ ".");;
      mret relaxed_atoms
    else
      print ("Warning: Bulk relaxation did not converge for "
               +:+ filename +:+ ".");;
      mret relaxed_atoms);
  match r with
  | Ok relaxed_atoms => mret (Some relaxed_atoms)
  | Raise e =>
      print ("An error occurred during bulk relaxation of "
               +:+ filename +:+ ": " +:+ exn_text e);;
      mret None
  end.
End Bulk.

End RelaxerStep.

(** ** prefactor_step.py

    Python floats are kept abstract: the function uses a product, a
    quotient, the test of a divisor against zero that division makes, and
    the ['.4f'] format. *)

Module PrefactorStep.
Section WithVibrations.
Variable float : Type.
Variable is_zero : float → bool.
Variable fmul fdiv : float → float → float.
(* the literal 0.0299792458 *)
Variable cm_to_thz : float.
Variable format_4f : float → string.
(** ASE's [Vibrations] object keeps a cache in the directory
    [vib_dir_name], one file [cache.<label>.json] for each displacement of
    an atom; all three oracles are given the files as they are then.
    - [vib_run]: loading the calculator and
      [Vibrations(atoms, name=vib_dir_name).run()], which computes the
      displacements not yet in the cache and writes a file for each:
      the labels and contents written, and how the run ended;
    - [vib_summary]: [vib.summary(log=f)] on the summary file, opened for
      writing: the text written, and how the call ended;
    - [vib_get_frequencies]: the real parts of
      [vib.get_frequencies().tolist()]. *)
Variable vib_run :
  Atoms → string → gmap string file → list (string * file) * result ().
Variable vib_summary :
  Atoms → string → gmap string file → string * result ().
Variable vib_get_frequencies :
  Atoms → string → gmap string file → result (list float).

Definition cache_path (vib_dir_name label : string) : string :=
  join_prefix vib_dir_name +:+ "cache." +:+ label +:+ ".json".

Definition write_cache (vib_dir_name : string) (written : list (string * file))
  : M unit :=
  foldr (λ entry rest,
           write_file (cache_path vib_dir_name entry.1) entry.2;; rest)
        (mret ()) written.

Definition current_files : M (gmap string file) := λ s, (Ok (files s), s).

Definition get_frequencies_as_reals
    (atoms_path vib_dir_name summary_file_path : string) : M (list float) :=
  print ("    > Calculating frequencies for " +:+ os_path_basename atoms_path
           +:+ "...");;
  atoms ← ase_read atoms_path;
  fs ← current_files;
  let '(written, ran) := vib_run atoms vib_dir_name fs in
  write_cache vib_dir_name written;;
  lift ran;;
  fs ← current_files;
  let '(summary, summarised) := vib_summary atoms vib_dir_name fs in
  write_file summary_file_path (Unparsable summary);;
  lift summarised;;
  print ("    > Vibration summary saved to "
           +:+ os_path_basename summary_file_path);;
  fs ← current_files;
  lift (vib_get_frequencies atoms vib_dir_name fs).

(** [i / s] on floats. *)
Definition py_div (i s : float) : result float :=
  if is_zero s then Raise (ExternalError "float division by zero")
  else Ok (fdiv i s).

(** One round of [for i, s in zip(...): prefactor_cm *= i / s]. *)
Definition multiply_ratio (acc : result float) (pair : float * float)
  : result float :=
  match acc with
  | Raise e => Raise e
  | Ok prefactor_cm =>
      match py_div pair.1 pair.2 with
      | Raise e => Raise e
      | Ok ratio => Ok (fmul prefactor_cm ratio)
      end
  end.

(** From [prefactor_cm = initial_freqs[3]] to the assignment of
    [prefactor_thz]. *)
Definition vineyard_product (initial_freqs saddle_freqs : list float)
  : result float :=
  match initial_freqs !! 3%nat with
  | None => Raise IndexError
  | Some prefactor_cm =>
      match foldl multiply_ratio (Ok prefactor_cm)
              (zip (drop 4 initial_freqs) (drop 4 saddle_freqs)) with
      | Raise e => Raise e
      | Ok prefactor_cm => Ok (fmul prefactor_cm cm_to_thz)
      end
  end.

Definition calculate_prefactor
    (initial_state_path saddle_state_path directory : string)
  : M (option float) :=
  print "  > Calculating diffusion prefactor...";;
  r ← catch (
    let initial_vib_dir := os_path_join directory "vib_initial" in
    let saddle_vib_dir := os_path_join directory "vib_saddle" in
    let initial_summary_path := os_path_join directory "initial_vib.dat" in
    let saddle_summary_path := os_path_join directory "saddle_vib.dat" in
    initial_freqs ← get_frequencies_as_reals initial_state_path
                      initial_vib_dir initial_summary_path;
    saddle_freqs ← get_frequencies_as_reals saddle_state_path
                     saddle_vib_dir saddle_summary_path;
    print ("    > Found " +:+ pretty (length initial_freqs)
             +:+ " frequencies for the initial state.");;
    print ("    > Found " +:+ pretty (length saddle_freqs)
             +:+ " frequencies for the saddle state.");;
    print ("    > USER WARNING: For trustworthy results, please visually "
             +:+ "inspect the *.dat files");;
    print ("    > and confirm the initial state has 3 imaginary/zero modes "
             +:+ "and the");;
    print "    > saddle state has exactly one additional imaginary mode.";;
    prefactor_thz ← lift (vineyard_product initial_freqs saddle_freqs);
    print ("  > Calculated prefactor: " +:+ format_4f prefactor_thz
             +:+ " THz");;
    mret prefactor_thz);
  match r with
  | Ok prefactor_thz => mret (Some prefactor_thz)
  | Raise e =>
      print ("An error occurred during prefactor calculation: "
               +:+ exn_text e);;
      mret None
  end.
End WithVibrations.
End PrefactorStep.

(** ** neb_step.py *)

Module NebStep.

Record neb_results : Type := Results {
  neb_converged : bool;
  climb_converged : bool;
  analysis_ok : bool;
  prefactor_ok : bool;
  neb_steps : Z;
  climb_steps : Z;
  barrier_eV : option Q;
  prefactor_THz : option Q
}.

Definition initial_results : neb_results :=
  Results false false false false 0 0 None None.

Definition set_neb_steps (n : Z) (r : neb_results) : neb_results :=
  Results (neb_converged r) (climb_converged r) (analysis_ok r)
    (prefactor_ok r) n (climb_steps r) (barrier_eV r) (prefactor_THz r).
Definition set_climb_steps (n : Z) (r : neb_results) : neb_results :=
  Results (neb_converged r) (climb_converged r) (analysis_ok r)
    (prefactor_ok r) (neb_steps r) n (barrier_eV r) (prefactor_THz r).
Definition set_barrier_eV (b : Q) (r : neb_results) : neb_results :=
  Results (neb_converged r) (climb_converged r) (analysis_ok r)
    (prefactor_ok r) (neb_steps r) (climb_steps r) (Some b) (prefactor_THz r).
Definition set_analysis_ok (r : neb_results) : neb_results :=
  Results (neb_converged r) (climb_converged r) true
    (prefactor_ok r) (neb_steps r) (climb_steps r) (barrier_eV r)
    (prefactor_THz r).
Definition set_prefactor (p : Q) (r : neb_results) : neb_results :=
  Results (neb_converged r) (climb_converged r) (analysis_ok r)
    true (neb_steps r) (climb_steps r) (barrier_eV r) (Some p).

Definition optimizers_to_try : list optimizer_config := [
  OptimizerConfig "FIRE" "improvedtangent" (1 # 100);
  OptimizerConfig "FIRE" "aseneb" (1 # 100);
  OptimizerConfig "LBFGS" "improvedtangent" (1 # 100);
  OptimizerConfig "LBFGS" "aseneb" (1 # 100)
].

Definition climb_optimizers_to_try : list optimizer_config := [
  OptimizerConfig "FIRE" "improvedtangent" (1 # 1000);
  OptimizerConfig "FIRE" "aseneb" (1 # 1000);
  OptimizerConfig "LBFGS" "improvedtangent" (1 # 1000);
  OptimizerConfig "LBFGS" "aseneb" (1 # 1000)
].

(** The wording that differs between the two stages. *)
Definition attempt_word (climb : bool) : string :=
  if climb then "Climb Attempt " else "Attempt ".
Definition stage_name (climb : bool) : string :=
  if climb then "Climbing Image NEB" else "Standard NEB".

Definition attempt_line (climb : bool) (i : nat) (params : optimizer_config)
  : string :=
  "    > " +:+ attempt_word climb +:+ pretty (i + 1)%nat +:+ "/4: Using "
    +:+ optimizer params +:+ " with method '" +:+ method params +:+ "'...".

Definition converged_line (climb : bool) (nsteps : Z) : string :=
  "    > " +:+ stage_name climb +:+ " converged in " +:+ pretty nsteps
    +:+ " steps.".

Definition not_converged_warning (climb : bool) (max_steps : Z) : string :=
  "  > WARNING: " +:+ stage_name climb +:+ " did not converge"
    +:+ (if climb then "" else " with any method")
    +:+ " within " +:+ pretty max_steps +:+ " steps.".

Definition argmax (energies : list Q) : result nat :=
  match energies with
  | [] => Raise (ExternalError "attempt to get argmax of an empty sequence")
  | e0 :: rest =>
      Ok (foldl (λ '(best, best_e, i) e,
                   if Qlt_le_dec best_e e
                   then (i, e, S i) else (best, best_e, S i))
                (0%nat, e0, 1%nat) rest).1.1
  end.

Section WithCollaborators.
Variable ext : collaborators.

(** One attempt: a NEB over fresh copies of [images], an optimizer writing
    to [traj_path], and [optimizer.run(fmax=..., steps=max_steps)]. *)
Definition run_attempt (climb : bool) (params : optimizer_config)
    (images : list Atoms) (traj_path : string) (max_steps : Z)
  : M (bool * Z) :=
  emit (NebAttempt climb (optimizer params) (method params) (fmax params)
          max_steps);;
  match neb_optimize ext climb params images max_steps with
  | SetupFailed e => raise e
  | Ran frames r =>
      write_file traj_path (Trajectory frames);;
      lift r
  end.

(** [for i, params in enumerate(...)]: [Some nsteps] when an attempt
    converged and the loop was left by [break], [None] when the list ran
    out. *)
Fixpoint attempts (climb : bool) (images : list Atoms) (traj_path : string)
    (max_steps : Z) (i : nat) (to_try : list optimizer_config)
  : M (option Z) :=
  match to_try with
  | [] => mret None
  | params :: rest =>
      print (attempt_line climb i params);;
      outcome ← run_attempt climb params images traj_path max_steps;
      let '(converged_this_attempt, nsteps) := outcome in
      if converged_this_attempt : bool then
        print (converged_line climb nsteps);;
        mret (Some nsteps)
      else
        print "    > Did not converge with this method.";;
        attempts climb images traj_path max_steps (S i) rest
  end.

(** A whole stage: the loop, then the test of the convergence flag. The
    pair is the flag and the value stored under ["neb_steps"]
    (["climb_steps"]). *)
Definition run_with_fallback (climb : bool) (images : list Atoms)
    (traj_path : string) (max_steps : Z) (to_try : list optimizer_config)
  : M (bool * Z) :=
  r ← attempts climb images traj_path max_steps 0 to_try;
  match r with
  | Some nsteps => mret (true, nsteps)
  | None =>
      print (not_converged_warning climb max_steps);;
      mret (false, max_steps)
  end.

Definition error_line (directory : string) (e : exn) : string :=
  "An error occurred during the NEB calculation or post-processing in "
    +:+ directory +:+ ": " +:+ exn_text e.

Definition energies_line (energies : list Q) : string :=
  "  > Relative Energy of All Images:  ["
    +:+ String.concat ", " (repr_float ext <$> energies) +:+ "]".

(** The call of [prefactor_step.calculate_prefactor], on Python floats:
    [s == 0.0] makes [i / s] raise, the literal is the double nearest to
    0.0299792458. *)
Definition calculate_prefactor
    (initial_state_path saddle_state_path directory : string)
  : M (option Q) :=
  emit (Called "calculate_prefactor" directory);;
  PrefactorStep.calculate_prefactor Q (λ x, Qeq_bool x 0) float_mul
    float_div (round_binary64 (299792458 # 10000000000)) (format_4f ext)
    (vibrations_run ext) (vibrations_summary ext)
    (vibrations_frequencies ext) initial_state_path saddle_state_path
    directory.

(** Stage 1 of the [try] block. *)
Definition standard_stage (initial_path final_path directory : string)
    (num_images : nat) (max_steps : Z) : M (bool * Z) :=
  print ("  > Setting up Standard NEB in '" +:+ directory +:+ "'...");;
  initial ← ase_read initial_path;
  final ← ase_read final_path;
  let neb_traj_path := os_path_join directory "neb.traj" in
  let attempt_images := [initial] ++ replicate num_images initial ++ [final] in
  run_with_fallback false attempt_images neb_traj_path max_steps
    optimizers_to_try.

(** Stage 2 of the [try] block. *)
Definition climbing_stage (directory : string) (num_images : nat)
    (max_steps : Z) : M (bool * Z) :=
  print ("  > Setting up Climbing Image NEB in '" +:+ directory +:+ "'...");;
  let neb_traj_path := os_path_join directory "neb.traj" in
  let total_images := (num_images + 2)%nat in
  climb_images_initial ← ase_read_last neb_traj_path total_images;
  let climb_traj_path := os_path_join directory "neb_climb.traj" in
  run_with_fallback true climb_images_initial climb_traj_path max_steps
    climb_optimizers_to_try.

(** Post-processing up to the assignment of [results["barrier_eV"]]; the
    barrier that ASE fits is a [numpy.float64]. *)
Definition read_barrier (directory : string) (num_images : nat)
  : M (list Atoms * Q) :=
  print "  > Post-processing CI-NEB results...";;
  let climb_traj_path := os_path_join directory "neb_climb.traj" in
  let total_images := (num_images + 2)%nat in
  converged_climb_images ← ase_read_last climb_traj_path total_images;
  barrier ← lift (neb_barrier ext converged_climb_images);
  mret (converged_climb_images, np_round barrier 4).

(** Post-processing from there to [results["analysis_ok"] = True];
    returns [saddle_path]. *)
Definition write_saddle (directory : string)
    (converged_climb_images : list Atoms) (barrier_eV : Q) : M string :=
  print ("  > Calculated CI-NEB barrier: " +:+ repr_float ext barrier_eV
           +:+ " eV");;
  energies ← lift (fit_energies ext converged_climb_images);
  print (energies_line energies);;
  saddle_index ← lift (argmax energies);
  match converged_climb_images !! saddle_index with
  | None => raise IndexError
  | Some saddle_point =>
      let saddle_path := os_path_join directory "POSCAR_saddle" in
      write_file saddle_path (Poscar saddle_point);;
      print ("  > Saddle point (image " +:+ pretty saddle_index
               +:+ ") structure written to "
               +:+ os_path_basename saddle_path);;
      mret saddle_path
  end.

(** The [try] statement. [results] is updated in place as the stages
    complete, so the handler returns what had been stored by then. *)
Definition try_stages
    (initial_path final_path optimized_initial_path directory : string)
    (num_images : nat) (max_steps : Z) : M neb_results :=
  let results := initial_results in
  let handler (e : exn) (results : neb_results) : M neb_results :=
    print (error_line directory e);; mret results in
  r ← catch (standard_stage initial_path final_path directory num_images
               max_steps);
  match r with
  | Raise e => handler e results
  | Ok (false, steps) => mret (set_neb_steps steps results)
  | Ok (true, steps) =>
  let results := set_neb_steps steps results in
  r ← catch (climbing_stage directory num_images max_steps);
  match r with
  | Raise e => handler e results
  | Ok (false, steps) => mret (set_climb_steps steps results)
  | Ok (true, steps) =>
  let results := set_climb_steps steps results in
  r ← catch (read_barrier directory num_images);
  match r with
  | Raise e => handler e results
  | Ok (converged_climb_images, barrier) =>
  let results := set_barrier_eV barrier results in
  r ← catch (write_saddle directory converged_climb_images barrier);
  match r with
  | Raise e => handler e results
  | Ok saddle_path =>
  let results := set_analysis_ok results in
  r ← catch (calculate_prefactor optimized_initial_path saddle_path
               directory);
  match r with
  | Raise e => handler e results
  | Ok None => mret results
  | Ok (Some prefactor_thz) =>
      mret (set_prefactor (py_round prefactor_thz 4) results)
  end end end end end.

Definition run_neb_calculation
    (initial_path final_path optimized_initial_path directory : string)
    (num_images : nat) (max_steps : Z) : M neb_results :=
  emit (Called "run_neb_calculation" directory);;
  try_stages initial_path final_path optimized_initial_path directory
    num_images max_steps.
End WithCollaborators.
End NebStep.

(** ** io_step.py *)

Module IoStep.
Import StatusManager.

(** [f"{path_num:03d}"]. *)
Definition format_03d (path_num : nat) : string :=
  let digits := pretty path_num in
  String.concat "" (replicate (3 - String.length digits)%nat "0") +:+ digits.

Definition newline : string := String (ascii_of_nat 10) EmptyString.

(** [structure.remove_sites([idx])] on a copy: the sites whose index is not
    [idx]. *)
Definition remove_site (idx : nat) (structure : Struct) : Struct :=
  delete idx structure.

(** [structure[idx].frac_coords = coords]. *)
Definition set_frac_coords (idx : nat) (coords : Q * Q * Q)
    (structure : Struct) : result Struct :=
  match structure !! idx with
  | Some old => Ok (<[idx := Site (specie old) coords]> structure)
  | None => Raise IndexError
  end.

(** The structure written to [POSCAR_initial]. *)
Definition initial_endpoint (pristine_structure : Struct) (vacancy_idx : nat)
  : Struct :=
  remove_site vacancy_idx pristine_structure.

(** The structure written to [POSCAR_final]. *)
Definition final_endpoint (pristine_structure : Struct)
    (migrating_atom_idx vacancy_idx : nat) : result Struct :=
  let final_structure := remove_site vacancy_idx pristine_structure in
  let migrating_atom_new_idx :=
    if (vacancy_idx <? migrating_atom_idx)%nat
    then (migrating_atom_idx - 1)%nat
    else migrating_atom_idx in
  match pristine_structure !! vacancy_idx with
  | None => Raise IndexError
  | Some vacancy_site =>
      let destination_coords := frac_coords vacancy_site in
      set_frac_coords migrating_atom_new_idx destination_coords
        final_structure
  end.

Definition json_of_float (x : option Q) : json :=
  match x with
  | Some q => JReal q
  | None => JNull
  end.

(** [write_supercell_file]: [structure.to(fmt="poscar", filename=...)] and
    the line printed. *)
Definition write_supercell_file (structure : Struct) : M unit :=
  let supercell_filename := "POSCAR_supercell_pristine" in
  write_file supercell_filename (Poscar structure);;
  print ("Pristine supercell structure saved to '" +:+ supercell_filename
           +:+ "'." +:+ newline).

Section WithCollaborators.
Variable ext : collaborators.

(** The f-string that names the directory, given the distance. *)
Definition format_dir_name (pristine_structure : Struct)
    (migrating_atom_idx vacancy_idx path_num : nat) : string :=
  "NEB_path_" +:+ format_03d path_num +:+ "_("
    +:+ pretty migrating_atom_idx +:+ "_to_" +:+ pretty vacancy_idx
    +:+ ")_dist_"
    +:+ distance_2f ext pristine_structure migrating_atom_idx vacancy_idx
    +:+ "A".

(** [get_distance] raises on an index outside the structure. *)
Definition make_dir_name (pristine_structure : Struct)
    (migrating_atom_idx vacancy_idx path_num : nat) : M string :=
  if bool_decide (migrating_atom_idx < length pristine_structure
                  ∧ vacancy_idx < length pristine_structure)%nat
  then mret (format_dir_name pristine_structure migrating_atom_idx
               vacancy_idx path_num)
  else raise IndexError.

(** [status[key]] through the reference held since the start. *)
Definition status_item (status : status_ref) (key : string) : M json :=
  v ← load_ref status;
  lift (py_getitem v key).

(** [get_status(dir_name)[key]]. *)
Definition reread_item (dir_name key : string) : M json :=
  status ← get_status dir_name;
  status_item status key.

(** Step 1: create the unrelaxed structures if they do not exist. *)
Definition create_endpoints (pristine_structure : Struct)
    (migrating_atom_idx vacancy_idx : nat) (dir_name : string) : M unit :=
  let initial_poscar_path := os_path_join dir_name "POSCAR_initial" in
  let final_poscar_path := os_path_join dir_name "POSCAR_final" in
  present ← os_path_exists initial_poscar_path;
  (if negb present then
     print "  > Creating initial unrelaxed structure...";;
     write_file initial_poscar_path
       (Poscar (initial_endpoint pristine_structure vacancy_idx))
   else mret ());;
  present ← os_path_exists final_poscar_path;
  if negb present then
    print "  > Creating final unrelaxed structure...";;
    final_structure ← lift (final_endpoint pristine_structure
                              migrating_atom_idx vacancy_idx);
    write_file final_poscar_path (Poscar final_structure)
  else mret ().

(** Steps 2 and 3: relax one endpoint unless its flag is set. [which] is
    ["initial"] or ["final"]. *)
Definition relax_endpoint (which : string) (status : status_ref)
    (dir_name : string) : M unit :=
  let poscar_path := os_path_join dir_name ("POSCAR_" +:+ which) in
  let traj_path := os_path_join dir_name (which +:+ ".traj") in
  let optimized_path :=
    os_path_join dir_name ("POSCAR_optimized_" +:+ which) in
  let flag := which +:+ "_relax_complete" in
  complete ← status_item status flag;
  if negb (py_truthy complete) then
    relaxed ← RelaxerStep.run_vacancy_relaxation ext poscar_path traj_path;
    match relaxed with
    | Some (site0 :: sites) =>
        write_file optimized_path (Poscar (site0 :: sites));;
        print ("  > Saved final relaxed structure to "
                 +:+ os_path_basename optimized_path);;
        update_status dir_name flag (JBool true)
    | _ => mret ()
    end
  else
    print ("  > Skipping " +:+ which +:+ " relaxation (already complete).").

(** The body of the innermost [if] of step 4. *)
Definition run_neb_and_record (dir_name : string) (num_images : nat)
    (neb_max_steps : Z) : M unit :=
  results ← NebStep.run_neb_calculation ext
    (os_path_join dir_name "initial.traj")
    (os_path_join dir_name "final.traj")
    (os_path_join dir_name "POSCAR_optimized_initial")
    dir_name num_images neb_max_steps;
  update_status dir_name "neb_steps_taken"
    (JInt (NebStep.neb_steps results));;
  update_status dir_name "neb_climb_steps_taken"
    (JInt (NebStep.climb_steps results));;
  (if NebStep.analysis_ok results then
     update_status dir_name "neb_analysis_complete" (JBool true);;
     update_status dir_name "neb_barrier_eV"
       (json_of_float (NebStep.barrier_eV results))
   else mret ());;
  if NebStep.prefactor_ok results then
    update_status dir_name "prefactor_complete" (JBool true);;
    update_status dir_name "prefactor_THz"
      (json_of_float (NebStep.prefactor_THz results))
  else mret ().

(** Step 4: NEB calculation and analysis. *)
Definition neb_step (status : status_ref) (dir_name : string)
    (num_images : nat) (neb_max_steps : Z) : M unit :=
  initial_done ← reread_item dir_name "initial_relax_complete";
  final_done ←
    (if py_truthy initial_done
     then reread_item dir_name "final_relax_complete"
     else mret initial_done);
  if py_truthy final_done then
    neb_steps_taken ← status_item status "neb_steps_taken";
    rerun ←
      (if py_eq_zero neb_steps_taken then mret true
       else
         neb_climb_steps_taken ← status_item status "neb_climb_steps_taken";
         mret (py_eq_zero neb_climb_steps_taken));
    if rerun : bool then run_neb_and_record dir_name num_images neb_max_steps
    else print "  > Skipping NEB calculation (already run)."
  else print "  > Skipping NEB calculation (endpoints not ready).".

Definition manage_path_calculations (pristine_structure : Struct)
    (migrating_atom_idx vacancy_idx path_num num_images : nat)
    (neb_max_steps : Z) : M unit :=
  dir_name ← make_dir_name pristine_structure migrating_atom_idx
               vacancy_idx path_num;
  print (newline +:+ "--- Managing Path: " +:+ dir_name +:+ " ---");;
  status ← get_status dir_name;
  create_endpoints pristine_structure migrating_atom_idx vacancy_idx
    dir_name;;
  relax_endpoint "initial" status dir_name;;
  relax_endpoint "final" status dir_name;;
  neb_step status dir_name num_images neb_max_steps.
End WithCollaborators.
End IoStep.

(** ** supercell_step.py *)

Module SupercellStep.
Section WithPymatgen.
(** [get_sc_fromstruct], [Structure.make_supercell] on a copy, and the
    texts that the f-strings take from pymatgen and numpy. *)
Variable matrix : Type.
Variable get_sc_fromstruct : Struct → Q → Z → result matrix.
Variable make_supercell : Struct → matrix → result Struct.
Variable str_float : Q → string.
Variable str_matrix : matrix → string.
Variable reduced_formula : Struct → string.

Definition create_supercell (structure : Struct) (min_length : Q)
    (max_atoms : Z) : M Struct :=
  print ("Determining supercell matrix for min length "
           +:+ str_float min_length +:+ " Å and max " +:+ pretty max_atoms
           +:+ " atoms...");;
  sc_matrix ← lift (get_sc_fromstruct structure min_length max_atoms);
  supercell ← lift (make_supercell structure sc_matrix);
  print "Supercell created.";;
  print ("Transformation matrix:" +:+ IoStep.newline +:+ str_matrix sc_matrix);;
  print ("Supercell formula: " +:+ reduced_formula supercell);;
  print ("Supercell number of atoms: " +:+ pretty (length supercell));;
  mret supercell.
End WithPymatgen.
End SupercellStep.

(** ** main_workflow.py *)

Module MainWorkflow.

Definition MIGRATING_ELEMENT : string := "Li".
Definition MAX_HOP_DISTANCE : Q := 7.
Definition MIN_SUPERCELL_LENGTH : Q := 10.
Definition MAX_SUPERCELL_ATOMS : Z := 1000.
Definition DISTANCE_PRECISION : Z := 2.
Definition NUM_NEB_IMAGES : nat := 3.
Definition NEB_MAX_STEPS : Z := 5000.

(** How [main] ends when no exception escapes it: by [sys.exit(code)], or
    by reaching its last line. *)
Inductive ending : Type :=
  | Exit (code : Z)
  | Finished.

(** [os.remove(path)]. *)
Definition os_remove (path : string) : M unit := λ s,
  match files s !! path with
  | Some _ =>
      (Ok (), State (default_status s) (delete path (files s)) (log s))
  | None => (Raise FileNotFoundError, s)
  end.

Definition print_lines (lines : list string) : M unit :=
  foldr (λ line rest, print line;; rest) (mret ()) lines.

Section Main.
Variable ext : collaborators.
Variable bulk_relax : Atoms → result (bool * Atoms).
Variable matrix : Type.
Variable get_sc_fromstruct : Struct → Q → Z → result matrix.
Variable make_supercell : Struct → matrix → result Struct.
Variable str_float : Q → string.
Variable str_matrix : matrix → string.
Variable reduced_formula : Struct → string.
Variable equivalent_atoms_of : Struct → result (list nat).
Variable get_neighbors : Struct → site → Q → list Pathfinder.neighbor.
(* AseAtomsAdaptor.get_structure(atoms) *)
Variable get_structure : Atoms → result Struct.
(* torch.cuda.is_available() *)
Variable cuda_is_available : bool.

(** [for i, hop in enumerate(final_hops_to_generate)], from index [i]
    on. *)
Fixpoint manage_paths (pristine_supercell : Struct) (i : nat)
    (hops : list (nat * nat)) : M unit :=
  match hops with
  | [] => mret ()
  | (site1_idx, site2_idx) :: rest =>
      IoStep.manage_path_calculations ext pristine_supercell site1_idx
        site2_idx (i + 1) NUM_NEB_IMAGES NEB_MAX_STEPS;;
      manage_paths pristine_supercell (S i) rest
  end.

(** Steps 4 and 5, on the relaxed supercell. *)
Definition find_and_manage (pristine_supercell : Struct) : M ending :=
  print "--- Step 4: Finding unique migration paths in relaxed supercell ---";;
  let found := Pathfinder.find_unique_hops equivalent_atoms_of get_neighbors
                 pristine_supercell MIGRATING_ELEMENT MAX_HOP_DISTANCE
                 DISTANCE_PRECISION in
  print_lines found.1;;
  final_hops_to_generate ← lift found.2;
  match final_hops_to_generate with
  | [] =>
      print "Could not find any migration paths. Exiting.";;
      mret (Exit 1)
  | _ =>
      print ("Found " +:+ pretty (length final_hops_to_generate)
               +:+ " symmetrically unique migration hops to investigate."
               +:+ IoStep.newline);;
      print "--- Step 5: Managing calculations for each migration path ---";;
      manage_paths pristine_supercell 0 final_hops_to_generate;;
      print (IoStep.newline +:+ "All path calculations managed.");;
      print "Workflow finished successfully!";;
      mret Finished
  end.

(** Steps 2 and 3, on the structure of the relaxed primitive cell, and the
    rest. *)
Definition supercell_and_rest (initial_pmg_structure : Struct) : M ending :=
  print "--- Step 2: Creating supercell from relaxed primitive cell ---";;
  unrelaxed_supercell ←
    SupercellStep.create_supercell matrix get_sc_fromstruct make_supercell
      str_float str_matrix reduced_formula initial_pmg_structure
      MIN_SUPERCELL_LENGTH MAX_SUPERCELL_ATOMS;
  let temp_supercell_filename := "POSCAR_supercell_unrelaxed" in
  write_file temp_supercell_filename (Poscar unrelaxed_supercell);;
  print ("Supercell creation complete." +:+ IoStep.newline);;
  print "--- Step 3: Relaxing the supercell with MatterSim ---";;
  relaxed_supercell_ase ←
    RelaxerStep.run_bulk_relaxation bulk_relax temp_supercell_filename;
  match relaxed_supercell_ase with
  | None =>
      print "Supercell relaxation failed. Exiting.";;
      os_remove temp_supercell_filename;;
      mret (Exit 1)
  | Some relaxed_supercell_ase =>
      pristine_supercell ← lift (get_structure relaxed_supercell_ase);
      print ("Supercell relaxation complete." +:+ IoStep.newline);;
      os_remove temp_supercell_filename;;
      IoStep.write_supercell_file pristine_supercell;;
      find_and_manage pristine_supercell
  end.

(** [sys.argv] is [argv]. *)
Definition main (argv : list string) : M ending :=
  let device := if cuda_is_available then "CUDA" else "CPU" in
  print ("--- Using device: " +:+ device +:+ " ---");;
  match argv with
  | _ :: input_filename :: _ =>
      present ← os_path_exists input_filename;
      if negb present then
        print ("Error: The input file '" +:+ input_filename
                 +:+ "' was not found.");;
        mret (Exit 1)
      else
        print "--- Step 1: Relaxing initial structure with MatterSim ---";;
        relaxed_ase_atoms ←
          RelaxerStep.run_bulk_relaxation bulk_relax input_filename;
        match relaxed_ase_atoms with
        | None =>
            print "Initial relaxation failed. Exiting.";;
            mret (Exit 1)
        | Some relaxed_ase_atoms =>
            print ("Initial relaxation complete." +:+ IoStep.newline);;
            initial_pmg_structure ← lift (get_structure relaxed_ase_atoms);
            supercell_and_rest initial_pmg_structure
        end
  | _ =>
      print "Usage: python main_workflow.py <path_to_structure_file>";;
      mret (Exit 1)
  end.
End Main.
End MainWorkflow.

(** ** Vocabulary of the properties *)

Import StatusManager.

Definition status_path (directory : string) : string :=
  os_path_join directory STATUS_FILENAME.

(** The state of a process that has just imported the modules, over a
    given file system. *)
Definition fresh_process (fs : gmap string file) : state :=
  State DEFAULT_STATUS fs [].

(** A hop met during the traversal, with its signature. *)
Definition candidate : Type := (nat * nat) * Pathfinder.hop_type.

(** The candidate a neighbour of the migrating species gives; an index
    outside the symmetry data is an [IndexError]. *)
Definition visit_outcome (equivalent_atoms : list nat)
    (distance_precision : Z) (start_idx : nat) (nb : Pathfinder.neighbor)
  : result candidate :=
  match equivalent_atoms !! start_idx,
        equivalent_atoms !! Pathfinder.index nb with
  | Some a, Some b =>
      Ok ((start_idx, Pathfinder.index nb),
          Pathfinder.make_hop_type a b (Pathfinder.nn_distance nb)
            distance_precision)
  | _, _ => Raise IndexError
  end.

Definition is_migrating (migrating_element : string)
    (nb : Pathfinder.neighbor) : bool :=
  String.eqb (Pathfinder.neighbor_symbol nb) migrating_element.

Definition origin_outcomes
    (get_neighbors : Struct → site → Q → list Pathfinder.neighbor)
    (structure : Struct) (equivalent_atoms : list nat)
    (migrating_element : string) (max_hop_distance : Q)
    (distance_precision : Z) (start_idx : nat) : list (result candidate) :=
  match structure !! start_idx with
  | Some origin =>
      visit_outcome equivalent_atoms distance_precision start_idx <$>
        List.filter (is_migrating migrating_element)
          (get_neighbors structure origin max_hop_distance)
  | None => [Raise IndexError]
  end.

Definition migrating_indices (structure : Struct)
    (migrating_element : string) : list nat :=
  omap (λ '(i, site),
          if String.eqb (specie site) migrating_element
          then Some i else None)
       (Pathfinder.enumerate structure).

Fixpoint collect {A} (rs : list (result A)) : result (list A) :=
  match rs with
  | [] => Ok []
  | Raise e :: _ => Raise e
  | Ok a :: rest =>
      match collect rest with
      | Ok l => Ok (a :: l)
      | Raise e => Raise e
      end
  end.

(** The candidates of the traversal: origins in index order, for each one
    its neighbours of the migrating species in the order of the radius
    search. The traversal starts with the symmetry analysis and raises
    what that raises. *)
Definition candidates
    (equivalent_atoms_of : Struct → result (list nat))
    (get_neighbors : Struct → site → Q → list Pathfinder.neighbor)
    (structure : Struct) (migrating_element : string) (max_hop_distance : Q)
    (distance_precision : Z) : result (list candidate) :=
  match equivalent_atoms_of structure with
  | Raise e => Raise e
  | Ok equivalent_atoms =>
      collect
        (migrating_indices structure migrating_element ≫=
           origin_outcomes get_neighbors structure equivalent_atoms
             migrating_element max_hop_distance distance_precision)
  end.

(** The candidates whose signature no earlier candidate has. *)
Definition first_seen (cs : list candidate) : list candidate :=
  omap (λ '(i, c),
          if decide (c.2 ∈ (snd <$> take i cs)) then None else Some c)
       (imap pair cs).

(** One round of the deduplicating loop on a candidate, and on an outcome of
    the traversal. *)
Definition keep_unseen (st : Pathfinder.finder_state) (c : candidate)
  : Pathfinder.finder_state :=
  if decide (c.2 ∈ st.1) then st else ({[c.2]} ∪ st.1, st.2 ++ [c.1]).

Definition keep_unseen_outcome (acc : result Pathfinder.finder_state)
    (rc : result candidate) : result Pathfinder.finder_state :=
  match acc, rc with
  | Raise e, _ => Raise e
  | Ok _, Raise e => Raise e
  | Ok st, Ok c => Ok (keep_unseen st c)
  end.

(** Rounding to the nearest integer, a tie going away from zero. *)
Definition round_half_up (x : Q) : Z :=
  if Qle_bool 0 x then Qfloor (x + (1 # 2)) else Qceiling (x - (1 # 2)).

(** The configurations of the optimizer runs in a piece of the trace. *)
Definition attempted (evs : list event) : list optimizer_config :=
  omap (λ e, match e with
             | NebAttempt _ o m f _ => Some (OptimizerConfig o m f)
             | _ => None
             end) evs.

(** An attempt that ran to the end of the budget without converging, and
    one that converged after [n] steps. *)
Definition gives_up (ext : collaborators) (climb : bool)
    (images : list Atoms) (max_steps : Z) (params : optimizer_config)
  : Prop :=
  ∃ frames n,
    neb_optimize ext climb params images max_steps = Ran frames (Ok (false, n)).

Definition converges_in (ext : collaborators) (climb : bool)
    (images : list Atoms) (max_steps : Z) (params : optimizer_config) (n : Z)
  : Prop :=
  ∃ frames,
    neb_optimize ext climb params images max_steps = Ran frames (Ok (true, n)).

(** The record file of [directory] holds a dictionary in which [key] is
    [True]. *)
Definition flag_set (directory key : string) (s : state) : Prop :=
  ∃ m, files s !! status_path directory = Some (JsonDoc (JObj m))
       ∧ m !! key = Some (JBool true).

(** A computation is guarded when every event it logs satisfies [P], it
    leaves alone every file whose path is not in [W], and it keeps the flag
    [key] of the record of [directory] set. *)
Definition guarded {A} (P : event → Prop) (W : string → Prop)
    (directory key : string) (c : M A) : Prop :=
  ∀ s r s', c s = (r, s') →
    (∃ evs, log s' = log s ++ evs ∧ Forall P evs)
    ∧ (∀ p, ¬ W p → files s' !! p = files s !! p)
    ∧ (flag_set directory key s → flag_set directory key s').

(** The events of the stages that follow the relaxation of one endpoint:
    anything but a relaxation of the file [poscar]. *)
Definition not_relaxation_of (poscar : string) (e : event) : Prop :=
  e ≠ Called "run_vacancy_relaxation" poscar.

(** The events of the NEB stage. *)
Definition neb_stage_event (e : event) : Prop :=
  match e with
  | Print _ => True
  | Called function _ =>
      function = "run_neb_calculation" ∨ function = "calculate_prefactor"
  | NebAttempt _ _ _ _ _ => True
  end.

Definition is_print (e : event) : Prop :=
  match e with
  | Print _ => True
  | _ => False
  end.

(** Collaborators that never succeed, for the examples. *)
Definition failing_collaborators : collaborators :=
  Collaborators
    (λ _, SetupFailed (ExternalError "relaxer unavailable"))
    (λ _ _ _ max_steps, Ran [] (Ok (false, max_steps)))
    (λ _, Raise (ExternalError "no barrier"))
    (λ _, Raise (ExternalError "no fit"))
    (λ _ _ _, ([], Raise (ExternalError "no calculator")))
    (λ _ _ _, ("", Raise (ExternalError "no cache")))
    (λ _ _ _, Raise (ExternalError "no cache"))
    (λ _, "0.0000")
    (λ _, "0.0")
    (λ _ _ _, "3.00").

(** Collaborators whose optimizer converges, after 42 steps, with LBFGS and
    the method aseneb only. *)
Definition lbfgs_aseneb_only : collaborators :=
  Collaborators
    (λ _, SetupFailed (ExternalError "relaxer unavailable"))
    (λ _ params _ max_steps,
       if String.eqb (optimizer params) "LBFGS"
          && String.eqb (method params) "aseneb"
       then Ran [] (Ok (true, 42))
       else Ran [] (Ok (false, max_steps)))
    (λ _, Raise (ExternalError "no barrier"))
    (λ _, Raise (ExternalError "no fit"))
    (λ _ _ _, ([], Raise (ExternalError "no calculator")))
    (λ _ _ _, ("", Raise (ExternalError "no cache")))
    (λ _ _ _, Raise (ExternalError "no cache"))
    (λ _, "0.0000")
    (λ _, "0.0")
    (λ _ _ _, "3.00").

(** A task of the examples: two lithium sites, the hop from site 0 to
    site 1, its directory, and records in which both endpoints are relaxed
    (and, for the second, a standard stage that used up 5000 steps). *)
Definition two_lithium : Struct :=
  [Site "Li" (0, 0, 0)%Q; Site "Li" (1 # 2, 0, 0)%Q].

Definition example_dir : string := "NEB_path_001_(0_to_1)_dist_3.00A".

Definition relaxed_record : gmap string json :=
  <["final_relax_complete" := JBool true]>
    (<["initial_relax_complete" := JBool true]> DEFAULT_STATUS).

Definition stalled_record : gmap string json :=
  <["neb_steps_taken" := JInt 5000]> relaxed_record.

Definition relaxed_task : gmap string file :=
  list_to_map [
    (status_path example_dir, JsonDoc (JObj relaxed_record));
    (os_path_join example_dir "initial.traj", Trajectory [two_lithium]);
    (os_path_join example_dir "final.traj", Trajectory [two_lithium])
  ].

Definition stalled_task : gmap string file :=
  {[ status_path example_dir := JsonDoc (JObj stalled_record) ]}.

(** What [ase.io.read] makes of the content of a file. *)
Definition read_structure (f : option file) : result Atoms :=
  match f with
  | Some (Poscar s) => Ok s
  | Some (Trajectory frames) =>
      match list.last frames with
      | Some a => Ok a
      | None => Raise (ExternalError "no images in file")
      end
  | Some _ => Raise (ExternalError "unknown file type")
  | None => Raise FileNotFoundError
  end.

(** An attempt in which the set-up or the optimizer raises [e]. *)
Definition raises_in (ext : collaborators) (climb : bool)
    (images : list Atoms) (max_steps : Z) (params : optimizer_config)
    (e : exn) : Prop :=
  neb_optimize ext climb params images max_steps = SetupFailed e
  ∨ ∃ frames,
      neb_optimize ext climb params images max_steps = Ran frames (Raise e).

(** A computation keeps [I] when [I] holds after it whenever it held
    before, whether it returns or raises. *)
Definition keeps (I : state → Prop) {A} (c : M A) : Prop :=
  ∀ s r s', c s = (r, s') → I s → I s'.

(** The record file of [directory] holds a dictionary. *)
Definition record_dict (directory : string) (s : state) : Prop :=
  ∃ m, files s !! status_path directory = Some (JsonDoc (JObj m)).

(** The flags of a record that mark a finished stage. *)
Definition completion_flags : list string :=
  ["initial_relax_complete"; "final_relax_complete";
   "neb_analysis_complete"; "prefactor_complete"].

(** The updates [manage_path_calculations] makes: a completion flag is
    set to [True], a counter to an integer, a result to a float or
    [None]. *)
Definition workflow_update (key : string) (value : json) : Prop :=
  (key ∈ completion_flags ∧ value = JBool true)
  ∨ (key ∈ ["neb_steps_taken"; "neb_climb_steps_taken"]
     ∧ ∃ n, value = JInt n)
  ∨ (key ∈ ["neb_barrier_eV"; "prefactor_THz"]
     ∧ ∃ x, value = IoStep.json_of_float x).

(** Collaborators whose optimizer raises with the method aseneb and gives
    up with the other. *)
Definition aseneb_raises : collaborators :=
  Collaborators
    (λ _, SetupFailed (ExternalError "relaxer unavailable"))
    (λ _ params _ max_steps,
       if String.eqb (method params) "aseneb"
       then Ran [] (Raise (ExternalError "optimizer failed"))
       else Ran [] (Ok (false, max_steps)))
    (λ _, Raise (ExternalError "no barrier"))
    (λ _, Raise (ExternalError "no fit"))
    (λ _ _ _, ([], Raise (ExternalError "no calculator")))
    (λ _ _ _, ("", Raise (ExternalError "no cache")))
    (λ _ _ _, Raise (ExternalError "no cache"))
    (λ _, "0.0000")
    (λ _, "0.0")
    (λ _ _ _, "3.00").

(** A run of the main program for the examples: the relaxer returns what
    it is given, the supercell is the cell itself, each of the two lithium
    sites has the other site as its one neighbour, the conversion to a
    pymatgen structure succeeds, and the task stages fail as in
    [failing_collaborators]. *)
Definition example_main : list string → M MainWorkflow.ending :=
  MainWorkflow.main failing_collaborators (λ atoms, Ok (true, atoms))
    unit (λ _ _ _, Ok ()) (λ structure _, Ok structure)
    (λ _, "10.0") (λ _, "[[1 0 0] [0 1 0] [0 0 1]]") (λ _, "Li")
    (λ _, Ok [0; 0]%nat) (λ _ _ _, [Pathfinder.Neighbor 3 1 "Li"])
    (λ atoms, Ok atoms) false.

(** The same run with a supercell of two cells, where the conversion to a
    pymatgen structure succeeds on the cell and raises on the relaxed
    supercell. *)
Definition example_get_structure (atoms : Atoms) : result Struct :=
  if bool_decide (length atoms ≤ 2)%nat then Ok atoms
  else Raise (ExternalError "singular matrix").

Definition example_main_conversion_fails
  : list string → M MainWorkflow.ending :=
  MainWorkflow.main failing_collaborators (λ atoms, Ok (true, atoms))
    unit (λ _ _ _, Ok ()) (λ structure _, Ok (structure ++ structure))
    (λ _, "10.0") (λ _, "[[2 0 0] [0 1 0] [0 0 1]]") (λ _, "Li")
    (λ _, Ok [0; 0; 0; 0]%nat) (λ _ _ _, [Pathfinder.Neighbor 3 1 "Li"])
    example_get_structure false.

Definition example_input : gmap string file :=
  {[ "Li.cif" := Poscar two_lithium ]}.

(** What a fixed-cell relaxation of the structure in a file comes to: the
    frames of the trajectory, if the relaxer ran, and with them the atoms
    returned, if it reported convergence. *)
Definition vacancy_relaxation (ext : collaborators) (f : option file)
  : option (list Atoms * option Atoms) :=
  match read_structure f with
  | Raise _ => None
  | Ok structure =>
      match relaxer_relax ext structure with
      | SetupFailed _ => None
      | Ran frames (Ok (true, relaxed_atoms)) =>
          Some (frames, Some relaxed_atoms)
      | Ran frames _ => Some (frames, None)
      end
  end.

(** The files after step 2 or 3 of a task has gone through its relaxation,
    from the record [m] in the file and the defaults [d]. *)
Definition files_after_relaxation (ext : collaborators)
    (which dir : string) (m d : gmap string json) (fs : gmap string file)
  : gmap string file :=
  let traj := os_path_join dir (which +:+ ".traj") in
  let optimized := os_path_join dir ("POSCAR_optimized_" +:+ which) in
  match vacancy_relaxation ext
          (fs !! os_path_join dir ("POSCAR_" +:+ which)) with
  | Some (frames, Some (site0 :: sites)) =>
      <[status_path dir :=
          JsonDoc (JObj (<[which +:+ "_relax_complete" := JBool true]>
                           (m ∪ d)))]>
        (<[optimized := Poscar (site0 :: sites)]>
           (<[traj := Trajectory frames]> fs))
  | Some (frames, _) => <[traj := Trajectory frames]> fs
  | None => fs
  end.

(** The events of a relaxation: lines printed and the entry into
    [run_vacancy_relaxation]. *)
Definition relaxation_event (e : event) : Prop :=
  match e with
  | Print _ => True
  | Called function _ => function = "run_vacancy_relaxation"
  | NebAttempt _ _ _ _ _ => False
  end.

(** Collaborators whose relaxer converges, whatever it is given, to the
    two lithium sites of the examples, and whose other stages fail. *)
Definition relaxing_collaborators : collaborators :=
  Collaborators
    (λ _, Ran [two_lithium] (Ok (true, two_lithium)))
    (λ _ _ _ max_steps, Ran [] (Ok (false, max_steps)))
    (λ _, Raise (ExternalError "no barrier"))
    (λ _, Raise (ExternalError "no fit"))
    (λ _ _ _, ([], Raise (ExternalError "no calculator")))
    (λ _ _ _, ("", Raise (ExternalError "no cache")))
    (λ _ _ _, Raise (ExternalError "no cache"))
    (λ _, "0.0000")
    (λ _, "0.0")
    (λ _ _ _, "3.00").

(** Collaborators with which every stage of the NEB calculation
    completes: each optimizer run converges after 42 steps and writes
    five images, the fit is highest at the third, the barrier is the
    double nearest to 0.42675, and each analysis of the vibrations writes
    one cache file, a summary, and gives five frequencies. *)
Definition completing_collaborators : collaborators :=
  Collaborators
    (λ _, SetupFailed (ExternalError "relaxer unavailable"))
    (λ _ _ _ _, Ran (replicate 5 two_lithium) (Ok (true, 42)))
    (λ _, Ok (round_binary64 (42675 # 100000)))
    (λ _, Ok [0; 1 # 4; 1 # 2; 1 # 4; 0]%Q)
    (λ _ _ _, ([("eq", JsonDoc JNull)], Ok ()))
    (λ _ _ _, ("summary", Ok ()))
    (λ _ _ _, Ok [0; 0; 0; 100; 200]%Q)
    (λ _, "2.9979")
    (λ _, "0.4268")
    (λ _ _ _, "3.00").

Definition fresh_task : gmap string file :=
  {[ status_path example_dir := JsonDoc (JObj DEFAULT_STATUS) ]}.

(** ** Tactics *)

Ltac run_M :=
  unfold mbind, M_bind, mret, M_ret, lift, raise, catch, print, emit,
    write_file, read_file, os_path_exists, current_default, load_ref, dump,
    set_default_item; simpl.

(** ** The checkpoint store *)

Section StatusManagerFacts.
Implicit Types (s : state) (m : gmap string json) (directory key : string).

Lemma fill_defaults_dict (defaults m : gmap string json) :
  fill_defaults defaults (JObj m) = Ok (JObj (m ∪ defaults)).
Proof.
  unfold fill_defaults.
  apply (map_fold_weak_ind (λ r d, r = Ok (JObj (m ∪ d)))).
  - by rewrite (right_id_L ∅ (∪)).
  - intros k v d r Hk ->. unfold fill_key, py_contains. simpl.
    case_bool_decide as Hin.
    + destruct Hin as [x Hx]. do 2 f_equal.
      apply map_eq. intros i. rewrite !lookup_union.
      destruct (decide (i = k)) as [->|].
      * rewrite lookup_union in Hx.
        rewrite lookup_insert_eq, Hk in *. by destruct (m !! k).
      * by rewrite lookup_insert_ne.
    + simpl. do 2 f_equal.
      rewrite insert_union_r; [done|].
      destruct (m !! k) eqn:E; [|done].
      exfalso. apply Hin. rewrite lookup_union, E. by destruct (d !! k).
Qed.

(** Only a dictionary comes out of the key-filling loop as a dictionary. *)
Lemma fill_defaults_dict_inv (defaults : gmap string json) v rec :
  fill_defaults defaults v = Ok (JObj rec) → ∃ m, v = JObj m.
Proof.
  unfold fill_defaults. revert rec.
  apply (map_fold_weak_ind
           (λ r (_ : gmap string json),
              ∀ rec, r = Ok (JObj rec) → ∃ m, v = JObj m)).
  - intros rec [= ->]. eauto.
  - intros k x d r _ IH rec. unfold fill_key.
    destruct r as [status|]; [|done].
    destruct (py_contains status k) as [[]|]; [eauto| |done].
    destruct status; simpl; try done. eauto.
Qed.

Lemma get_status_missing directory s :
  files s !! status_path directory = None →
  get_status directory s =
    (Ok TheDefault,
     State (default_status s)
       (<[status_path directory := JsonDoc (JObj (default_status s))]>
          (files s))
       (log s)).
Proof.
  intros H. unfold get_status. fold (status_path directory). run_M.
  rewrite H. by rewrite bool_decide_false by (by intros [? ?]).
Qed.

Lemma get_status_existing directory s f :
  files s !! status_path directory = Some f →
  get_status directory s =
    match json_load f with
    | Ok (Some v) =>
        (match fill_defaults (default_status s) v with
         | Ok status => Ok (Fresh status)
         | Raise e => Raise e
         end, s)
    | Ok None =>
        (Ok TheDefault,
         State (default_status s)
           (<[status_path directory := JsonDoc (JObj (default_status s))]>
              (files s))
           (log s ++ [Print (corrupt_warning directory)]))
    | Raise e => (Raise e, s)
    end.
Proof.
  intros H. unfold get_status. fold (status_path directory). run_M.
  rewrite H. rewrite bool_decide_true by eauto. simpl. rewrite H.
  destruct (json_load f) as [[v|]|e]; try done.
  by destruct (fill_defaults _ _).
Qed.

Lemma get_status_unparsable directory s f :
  files s !! status_path directory = Some f → json_load f = Ok None →
  get_status directory s =
    (Ok TheDefault,
     State (default_status s)
       (<[status_path directory := JsonDoc (JObj (default_status s))]>
          (files s))
       (log s ++ [Print (corrupt_warning directory)])).
Proof. intros H Hf. by rewrite (get_status_existing _ _ _ H), Hf. Qed.

Lemma get_status_parsed directory s v :
  files s !! status_path directory = Some (JsonDoc v) →
  get_status directory s =
    (match fill_defaults (default_status s) v with
     | Ok status => Ok (Fresh status)
     | Raise e => Raise e
     end, s).
Proof. intros H. by rewrite (get_status_existing _ _ _ H). Qed.

Lemma get_status_dict directory s m :
  files s !! status_path directory = Some (JsonDoc (JObj m)) →
  get_status directory s = (Ok (Fresh (JObj (m ∪ default_status s))), s).
Proof.
  intros H. rewrite (get_status_parsed _ _ _ H).
  by rewrite fill_defaults_dict.
Qed.

Lemma update_status_dict directory key value s m :
  files s !! status_path directory = Some (JsonDoc (JObj m)) →
  update_status directory key value s =
    (Ok (),
     State (default_status s)
       (<[status_path directory :=
            JsonDoc (JObj (<[key := value]> (m ∪ default_status s)))]>
          (files s))
       (log s)).
Proof.
  intros H. unfold update_status. unfold mbind at 1, M_bind at 1.
  rewrite (get_status_dict _ _ _ H). unfold assign.
  fold (status_path directory). by run_M.
Qed.

(** After a read that returned a dictionary, the record file holds a
    dictionary that reads back as the same record. *)
Lemma get_status_leaves_record directory s r s1 rec :
  get_status directory s = (Ok r, s1) → deref r s1 = JObj rec →
  ∃ m, files s1 !! status_path directory = Some (JsonDoc (JObj m))
       ∧ m ∪ default_status s1 = rec.
Proof.
  intros Hget Hrec.
  destruct (files s !! status_path directory) as [f|] eqn:Hf.
  - rewrite (get_status_existing _ _ _ Hf) in Hget.
    destruct f as [v|text|poscar|frames]; simpl in Hget; [| | |done].
    + destruct (fill_defaults _ v) as [status|] eqn:Hfill; [|done].
      injection Hget as <- <-. simpl in Hrec. subst status.
      destruct (fill_defaults_dict_inv _ _ _ Hfill) as [m ->].
      rewrite fill_defaults_dict in Hfill. injection Hfill as <-.
      eauto.
    + injection Hget as <- <-. simpl in *. injection Hrec as <-.
      eexists. rewrite lookup_insert_eq. split; [done|].
      apply (idemp_L (∪)).
    + injection Hget as <- <-. simpl in *. injection Hrec as <-.
      eexists. rewrite lookup_insert_eq. split; [done|].
      apply (idemp_L (∪)).
  - rewrite (get_status_missing _ _ Hf) in Hget.
    injection Hget as <- <-. simpl in *. injection Hrec as <-.
    eexists. rewrite lookup_insert_eq. split; [done|].
    apply (idemp_L (∪)).
Qed.
End StatusManagerFacts.

Section StatusManagerClaims.
Implicit Types (s : state) (m : gmap string json) (directory key : string).

(** While [DEFAULT_STATUS] is as the module defines it, a read on a
    directory without a record file returns the default record and
    stores it. *)
Lemma get_status_missing_untouched directory s :
  default_status s = DEFAULT_STATUS →
  files s !! status_path directory = None →
  ∃ s', get_status directory s = (Ok TheDefault, s')
        ∧ deref TheDefault s' = JObj DEFAULT_STATUS
        ∧ files s' !! status_path directory
          = Some (JsonDoc (JObj DEFAULT_STATUS)).
Proof.
  intros Hd Hf. rewrite (get_status_missing _ _ Hf). eexists.
  split; [done|]. simpl. rewrite Hd, lookup_insert_eq. done.
Qed.

(** C5 (fails on the code): in a process that has just loaded the module,
    with no files, [update_status] on one directory followed by
    [get_status] on another directory without a record file neither
    returns nor stores the default record: [get_status] had returned the
    module-level dictionary itself to [update_status], which assigned
    into it, and the later read dumps and returns that same dictionary,
    with [neb_steps_taken = 7]. *)
Theorem get_status_after_foreign_update :
  let s0 := fresh_process ∅ in
  let s1 :=
    (update_status "NEB_path_001" "neb_steps_taken" (JInt 7) s0).2 in
  let polluted := <["neb_steps_taken" := JInt 7]> DEFAULT_STATUS in
  files s1 !! status_path "NEB_path_002" = None
  ∧ ∃ s2, get_status "NEB_path_002" s1 = (Ok TheDefault, s2)
          ∧ deref TheDefault s2 = JObj polluted
          ∧ deref TheDefault s2 ≠ JObj DEFAULT_STATUS
          ∧ files s2 !! status_path "NEB_path_002"
            = Some (JsonDoc (JObj polluted)).
Proof.
  intros s0 s1 polluted.
  assert (Hs1 : s1 = State polluted
                  {[ status_path "NEB_path_001" := JsonDoc (JObj polluted) ]}
                  []) by (vm_compute; reflexivity).
  assert (Hf : files s1 !! status_path "NEB_path_002" = None)
    by (rewrite Hs1; vm_compute; reflexivity).
  split; [exact Hf|].
  rewrite (get_status_missing _ _ Hf). eexists. split; [reflexivity|].
  simpl. rewrite lookup_insert_eq. rewrite Hs1. simpl.
  repeat split; try reflexivity.
  discriminate.
Qed.

(** C6 (fails on the code), on two inputs. A record file that is not
    text, such as a binary trajectory, fails to parse with
    [UnicodeDecodeError], which [get_status] does not handle: the
    exception reaches the caller, no warning is printed and the file
    stays as it is. And a record file that [json.load] rejects is
    repaired with the module-level dictionary itself: after
    [update_status] on a directory without a record file has assigned
    into that dictionary, the repair of another directory prints the
    warning but returns and stores a record with [neb_steps_taken = 7],
    not the default record. *)
Theorem get_status_corrupt_not_repaired :
  let binary :=
    fresh_process
      {[ status_path "NEB_path_001" := Trajectory [two_lithium] ]} in
  let s0 :=
    fresh_process {[ status_path "NEB_path_002" := Unparsable "{" ]} in
  let s1 :=
    (update_status "NEB_path_001" "neb_steps_taken" (JInt 7) s0).2 in
  let polluted := <["neb_steps_taken" := JInt 7]> DEFAULT_STATUS in
  get_status "NEB_path_001" binary = (Raise UnicodeDecodeError, binary)
  ∧ files s1 !! status_path "NEB_path_002" = Some (Unparsable "{")
  ∧ ∃ s2, get_status "NEB_path_002" s1 = (Ok TheDefault, s2)
          ∧ log s2 = log s1 ++ [Print (corrupt_warning "NEB_path_002")]
          ∧ deref TheDefault s2 = JObj polluted
          ∧ deref TheDefault s2 ≠ JObj DEFAULT_STATUS
          ∧ files s2 !! status_path "NEB_path_002"
            = Some (JsonDoc (JObj polluted)).
Proof.
  intros binary s0 s1 polluted.
  split; [vm_compute; reflexivity|].
  assert (Hf : files s1 !! status_path "NEB_path_002"
               = Some (Unparsable "{")) by (vm_compute; reflexivity).
  assert (Hd : default_status s1 = polluted) by (vm_compute; reflexivity).
  split; [exact Hf|].
  rewrite (get_status_unparsable _ _ _ Hf eq_refl).
  eexists. split; [reflexivity|]. simpl. rewrite lookup_insert_eq, Hd.
  repeat split. discriminate.
Qed.



(** C7: after a read that returned a record, [update_status] with a key
    and a value succeeds, and the next read returns the earlier record
    with the value stored under the key: the key holds the value and every
    other key holds what it held. The object returned by the earlier read
    is not changed. *)
Theorem update_status_then_get_status directory key value s r0 s1 rec0 :
  get_status directory s = (Ok r0, s1) → deref r0 s1 = JObj rec0 →
  ∃ s2 rec1,
    update_status directory key value s1 = (Ok (), s2)
    ∧ get_status directory s2 = (Ok (Fresh (JObj rec1)), s2)
    ∧ rec1 = <[key := value]> rec0
    ∧ rec1 !! key = Some value
    ∧ (∀ k, k ≠ key → rec1 !! k = rec0 !! k)
    ∧ deref r0 s2 = JObj rec0.
Proof.
  intros Hget Hrec.
  destruct (get_status_leaves_record _ _ _ _ _ Hget Hrec) as (m & Hm & <-).
  rewrite (update_status_dict _ _ _ _ _ Hm).
  eexists _, _. split; [reflexivity|].
  erewrite get_status_dict by (simpl; apply lookup_insert_eq). simpl.
  assert (Hidem : <[key:=value]> (m ∪ default_status s1) ∪ default_status s1
                  = <[key:=value]> (m ∪ default_status s1)).
  { rewrite <- insert_union_l, <- (assoc_L (∪)).
    by rewrite (idemp_L (∪)). }
  rewrite Hidem. repeat split.
  - apply lookup_insert_eq.
  - intros k Hk. by rewrite lookup_insert_ne.
  - by destruct r0.
Qed.

Lemma update_status_then_get_status_witness :
  let s := fresh_process ∅ in
  let s1 := (get_status "NEB_path_001" s).2 in
  ∃ s2 rec1,
    update_status "NEB_path_001" "neb_steps_taken" (JInt 12) s1 = (Ok (), s2)
    ∧ get_status "NEB_path_001" s2 = (Ok (Fresh (JObj rec1)), s2)
    ∧ rec1 = <["neb_steps_taken" := JInt 12]> DEFAULT_STATUS
    ∧ rec1 !! "neb_steps_taken" = Some (JInt 12)
    ∧ (∀ k, k ≠ "neb_steps_taken" → rec1 !! k = DEFAULT_STATUS !! k)
    ∧ deref TheDefault s2 = JObj DEFAULT_STATUS.
Proof.
  intros s s1.
  apply (update_status_then_get_status "NEB_path_001" "neb_steps_taken"
           (JInt 12) s TheDefault s1 DEFAULT_STATUS); reflexivity.
Defined.

(** C10: a read on a directory whose record file parses changes nothing
    in the state, so writes no file, whether it returns or raises. When
    the file holds a dictionary, the record returned is that dictionary
    with the keys it lacks taken from the defaults; the file gets them
    with the next [update_status]. *)
Theorem get_status_parsed_writes_nothing directory s v :
  files s !! status_path directory = Some (JsonDoc v) →
  ∃ r,
    get_status directory s = (r, s)
    ∧ ∀ m, v = JObj m →
        r = Ok (Fresh (JObj (m ∪ default_status s)))
        ∧ (∀ k, (m ∪ default_status s) !! k
                = match m !! k with
                  | Some x => Some x
                  | None => default_status s !! k
                  end)
        ∧ ∀ key value,
            files (update_status directory key value s).2
              !! status_path directory
            = Some (JsonDoc
                      (JObj (<[key := value]> (m ∪ default_status s)))).
Proof.
  intros Hf. rewrite (get_status_parsed _ _ _ Hf). eexists.
  split; [reflexivity|]. intros m ->. rewrite fill_defaults_dict.
  repeat split.
  - intros k. rewrite lookup_union. by destruct (m !! k), (_ !! k).
  - intros key value. rewrite (update_status_dict _ _ _ _ _ Hf). simpl.
    apply lookup_insert_eq.
Qed.

Lemma get_status_parsed_writes_nothing_witness :
  let old : gmap string json := {[ "initial_relax_complete" := JBool true ]} in
  let s := fresh_process {[ status_path "NEB_path_001" := JsonDoc (JObj old) ]} in
  ∃ r,
    get_status "NEB_path_001" s = (r, s)
    ∧ ∀ m, JObj old = JObj m →
        r = Ok (Fresh (JObj (m ∪ default_status s)))
        ∧ (∀ k, (m ∪ default_status s) !! k
                = match m !! k with
                  | Some x => Some x
                  | None => default_status s !! k
                  end)
        ∧ ∀ key value,
            files (update_status "NEB_path_001" key value s).2
              !! status_path "NEB_path_001"
            = Some (JsonDoc
                      (JObj (<[key := value]> (m ∪ default_status s)))).
Proof.
  intros old s.
  apply (get_status_parsed_writes_nothing "NEB_path_001" s (JObj old)).
  reflexivity.
Defined.

(** Two kinds of record file that [get_status] neither accepts nor
    repairs: a JSON document that is not an object, and a file that is not
    text. The exception reaches the caller and the file stays as it is. *)
Example get_status_not_an_object :
  let s := fresh_process {[ status_path "NEB_path_001" := JsonDoc (JArr []) ]} in
  get_status "NEB_path_001" s = (Raise TypeError, s).
Proof. vm_compute. reflexivity. Qed.

Example get_status_not_text :
  let s := fresh_process {[ status_path "NEB_path_001" := Trajectory [] ]} in
  get_status "NEB_path_001" s = (Raise UnicodeDecodeError, s).
Proof. vm_compute. reflexivity. Qed.
End StatusManagerClaims.

(** ** The hop deduplicator *)

Section PathfinderFacts.
Import Pathfinder.
Local Open Scope nat_scope.
Implicit Types (cs : list candidate) (c : candidate).

Variable equivalent_atoms_of : Struct → result (list nat).
Variable get_neighbors : Struct → site → Q → list neighbor.

Lemma foldl_keep_unseen_outcome_raise e (rs : list (result candidate)) :
  foldl keep_unseen_outcome (Raise e) rs = Raise e.
Proof. by induction rs. Qed.

Lemma visit_neighbor_outcome ea elem prec start acc nb :
  visit_neighbor ea elem prec start acc nb =
    if is_migrating elem nb
    then keep_unseen_outcome acc (visit_outcome ea prec start nb)
    else acc.
Proof.
  unfold visit_neighbor, is_migrating, visit_outcome, keep_unseen_outcome,
    keep_unseen.
  destruct acc as [[seen out]|e]; simpl.
  - destruct (String.eqb _ _); [|done].
    destruct (ea !! start); [|done].
    destruct (ea !! index nb); [|done]. simpl. by case_decide.
  - by destruct (String.eqb _ _).
Qed.

Lemma foldl_visit_neighbor ea elem prec start nbs acc :
  foldl (visit_neighbor ea elem prec start) acc nbs =
    foldl keep_unseen_outcome acc
      (visit_outcome ea prec start <$> List.filter (is_migrating elem) nbs).
Proof.
  revert acc. induction nbs as [|nb nbs IH]; intros acc; [done|].
  simpl. rewrite IH, visit_neighbor_outcome.
  by destruct (is_migrating elem nb).
Qed.

Lemma visit_start_outcomes structure ea elem r prec acc start :
  visit_start get_neighbors structure ea elem r prec acc start =
    foldl keep_unseen_outcome acc
      (origin_outcomes get_neighbors structure ea elem r prec start).
Proof.
  unfold visit_start, origin_outcomes. destruct acc as [st|e].
  - destruct (structure !! start); [|done]. apply foldl_visit_neighbor.
  - by rewrite foldl_keep_unseen_outcome_raise.
Qed.

Lemma foldl_visit_start structure ea elem r prec idxs acc :
  foldl (visit_start get_neighbors structure ea elem r prec) acc idxs =
    foldl keep_unseen_outcome acc
      (idxs ≫= origin_outcomes get_neighbors structure ea elem r prec).
Proof.
  revert acc. induction idxs as [|i idxs IH]; intros acc; [done|].
  simpl. by rewrite IH, foldl_app, visit_start_outcomes.
Qed.

Lemma foldl_keep_unseen_collect (rs : list (result candidate)) st :
  foldl keep_unseen_outcome (Ok st) rs =
    match collect rs with
    | Ok cs => Ok (foldl keep_unseen st cs)
    | Raise e => Raise e
    end.
Proof.
  revert st. induction rs as [|[c|e] rs IH]; intros st; simpl; [done| |].
  - rewrite IH. by destruct (collect rs).
  - apply foldl_keep_unseen_outcome_raise.
Qed.

Lemma first_seen_snoc cs c :
  first_seen (cs ++ [c]) =
    first_seen cs ++ (if decide (c.2 ∈ (snd <$> cs)) then [] else [c]).
Proof.
  unfold first_seen. rewrite imap_app, omap_app. f_equal.
  - apply list_omap_ext, Forall2_same_length_lookup_2; [done|].
    intros i [j x] [j' x'] H1 H2. rewrite H1 in H2. injection H2 as <- <-.
    apply list_lookup_imap_Some in H1 as (y & Hy & [= -> ->]).
    apply lookup_lt_Some in Hy.
    rewrite take_app_le by lia. done.
  - simpl. rewrite Nat.add_0_r, take_app_length. by case_decide.
Qed.

Lemma foldl_keep_unseen_first_seen cs :
  foldl keep_unseen (∅, []) cs
    = (list_to_set (snd <$> cs), fst <$> first_seen cs).
Proof.
  induction cs as [|c cs IH] using rev_ind; [done|].
  rewrite foldl_snoc, IH, first_seen_snoc. unfold keep_unseen; simpl.
  rewrite fmap_app, list_to_set_app_L, fmap_app. simpl.
  destruct (decide (c.2 ∈ (snd <$> cs))) as [Hin|Hin].
  - assert (c.2 ∈ (list_to_set (snd <$> cs) : gset hop_type))
      by (by apply elem_of_list_to_set).
    rewrite decide_True by done.
    rewrite !app_nil_r. f_equal. set_solver.
  - rewrite decide_False by (by rewrite elem_of_list_to_set).
    f_equal. set_solver.
Qed.

Lemma first_seen_subseteq cs c : c ∈ first_seen cs → c ∈ cs.
Proof.
  unfold first_seen. rewrite list_elem_of_omap.
  intros ([i x] & Hx & Hc).
  apply elem_of_lookup_imap_1 in Hx as (i' & y & Hiy & Hy).
  injection Hiy as Hi Hxy. subst i' y.
  case_decide; [done|]. injection Hc as <-.
  by eapply list_elem_of_lookup_2.
Qed.

Lemma first_seen_NoDup cs : NoDup (snd <$> first_seen cs).
Proof.
  induction cs as [|c cs IH] using rev_ind; [constructor|].
  rewrite first_seen_snoc, fmap_app. case_decide as Hin; simpl.
  - by rewrite app_nil_r.
  - apply list.NoDup_app. split; [done|]. split; [|apply NoDup_singleton].
    intros g Hg ->%list_elem_of_singleton. apply Hin.
    apply list_elem_of_fmap in Hg as (c' & -> & Hc').
    apply list_elem_of_fmap. eauto using first_seen_subseteq.
Qed.

Lemma first_seen_covers cs c :
  c ∈ cs → ∃ c', c' ∈ first_seen cs ∧ c'.2 = c.2.
Proof.
  revert c.
  induction cs as [|x cs IH] using rev_ind; intros c;
    [by intros ?%elem_of_nil|].
  rewrite first_seen_snoc. intros [Hc| ->%list_elem_of_singleton]%elem_of_app.
  - destruct (IH _ Hc) as (c' & ? & ?). exists c'. split; [|done].
    apply elem_of_app. by left.
  - case_decide as Hin.
    + apply list_elem_of_fmap in Hin as (y & Hy & Hin).
      destruct (IH _ Hin) as (c' & ? & ?). exists c'.
      split; [apply elem_of_app; by left | congruence].
    + exists x. split; [|done]. apply elem_of_app. right.
      by apply list_elem_of_singleton.
Qed.

Lemma elem_of_first_seen cs c :
  c ∈ first_seen cs ↔
    ∃ i, cs !! i = Some c
         ∧ ∀ j c', j < i → cs !! j = Some c' → c'.2 ≠ c.2.
Proof.
  unfold first_seen. rewrite list_elem_of_omap. split.
  - intros ([i x] & Hx & Hc).
    apply elem_of_lookup_imap_1 in Hx as (i' & y & Hiy & Hy).
    injection Hiy as Hi Hxy. subst i' y.
    case_decide as Hin; [done|]. injection Hc as <-.
    exists i. split; [done|]. intros j c' Hj Hc' Heq. apply Hin.
    apply list_elem_of_fmap. exists c'. split; [done|].
    apply list_elem_of_lookup. exists j. by rewrite lookup_take_lt.
  - intros (i & Hi & Hfirst). exists (i, c). split.
    + by apply (elem_of_lookup_imap_2 pair).
    + rewrite decide_False; [done|].
      intros (c' & Heq & Hc')%list_elem_of_fmap.
      apply list_elem_of_lookup in Hc' as (j & Hj).
      apply lookup_take_Some in Hj as [Hj Hlt]. by eapply Hfirst.
Qed.
End PathfinderFacts.

Section PathfinderClaims.
Import Pathfinder.
Local Open Scope nat_scope.
Implicit Types (cs : list candidate) (c : candidate).

Variable equivalent_atoms_of : Struct → result (list nat).
Variable get_neighbors : Struct → site → Q → list neighbor.

Lemma collect_all_ok {A} (rs : list (result A)) :
  Forall (λ r, ∃ a, r = Ok a) rs → ∃ l, collect rs = Ok l.
Proof.
  induction 1 as [|r rs [a ->] _ [l IH]]; simpl; [eauto|].
  rewrite IH. eauto.
Qed.

(** The traversal raises nothing when the symmetry data cover every site
    and every neighbour is a site of the structure. *)
Lemma candidates_in_range structure elem r prec equivalent_atoms :
  equivalent_atoms_of structure = Ok equivalent_atoms →
  length structure ≤ length equivalent_atoms →
  (∀ origin nb, nb ∈ get_neighbors structure origin r →
                index nb < length structure) →
  ∃ cs, candidates equivalent_atoms_of get_neighbors structure elem r prec
        = Ok cs.
Proof.
  intros Hea Hlen Hnb. unfold candidates. rewrite Hea.
  apply collect_all_ok.
  apply Forall_forall. intros rc Hrc%list_elem_of_In.
  apply list_elem_of_bind in Hrc as (i & Hrc & Hi).
  unfold migrating_indices in Hi.
  apply list_elem_of_omap in Hi as ([j x] & Hjx & Hsome).
  apply elem_of_lookup_imap_1 in Hjx as (j' & y & Heq & Hy).
  injection Heq as Hj Hxy. subst j' y.
  destruct (String.eqb _ _); [|done]. injection Hsome as ->.
  unfold origin_outcomes in Hrc. rewrite Hy in Hrc.
  apply list_elem_of_fmap in Hrc as (nb & -> & Hin).
  apply list_elem_of_In, filter_In in Hin as [Hin%list_elem_of_In _].
  unfold visit_outcome.
  destruct (lookup_lt_is_Some_2 equivalent_atoms i)
    as [a ->]; [apply lookup_lt_Some in Hy; lia|].
  destruct (lookup_lt_is_Some_2 equivalent_atoms (index nb))
    as [b ->]; [specialize (Hnb _ _ Hin); lia|].
  eauto.
Qed.

(** C2: the hops returned are those of the candidates, in the order of the
    traversal, whose signature no earlier candidate has (and the function
    raises exactly when the traversal does). Among the retained
    candidates no signature occurs twice; a candidate is retained exactly
    when it stands at a position before which its signature does not
    occur; and every signature of a candidate is the signature of a
    retained one. *)
Theorem find_unique_hops_keeps_first_seen structure elem r prec :
  (find_unique_hops equivalent_atoms_of get_neighbors structure elem r
     prec).2
  = match candidates equivalent_atoms_of get_neighbors structure elem r
            prec with
    | Ok cs => Ok (fst <$> first_seen cs)
    | Raise e => Raise e
    end
  ∧ ∀ cs,
      NoDup (snd <$> first_seen cs)
      ∧ (∀ c, c ∈ first_seen cs ↔
              ∃ i, cs !! i = Some c
                   ∧ ∀ j c', j < i → cs !! j = Some c' → c'.2 ≠ c.2)
      ∧ (∀ c, c ∈ cs → ∃ c', c' ∈ first_seen cs ∧ c'.2 = c.2).
Proof.
  split.
  - unfold find_unique_hops, candidates.
    destruct (equivalent_atoms_of structure) as [ea|e]; [|done].
    fold (migrating_indices structure elem).
    destruct (migrating_indices structure elem) as [|i idxs] eqn:Hidx;
      [done|].
    cbv zeta. unfold snd at 1.
    rewrite foldl_visit_start, foldl_keep_unseen_collect.
    destruct (collect _) as [cs|e]; [|done].
    by rewrite foldl_keep_unseen_first_seen.
  - intros cs. split; [apply first_seen_NoDup|].
    split; [apply elem_of_first_seen | apply first_seen_covers].
Qed.
End PathfinderClaims.

Section PathfinderExamples.
Import Pathfinder.

(** Three lithium sites of one symmetry class; from every origin the
    radius search returns site 1 at 3.00, site 2 at 3.0049 and an oxygen
    neighbour. At precision 2 a single hop is kept. *)
Example find_unique_hops_two_close_distances :
  let li := Site "Li" (0, 0, 0)%Q in
  find_unique_hops (λ _, Ok [0; 0; 0]%nat)
    (λ _ _ _, [Neighbor 3 1 "Li"; Neighbor (30049 # 10000) 2 "Li";
               Neighbor 2 0 "O"])
    [li; li; li] "Li" 7 2
  = ([], Ok [(0, 1)%nat]).
Proof. vm_compute. reflexivity. Qed.

Example find_unique_hops_no_migrating_element :
  find_unique_hops (λ _, Ok [0]%nat) (λ _ _ _, [])
    [Site "O" (0, 0, 0)%Q] "Li" 7 2
  = (["Error: No atoms of 'Li' found in the supercell."], Ok []).
Proof. vm_compute. reflexivity. Qed.
End PathfinderExamples.

(** ** Rounding of the distance in a signature *)

Section RoundingFacts.
Import Pathfinder.
Local Open Scope Z_scope.

(** [round_half_even x] is an integer nearest to [x], and the even one
    when [x] is midway between two integers. *)
Lemma round_half_even_nearest (x : Q) :
  let k := round_half_even x in
  (inject_Z k - (1 # 2) <= x)%Q ∧ (x <= inject_Z k + (1 # 2))%Q
  ∧ ((x == inject_Z k - (1 # 2))%Q ∨ (x == inject_Z k + (1 # 2))%Q →
     Z.even k = true).
Proof.
  destruct x as [n d]. unfold round_half_even. simpl.
  pose proof (Z.div_mod n (Z.pos d) ltac:(lia)) as Hdm.
  pose proof (Z.mod_pos_bound n (Z.pos d) ltac:(lia)) as Hb.
  set (f := n / Z.pos d) in *. set (r := n mod Z.pos d) in *.
  unfold Qle, Qeq, Qminus, Qplus, Qopp, inject_Z. simpl.
  destruct (Z.compare_spec (2 * r) (Z.pos d)) as [He|Hl|Hg].
  - destruct (Z.even f) eqn:Hev.
    + split; [nia|]. split; [nia|]. done.
    + split; [nia|]. split; [nia|]. intros _.
      by rewrite Z.even_add, Hev.
  - split; [nia|]. split; [nia|]. intros [H|H]; nia.
  - split; [nia|]. split; [nia|]. intros [H|H]; nia.
Qed.

(** An integer is its own rounding. *)
Lemma round_half_even_inject_Z (x : Q) (k : Z) :
  (x == inject_Z k)%Q → round_half_even x = k.
Proof.
  destruct x as [n d]. unfold Qeq, round_half_even. simpl.
  rewrite Z.mul_1_r. intros ->.
  rewrite Z.div_mul, Z.mod_mul by lia. simpl. done.
Qed.

Lemma two_pow_pos (e : Z) : (0 < 2 ^ e)%Q.
Proof. by apply Qpower_0_lt. Qed.

Lemma two_pow_Z (a : Z) : 0 ≤ a → (inject_Z (2 ^ a) == 2 ^ a)%Q.
Proof. intros Ha. by rewrite Zpower_Qpower. Qed.

(** [binade x] is the exponent of the binade of [x]. *)
Lemma binade_spec (x : Q) :
  ¬ (x == 0)%Q →
  (2 ^ binade x <= Qabs x)%Q ∧ (Qabs x < 2 ^ (binade x + 1))%Q.
Proof.
  intros Hx. unfold binade.
  set (n := Z.abs (Qnum x)). set (d := Z.pos (Qden x)).
  assert (Hn : 0 < n).
  { unfold n. destruct x as [[|p|p] q]; simpl; try lia.
    destruct Hx. reflexivity. }
  assert (Hd : 0 < d) by (unfold d; lia).
  destruct (Z.log2_spec n Hn) as [Hn1 Hn2].
  destruct (Z.log2_spec d Hd) as [Hd1 Hd2].
  pose proof (Z.log2_nonneg n) as Ha. pose proof (Z.log2_nonneg d) as Hb.
  set (a := Z.log2 n) in *. set (b := Z.log2 d) in *.
  assert (Habs : (Qabs x == inject_Z n / inject_Z d)%Q).
  { destruct x as [xn xd]. unfold n, d. simpl.
    unfold Qabs, Qdiv, Qmult, Qinv, Qeq, inject_Z. simpl. lia. }
  assert (Hdq : (0 < inject_Z d)%Q).
  { unfold Qlt, inject_Z. simpl. lia. }
  assert (Hlow : ∀ c k, 0 ≤ k → c = a - k →
                 2 ^ a * d ≤ n * 2 ^ k → (2 ^ c <= Qabs x)%Q).
  { intros c k Hk -> Hle. rewrite Habs, Qpower_minus by done.
    apply Qle_shift_div_l; [done|].
    unfold Qdiv. rewrite <- Qmult_assoc, (Qmult_comm (/ _)), Qmult_assoc.
    apply Qle_shift_div_r; [apply two_pow_pos|].
    rewrite <- !two_pow_Z by done. rewrite <- !inject_Z_mult.
    by rewrite <- Zle_Qle. }
  assert (Hhigh : ∀ c k, 0 ≤ k → c = a + 1 - k →
                  n * 2 ^ k < 2 ^ (a + 1) * d → (Qabs x < 2 ^ c)%Q).
  { intros c k Hk -> Hlt. rewrite Habs, Qpower_minus by done.
    apply Qlt_shift_div_r; [done|].
    unfold Qdiv. rewrite <- Qmult_assoc, (Qmult_comm (/ _)), Qmult_assoc.
    apply Qlt_shift_div_l; [apply two_pow_pos|].
    rewrite <- !two_pow_Z by lia. rewrite <- !inject_Z_mult.
    by rewrite <- Zlt_Qlt. }
  assert (H2b : 2 ^ (b + 1) = 2 * 2 ^ b) by (rewrite Z.pow_add_r; lia).
  assert (H2a : 2 ^ (a + 1) = 2 * 2 ^ a) by (rewrite Z.pow_add_r; lia).
  assert (Hpa : 0 < 2 ^ a) by (apply Z.pow_pos_nonneg; lia).
  assert (Hpb : 0 < 2 ^ b) by (apply Z.pow_pos_nonneg; lia).
  destruct (Qle_bool (2 ^ (a - b)) (Qabs x)) eqn:Hle.
  - split; [by apply Qle_bool_iff|].
    apply (Hhigh _ b); [lia|lia|nia].
  - split.
    + apply (Hlow _ (b + 1)); [lia|lia|nia].
    + replace (a - b - 1 + 1) with (a - b) by lia.
      apply Qnot_le_lt. intros H%Qle_bool_iff. congruence.
Qed.

Lemma Qeq_bool_false (x y : Q) : ¬ (x == y)%Q → Qeq_bool x y = false.
Proof.
  intros Hx. destruct (Qeq_bool x y) eqn:H; [|done].
  by apply Qeq_bool_eq in H.
Qed.

(** [round_binary64 x] is a multiple of the spacing [2 ^ e] of the doubles
    around [x], with a significand of at most 53 bits, and lies within
    half of that spacing from [x]; where [x] is midway between two such
    multiples, the significand is even. *)
Lemma round_binary64_nearest (x : Q) :
  ¬ (x == 0)%Q →
  let e := Z.max (binade x - 52) (-1074) in
  ∃ m : Z,
    round_binary64 x = (inject_Z m * 2 ^ e)%Q
    ∧ Z.abs m ≤ 2 ^ 53
    ∧ (Qabs (x - round_binary64 x) <= 2 ^ e / 2)%Q
    ∧ ((Qabs (x - round_binary64 x) == 2 ^ e / 2)%Q → Z.even m = true).
Proof.
  intros Hx e. unfold round_binary64. rewrite (Qeq_bool_false _ _ Hx).
  fold e. set (y := (x / 2 ^ e)%Q). set (m := round_half_even y).
  exists m. split; [done|].
  pose proof (two_pow_pos e) as HP.
  assert (HP0 : ¬ (2 ^ e == 0)%Q) by (intros H; rewrite H in HP; done).
  pose proof (round_half_even_nearest y) as (Hlo & Hhi & Htie).
  change (round_half_even y) with m in Hlo, Hhi, Htie.
  assert (Hxy : (x - inject_Z m * 2 ^ e == (y - inject_Z m) * 2 ^ e)%Q).
  { unfold y. field. done. }
  assert (Habs : (Qabs (x - inject_Z m * 2 ^ e)
                  == Qabs (y - inject_Z m) * 2 ^ e)%Q).
  { rewrite Hxy, Qabs_Qmult. by rewrite (Qabs_pos (2 ^ e)) by lra. }
  split; [|split].
  - destruct (binade_spec x Hx) as [_ Hbin].
    assert (Hy : (Qabs y < 2 ^ 53)%Q).
    { unfold y, Qdiv. rewrite Qabs_Qmult, Qabs_Qinv.
      rewrite (Qabs_pos (2 ^ e)) by lra.
      apply Qlt_shift_div_r; [done|].
      rewrite <- Qpower_plus by done.
      eapply Qlt_le_trans; [exact Hbin|].
      apply Qpower_le_compat_l; [lia|done]. }
    apply Qabs_Qlt_condition in Hy as [Hy1 Hy2].
    rewrite <- (two_pow_Z 53) in Hy1, Hy2 by lia.
    assert (H1 : (inject_Z m < inject_Z (2 ^ 53 + 1))%Q)
      by (rewrite inject_Z_plus; change (inject_Z 1) with 1%Q; lra).
    assert (H2 : (inject_Z (- 2 ^ 53 - 1) < inject_Z m)%Q).
    { unfold Z.sub. rewrite inject_Z_plus, !inject_Z_opp.
      change (inject_Z 1) with 1%Q. lra. }
    rewrite <- Zlt_Qlt in H1, H2. lia.
  - rewrite Habs. unfold Qdiv. rewrite (Qmult_comm (2 ^ e)).
    apply Qmult_le_compat_r; [|by apply Qlt_le_weak].
    change (/ 2)%Q with (1 # 2)%Q.
    apply Qabs_Qle_condition. split; lra.
  - rewrite Habs. intros Heq. apply Htie.
    assert (Hhalf : (Qabs (y - inject_Z m) == 1 # 2)%Q).
    { apply (Qmult_inj_r _ _ (2 ^ e)); [done|]. rewrite Heq. field. }
    revert Hhalf. apply Qabs_case; intros _ Hhalf; [right|left]; lra.
Qed.

(** A double is its own rounding. *)
Lemma round_binary64_double (m e : Z) :
  Z.abs m < 2 ^ 53 → -1074 ≤ e →
  (round_binary64 (inject_Z m * 2 ^ e) == inject_Z m * 2 ^ e)%Q.
Proof.
  intros Hm He. set (x := (inject_Z m * 2 ^ e)%Q).
  pose proof (two_pow_pos e) as HP.
  destruct (decide (m = 0)) as [->|Hm0].
  { unfold round_binary64.
    assert (Hx : (x == 0)%Q) by (unfold x; ring).
    apply Qeq_bool_iff in Hx. by rewrite Hx. }
  assert (Hx : ¬ (x == 0)%Q).
  { unfold x. intros H. apply Qmult_integral in H as [H|H].
    - apply (inject_Z_injective m 0) in H. done.
    - rewrite H in HP. done. }
  destruct (binade_spec x Hx) as [Hbin _].
  assert (Hlt : (Qabs x < 2 ^ (e + 53))%Q).
  { unfold x. rewrite Qabs_Qmult, (Qabs_pos (2 ^ e)) by lra.
    rewrite Qpower_plus, (Qmult_comm (2 ^ e)) by done.
    apply Qmult_lt_compat_r; [done|].
    rewrite <- (two_pow_Z 53) by lia.
    apply Qabs_Qlt_condition. rewrite <- inject_Z_opp, <- !Zlt_Qlt. lia. }
  assert (Hb : binade x < e + 53).
  { apply (Qpower_lt_compat_l_inv 2); [|done].
    eapply Qle_lt_trans; [exact Hbin|exact Hlt]. }
  unfold round_binary64. rewrite (Qeq_bool_false _ _ Hx).
  set (e' := Z.max (binade x - 52) (-1074)).
  assert (He' : e' ≤ e) by lia.
  assert (Hy : (x / 2 ^ e' == inject_Z (m * 2 ^ (e - e')))%Q).
  { rewrite inject_Z_mult, two_pow_Z by lia. unfold x.
    rewrite Qpower_minus by done. field.
    intros H. pose proof (two_pow_pos e') as HP'. rewrite H in HP'. done. }
  rewrite (round_half_even_inject_Z _ _ Hy).
  rewrite inject_Z_mult, two_pow_Z by lia. unfold x.
  rewrite <- Qmult_assoc, <- Qpower_plus by done.
  by replace (e - e' + e') with e by lia.
Qed.
End RoundingFacts.

Section RoundingClaims.
Import Pathfinder.
Local Open Scope Z_scope.

(** C4 as stated fails: at precision 2 the distance 0.125, which is
    midway between 0.12 and 0.13, is rounded to the double 0.12, towards
    zero; and the distances 0.125 and 0.1171875, whose half-up roundings
    are 0.13 and 0.12, get one and the same signature. Both distances are
    doubles, and so are their products with 100. *)
Lemma half_up_rounding_counterexample :
  let midway := (1 # 8)%Q in
  let other := (15 # 128)%Q in
  (np_round midway 2 == round_binary64 (12 # 100))%Q
  ∧ round_half_up (scaled midway 2) = 13
  ∧ round_half_up (scaled other 2) = 12
  ∧ make_hop_type 0 1 midway 2 = make_hop_type 0 1 other 2.
Proof.
  by repeat split.
Qed.

(** C4, amended: the distance in a signature is numpy's rounding of the
    double: the floating-point product of the distance and
    [10 ^ distance_precision] is taken to the nearest integer, the even
    one when the product is midway between two, and that integer is
    divided by [10 ^ distance_precision] in floating point. Two distances
    between the same classes get the same signature exactly when these
    roundings are equal, and they are whenever the integers are. *)
Theorem hop_type_rounds_scaled_product (a b : nat) (d1 d2 : Q)
    (precision : Z) :
  0 ≤ precision →
  let product d := float_mul d (power_of_ten precision) in
  let k d := round_half_even (product d) in
  (make_hop_type a b d1 precision = make_hop_type a b d2 precision
   ↔ (np_round d1 precision == np_round d2 precision)%Q)
  ∧ (k d1 = k d2 →
     make_hop_type a b d1 precision = make_hop_type a b d2 precision)
  ∧ np_round d1 precision
    = float_div (inject_Z (k d1)) (power_of_ten precision)
  ∧ (inject_Z (k d1) - (1 # 2) <= product d1)%Q
  ∧ (product d1 <= inject_Z (k d1) + (1 # 2))%Q
  ∧ ((product d1 == inject_Z (k d1) - (1 # 2))%Q
     ∨ (product d1 == inject_Z (k d1) + (1 # 2))%Q →
     Z.even (k d1) = true).
Proof.
  intros Hprecision product k. subst product k.
  apply Z.leb_le in Hprecision.
  unfold make_hop_type, np_round, rint. rewrite Hprecision.
  split; [|split; [|split; [reflexivity|]]].
  - split.
    + intros H. apply Q2Qc_eq_iff. congruence.
    + intros H. f_equal. by apply Q2Qc_eq_iff.
  - by intros ->.
  - apply round_half_even_nearest.
Qed.

Lemma hop_type_rounds_scaled_product_witness :
  let d := round_binary64 (2675 # 1000) in
  make_hop_type 0 1 d 2 = make_hop_type 0 1 (268 # 100) 2
  ∧ (np_round d 2 == round_binary64 (268 # 100))%Q.
Proof.
  destruct (hop_type_rounds_scaled_product 0 1
              (round_binary64 (2675 # 1000)) (268 # 100) 2 ltac:(lia))
    as (_ & Hk & Heq & _).
  split.
  - apply Hk. vm_compute. reflexivity.
  - rewrite Heq. vm_compute. reflexivity.
Defined.

(** The double nearest to 2.675 lies below 2.675, and its product with
    100 is the double 267.5: numpy rounds it to 2.68, where the built-in
    [round] of a Python float, which rounds the exact value, gives
    2.67. *)
Example np_round_double_2_675 :
  let x := round_binary64 (2675 # 1000) in
  (x == 3011782250804019 # 1125899906842624)%Q
  ∧ (x < 2675 # 1000)%Q
  ∧ (float_mul x 100 == 535 # 2)%Q
  ∧ (np_round x 2 == round_binary64 (268 # 100))%Q
  ∧ (py_round x 2 == round_binary64 (267 # 100))%Q
  ∧ (round_binary64 (267 # 100) < round_binary64 (268 # 100))%Q.
Proof. by vm_compute. Qed.

Example np_round_midway_even :
  (np_round (1 # 8) 2 == round_binary64 (12 # 100))%Q
  ∧ (np_round (3 # 8) 2 == round_binary64 (38 # 100))%Q
  ∧ (np_round (5 # 2) 0 == 2)%Q
  ∧ (np_round 1250 (-2) == 1200)%Q.
Proof. by vm_compute. Qed.

Example py_round_midway_even :
  (py_round (1 # 8) 2 == round_binary64 (12 # 100))%Q
  ∧ (py_round (3 # 8) 2 == round_binary64 (38 # 100))%Q
  ∧ (py_round (5 # 2) 0 == 2)%Q ∧ (py_round (30049 # 10000) 2 == 3)%Q.
Proof. by vm_compute. Qed.

(** [power_of_ten n] is [10 ^ n] up to [n = 22]; [10 ^ 23] is no double,
    and from there on the repeated product is rounded. *)
Example power_of_ten_exact :
  forallb (λ n, Qeq_bool (power_of_ten (Z.of_nat n)) (10 ^ Z.of_nat n))
    (seq 0 23) = true
  ∧ (power_of_ten 23 == round_binary64 (10 ^ 23))%Q
  ∧ (round_binary64 (10 ^ 23) < 10 ^ 23)%Q
  ∧ (power_of_ten 25 == 10 ^ 25 - 1241513984)%Q.
Proof. by vm_compute. Qed.
End RoundingClaims.

(** ** Construction of the final endpoint *)

Section EndpointClaims.
Import IoStep.
Local Open Scope nat_scope.

Lemma remove_site_lookup_migrating (pristine : Struct) mig vac :
  mig ≠ vac →
  remove_site vac pristine !! (if vac <? mig then mig - 1 else mig)
  = pristine !! mig.
Proof.
  intros Hne. unfold remove_site. destruct (Nat.ltb_spec vac mig).
  - rewrite list_lookup_delete_ge by lia. f_equal. lia.
  - apply list_lookup_delete_lt. lia.
Qed.

(** C9: for two distinct valid indices the final structure is built
    without an exception. The index of the migrating atom among the
    remaining sites is its index minus one exactly when it exceeds the
    vacancy index, and the site found there is the migrating atom of the
    pristine structure. The final structure has one site fewer than the
    pristine one, holds the migrating atom with the fractional coordinates
    of the vacancy site at that index, and agrees with the initial
    structure at every other index. *)
Theorem final_endpoint_relocates_migrating_atom (pristine : Struct)
    (mig vac : nat) :
  mig < length pristine → vac < length pristine → mig ≠ vac →
  let new_idx := if vac <? mig then mig - 1 else mig in
  ∃ final mig_site vac_site,
    final_endpoint pristine mig vac = Ok final
    ∧ pristine !! mig = Some mig_site
    ∧ pristine !! vac = Some vac_site
    ∧ initial_endpoint pristine vac !! new_idx = Some mig_site
    ∧ length final + 1 = length pristine
    ∧ length (initial_endpoint pristine vac) = length final
    ∧ final !! new_idx
      = Some (Site (specie mig_site) (frac_coords vac_site))
    ∧ ∀ k, k ≠ new_idx → final !! k = initial_endpoint pristine vac !! k.
Proof.
  intros Hmig Hvac Hne new_idx.
  destruct (lookup_lt_is_Some_2 pristine mig Hmig) as [mig_site Hm].
  destruct (lookup_lt_is_Some_2 pristine vac Hvac) as [vac_site Hv].
  assert (Hnew : remove_site vac pristine !! new_idx = Some mig_site)
    by (unfold new_idx; by rewrite remove_site_lookup_migrating).
  assert (Hlen : length (remove_site vac pristine) + 1 = length pristine).
  { unfold remove_site. rewrite length_delete by eauto. lia. }
  exists (<[new_idx := Site (specie mig_site) (frac_coords vac_site)]>
            (remove_site vac pristine)), mig_site, vac_site.
  unfold final_endpoint, initial_endpoint, set_frac_coords.
  fold new_idx. rewrite Hv, Hnew, length_insert.
  repeat split; try done.
  - apply list_lookup_insert_eq. by eapply lookup_lt_Some.
  - intros k Hk. by apply list_lookup_insert_ne.
Qed.

Lemma final_endpoint_relocates_migrating_atom_witness :
  let a := Site "Li" (0, 0, 0)%Q in
  let b := Site "O" (1 # 2, 0, 0)%Q in
  let c := Site "Li" (0, 1 # 2, 0)%Q in
  ∃ final mig_site vac_site,
    final_endpoint [a; b; c] 2 0 = Ok final
    ∧ [a; b; c] !! 2 = Some mig_site
    ∧ [a; b; c] !! 0 = Some vac_site
    ∧ initial_endpoint [a; b; c] 0 !! 1 = Some mig_site
    ∧ length final + 1 = 3
    ∧ length (initial_endpoint [a; b; c] 0) = length final
    ∧ final !! 1 = Some (Site (specie mig_site) (frac_coords vac_site))
    ∧ ∀ k, k ≠ 1 → final !! k = initial_endpoint [a; b; c] 0 !! k.
Proof.
  intros a b c.
  apply (final_endpoint_relocates_migrating_atom [a; b; c] 2 0);
    simpl; lia.
Defined.

Example final_endpoint_example :
  let a := Site "Li" (0, 0, 0)%Q in
  let b := Site "O" (1 # 2, 0, 0)%Q in
  let c := Site "Li" (0, 1 # 2, 0)%Q in
  final_endpoint [a; b; c] 2 0 = Ok [b; Site "Li" (0, 0, 0)%Q]
  ∧ final_endpoint [a; b; c] 0 2 = Ok [Site "Li" (0, 1 # 2, 0)%Q; b].
Proof. done. Qed.
End EndpointClaims.

(** ** The retry loop over optimizer configurations *)

Section RetryFacts.
Import NebStep.
Local Open Scope Z_scope.

Variable ext : collaborators.
Variables (climb : bool) (images : list Atoms) (traj_path : string)
          (max_steps : Z).

Lemma attempted_app evs1 evs2 :
  attempted (evs1 ++ evs2) = attempted evs1 ++ attempted evs2.
Proof. apply omap_app. Qed.

(** One round of the loop on a configuration that does not converge. *)
Lemma attempts_cons_gives_up params rest i s :
  gives_up ext climb images max_steps params →
  ∃ s1 evs,
    attempts ext climb images traj_path max_steps i (params :: rest) s
    = attempts ext climb images traj_path max_steps (S i) rest s1
    ∧ log s1 = log s ++ evs ∧ attempted evs = [params].
Proof.
  intros (frames & n & Hrun). simpl. unfold run_attempt. rewrite Hrun.
  run_M. eexists _, _. split; [reflexivity|]. simpl.
  rewrite <- !(assoc_L (++)). split; [reflexivity|]. by destruct params.
Qed.

(** One round of the loop on a configuration that converges. *)
Lemma attempts_cons_converges params rest n i s :
  converges_in ext climb images max_steps params n →
  ∃ s1 evs,
    attempts ext climb images traj_path max_steps i (params :: rest) s
    = (Ok (Some n), s1)
    ∧ log s1 = log s ++ evs ∧ attempted evs = [params].
Proof.
  intros (frames & Hrun). simpl. unfold run_attempt. rewrite Hrun.
  run_M. eexists _, _. split; [reflexivity|]. simpl.
  rewrite <- !(assoc_L (++)). split; [reflexivity|]. by destruct params.
Qed.

Lemma attempts_exhausted to_try : ∀ i s,
  Forall (gives_up ext climb images max_steps) to_try →
  ∃ s1 evs,
    attempts ext climb images traj_path max_steps i to_try s
    = (Ok None, s1)
    ∧ log s1 = log s ++ evs ∧ attempted evs = to_try.
Proof.
  induction to_try as [|params rest IH]; intros i s Hall.
  - exists s, []. by rewrite app_nil_r.
  - apply list.Forall_cons in Hall as [Hp Hrest].
    destruct (attempts_cons_gives_up params rest i s Hp)
      as (s1 & evs1 & -> & Hlog1 & Hatt1).
    destruct (IH (S i) s1 Hrest) as (s2 & evs2 & -> & Hlog2 & Hatt2).
    exists s2, (evs1 ++ evs2). split; [done|].
    rewrite Hlog2, Hlog1, attempted_app, Hatt1, Hatt2.
    by rewrite (assoc_L (++)).
Qed.

Lemma attempts_first_convergence pre : ∀ params post n i s,
  Forall (gives_up ext climb images max_steps) pre →
  converges_in ext climb images max_steps params n →
  ∃ s1 evs,
    attempts ext climb images traj_path max_steps i
      (pre ++ params :: post) s
    = (Ok (Some n), s1)
    ∧ log s1 = log s ++ evs ∧ attempted evs = pre ++ [params].
Proof.
  induction pre as [|p pre IH]; intros params post n i s Hall Hconv.
  - by apply attempts_cons_converges.
  - apply list.Forall_cons in Hall as [Hp Hrest]. simpl app.
    destruct (attempts_cons_gives_up p (pre ++ params :: post) i s Hp)
      as (s1 & evs1 & -> & Hlog1 & Hatt1).
    destruct (IH params post n (S i) s1 Hrest Hconv)
      as (s2 & evs2 & -> & Hlog2 & Hatt2).
    exists s2, (evs1 ++ evs2). split; [done|].
    rewrite Hlog2, Hlog1, attempted_app, Hatt1, Hatt2.
    by rewrite (assoc_L (++)).
Qed.

(** A configuration cannot both converge and give up. *)
Lemma gives_up_not_converges params n :
  gives_up ext climb images max_steps params →
  converges_in ext climb images max_steps params n → False.
Proof. intros (? & ? & H1) (? & H2). congruence. Qed.
End RetryFacts.

Section RetryClaims.
Import NebStep.
Local Open Scope Z_scope.

(** C3: with a positive budget, a stage over any list of configurations
    returns at the first one that converges, with the flag [true] and the
    step count of that attempt, having run the optimizer on the
    configurations up to that one in their order; when every
    configuration runs out of the budget without converging it returns
    the flag [false] and the budget as the step count, having run the
    optimizer on all of them in their order. *)
Theorem run_with_fallback_first_convergence (ext : collaborators)
    (climb : bool) (images : list Atoms) (traj_path : string)
    (max_steps : Z) (to_try : list optimizer_config) (s : state) :
  0 < max_steps →
  (∀ pre params post n,
     to_try = pre ++ params :: post →
     Forall (gives_up ext climb images max_steps) pre →
     converges_in ext climb images max_steps params n →
     ∃ s' evs,
       run_with_fallback ext climb images traj_path max_steps to_try s
       = (Ok (true, n), s')
       ∧ log s' = log s ++ evs
       ∧ attempted evs = pre ++ [params])
  ∧ (Forall (gives_up ext climb images max_steps) to_try →
     ∃ s' evs,
       run_with_fallback ext climb images traj_path max_steps to_try s
       = (Ok (false, max_steps), s')
       ∧ log s' = log s ++ evs
       ∧ attempted evs = to_try
       ∧ Print (not_converged_warning climb max_steps) ∈ evs).
Proof.
  intros _. split.
  - intros pre params post n -> Hpre Hconv.
    destruct (attempts_first_convergence ext climb images traj_path
                max_steps pre params post n 0%nat s Hpre Hconv)
      as (s1 & evs & Hrun & Hlog & Hatt).
    exists s1, evs. unfold run_with_fallback.
    unfold mbind at 1, M_bind at 1. by rewrite Hrun.
  - intros Hall.
    destruct (attempts_exhausted ext climb images traj_path max_steps
                to_try 0%nat s Hall) as (s1 & evs & Hrun & Hlog & Hatt).
    eexists _, (evs ++ [Print (not_converged_warning climb max_steps)]).
    unfold run_with_fallback. unfold mbind at 1, M_bind at 1.
    rewrite Hrun. run_M. split; [reflexivity|]. simpl.
    rewrite Hlog, (assoc_L (++)). split; [done|].
    rewrite attempted_app, Hatt. simpl. rewrite app_nil_r.
    split; [done|]. apply elem_of_app. right. by apply list_elem_of_singleton.
Qed.

Lemma run_with_fallback_first_convergence_witness :
  ∃ s' evs,
    run_with_fallback lbfgs_aseneb_only false [] "neb.traj" 5000
      optimizers_to_try (fresh_process ∅)
    = (Ok (true, 42), s')
    ∧ log s' = evs
    ∧ attempted evs = optimizers_to_try.
Proof.
  destruct (run_with_fallback_first_convergence lbfgs_aseneb_only false []
              "neb.traj" 5000 optimizers_to_try (fresh_process ∅)
              ltac:(lia)) as [Hfirst _].
  apply (Hfirst (take 3 optimizers_to_try)
           (OptimizerConfig "LBFGS" "aseneb" (1 # 100)) [] 42).
  - reflexivity.
  - repeat constructor; eexists _, _; reflexivity.
  - eexists. reflexivity.
Defined.

(** No configuration converges: the step count reported is the budget. *)
Example run_with_fallback_exhausted :
  ∃ s',
    run_with_fallback failing_collaborators true [] "neb_climb.traj" 5000
      climb_optimizers_to_try (fresh_process ∅)
    = (Ok (false, 5000), s')
    ∧ attempted (log s') = climb_optimizers_to_try
    ∧ list.last (log s')
      = Some (Print "  > WARNING: Climbing Image NEB did not converge within 5000 steps.").
Proof. eexists. vm_compute. done. Qed.
End RetryClaims.

(** ** The workflow of one path *)

Section PathFacts.
Lemma append_inj_r (p a b : string) : p +:+ a = p +:+ b → a = b.
Proof. induction p as [|c p IH]; simpl; [done|]. intros [= H]. auto. Qed.

Lemma os_path_join_inj (d a b : string) :
  String.prefix "/" a = false → String.prefix "/" b = false →
  os_path_join d a = os_path_join d b → a = b.
Proof.
  unfold os_path_join. intros -> ->. apply append_inj_r.
Qed.

Lemma prefix_app (a b : string) : String.prefix a (a +:+ b) = true.
Proof.
  induction a as [|c a IH]; [by destruct b|].
  change (String.prefix (String c a) (String c a +:+ b))
    with (if ascii_dec c c then String.prefix a (a +:+ b) else false).
  by destruct (ascii_dec c c).
Qed.

Lemma prefix_slash_app (a b : string) :
  a ≠ "" → String.prefix "/" (a +:+ b) = String.prefix "/" a.
Proof.
  destruct a as [|c a]; [done|]. intros _.
  change (String.prefix "/" (String c a +:+ b))
    with (if ascii_dec "/" c then String.prefix "" (a +:+ b) else false).
  change (String.prefix "/" (String c a))
    with (if ascii_dec "/" c then String.prefix "" a else false).
  destruct (ascii_dec "/" c); [|done].
  destruct (a +:+ b); by destruct a.
Qed.

Lemma string_length_app (a b : string) :
  String.length (a +:+ b) = (String.length a + String.length b)%nat.
Proof. induction a as [|c a IH]; simpl; [done|]. by rewrite IH. Qed.

Lemma string_app_assoc (a b c : string) : (a +:+ b) +:+ c = a +:+ b +:+ c.
Proof.
  induction a as [|x a IH]; [done|].
  change (String x ((a +:+ b) +:+ c) = String x (a +:+ b +:+ c)).
  by rewrite IH.
Qed.

Lemma ends_with_slash_app (a b : string) :
  b ≠ "" → ends_with_slash (a +:+ b) = ends_with_slash b.
Proof.
  intros Hb. unfold ends_with_slash. rewrite string_length_app.
  assert (Hlen : (0 < String.length b)%nat) by (destruct b; [done|simpl; lia]).
  replace (String.length a + String.length b - 1)%nat
    with (String.length b - 1 + String.length a)%nat by lia.
  by rewrite <- String.append_correct2.
Qed.

(** A cache file of a directory inside the directory of a task, as a
    path of the task. *)
Lemma cache_path_join (directory sub label : string) :
  sub ≠ "" → String.prefix "/" sub = false → ends_with_slash sub = false →
  PrefactorStep.cache_path (os_path_join directory sub) label
  = os_path_join directory (sub +:+ "/cache." +:+ label +:+ ".json").
Proof.
  intros Hsub Hrel Hslash. unfold PrefactorStep.cache_path, os_path_join.
  rewrite prefix_slash_app, Hrel by done.
  unfold join_prefix at 1.
  rewrite ends_with_slash_app, Hslash by done.
  assert (Hne : String.eqb (join_prefix directory +:+ sub) "" = false).
  { apply String.eqb_neq. destruct sub; [done|].
    by destruct (join_prefix directory). }
  rewrite Hne. by rewrite !string_app_assoc.
Qed.
End PathFacts.

Section Guarded.
Variables (P : event → Prop) (W : string → Prop) (directory key : string).
Hypothesis P_print : ∀ line, P (Print line).
Hypothesis W_status : W (status_path directory).

Local Abbreviation G := (guarded P W directory key).

Lemma flag_set_files s s' :
  files s' !! status_path directory = files s !! status_path directory →
  flag_set directory key s → flag_set directory key s'.
Proof. unfold flag_set. by intros ->. Qed.

Lemma guarded_unchanged {A} (c : M A) : (∀ s, ∃ r, c s = (r, s)) → G c.
Proof.
  intros Hc s r s' Hrun. destruct (Hc s) as [r' Hr]. rewrite Hr in Hrun.
  injection Hrun as _ <-. split; [|done]. exists []. by rewrite app_nil_r.
Qed.

Lemma guarded_ret {A} (a : A) : G (mret a).
Proof. apply guarded_unchanged. intros s. by eexists. Qed.

Lemma guarded_raise {A} e : G (raise e : M A).
Proof. apply guarded_unchanged. intros s. by eexists. Qed.

Lemma guarded_lift {A} (r : result A) : G (lift r).
Proof. apply guarded_unchanged. intros s. by eexists. Qed.

Lemma guarded_read_file path : G (read_file path).
Proof.
  apply guarded_unchanged. intros s. unfold read_file.
  destruct (files s !! path); by eexists.
Qed.

Lemma guarded_os_path_exists path : G (os_path_exists path).
Proof. apply guarded_unchanged. intros s. by eexists. Qed.

Lemma guarded_load_ref r : G (load_ref r).
Proof. apply guarded_unchanged. intros s. by eexists. Qed.

Lemma guarded_bind {A B} (c : M A) (f : A → M B) :
  G c → (∀ a, G (f a)) → G (c ≫= f).
Proof.
  intros Hc Hf s r s' Hrun. unfold mbind, M_bind in Hrun.
  destruct (c s) as [[a|e] s1] eqn:Hcs.
  - destruct (Hc _ _ _ Hcs) as ((evs1 & Hl1 & HP1) & Hw1 & Hk1).
    destruct (Hf a _ _ _ Hrun) as ((evs2 & Hl2 & HP2) & Hw2 & Hk2).
    split; [|split].
    + exists (evs1 ++ evs2). rewrite Hl2, Hl1, (assoc_L (++)).
      split; [done|]. by apply Forall_app.
    + intros p Hp. by rewrite Hw2, Hw1.
    + auto.
  - injection Hrun as <- <-. by apply (Hc _ _ _ Hcs).
Qed.

Lemma guarded_catch {A} (c : M A) : G c → G (catch c).
Proof.
  intros Hc s r s' Hrun. unfold catch in Hrun.
  destruct (c s) as [r1 s1] eqn:Hcs. injection Hrun as <- <-.
  by apply (Hc _ _ _ Hcs).
Qed.

Lemma guarded_emit e : P e → G (emit e).
Proof.
  intros He s r s' [= <- <-]. simpl. split; [|split; [done|]].
  - exists [e]. split; [done|]. by constructor.
  - by apply flag_set_files.
Qed.

Lemma guarded_print line : G (print line).
Proof. by apply guarded_emit. Qed.

Lemma guarded_write_file path f :
  W path → path ≠ status_path directory → G (write_file path f).
Proof.
  intros Hw Hne s r s' [= <- <-]. simpl. split; [|split].
  - exists []. by rewrite app_nil_r.
  - intros p Hp. apply lookup_insert_ne. by intros ->.
  - apply flag_set_files. simpl. by apply lookup_insert_ne.
Qed.

Lemma guarded_get_status : G (get_status directory).
Proof.
  intros s r s' Hrun.
  destruct (files s !! status_path directory) as [f|] eqn:Hf.
  - rewrite (get_status_existing _ _ _ Hf) in Hrun.
    destruct (json_load f) as [[v|]|e] eqn:Hload.
    + injection Hrun as _ <-. split; [|done].
      exists []. by rewrite app_nil_r.
    + injection Hrun as <- <-. simpl. split; [|split].
      * eexists. split; [done|]. by constructor.
      * intros p Hpw. apply lookup_insert_ne. intros Heq. apply Hpw.
        by rewrite <- Heq.
      * intros (m & Hm & _). rewrite Hf in Hm. injection Hm as ->. done.
    + injection Hrun as _ <-. split; [|done].
      exists []. by rewrite app_nil_r.
  - rewrite (get_status_missing _ _ Hf) in Hrun.
    injection Hrun as <- <-. simpl. split; [|split].
    + exists []. by rewrite app_nil_r.
    + intros p Hpw. apply lookup_insert_ne. intros Heq. apply Hpw. by rewrite <- Heq.
    + intros (m & Hm & _). by rewrite Hf in Hm.
Qed.

Lemma update_status_effect k v s r s' :
  update_status directory k v s = (r, s') →
  (∃ evs, log s' = log s ++ evs ∧ Forall P evs)
  ∧ (∀ p, ¬ W p → files s' !! p = files s !! p).
Proof.
  assert (Hother : ∀ p f (fs : gmap string file),
            ¬ W p → <[status_path directory := f]> fs !! p = fs !! p).
  { intros p f fs Hp. apply lookup_insert_ne. intros Heq. apply Hp.
    by rewrite <- Heq. }
  unfold update_status. unfold mbind at 1, M_bind at 1.
  destruct (files s !! status_path directory) as [f|] eqn:Hf.
  - rewrite (get_status_existing _ _ _ Hf).
    destruct (json_load f) as [[loaded|]|e'] eqn:Hload.
    + destruct (fill_defaults _ loaded) as [status|e].
      * unfold assign. fold (status_path directory). run_M.
        destruct (py_setitem status k v); intros [= <- <-]; simpl.
        -- split; [exists []; by rewrite app_nil_r | auto].
        -- split; [exists []; by rewrite app_nil_r | auto].
      * intros [= <- <-]. split; [exists []; by rewrite app_nil_r | auto].
    + unfold assign. fold (status_path directory). run_M.
      intros [= <- <-]. simpl. split.
      * eexists. split; [done|]. by constructor.
      * intros p Hpw. by rewrite !Hother.
    + intros [= <- <-]. split; [exists []; by rewrite app_nil_r | auto].
  - rewrite (get_status_missing _ _ Hf).
    unfold assign. fold (status_path directory). run_M.
    intros [= <- <-]. simpl. split.
    + exists []. by rewrite app_nil_r.
    + intros p Hpw. by rewrite !Hother.
Qed.

Lemma guarded_update_status k v :
  k ≠ key ∨ v = JBool true → G (update_status directory k v).
Proof.
  intros Hkv s r s' Hrun.
  destruct (update_status_effect _ _ _ _ _ Hrun) as [Hlog Hfiles].
  split; [done|]. split; [done|].
  intros (m & Hm & Hflag). rewrite (update_status_dict _ _ _ _ _ Hm) in Hrun.
  injection Hrun as <- <-. eexists. simpl. rewrite lookup_insert_eq.
  split; [done|]. destruct (decide (k = key)) as [->|Hne].
  - destruct Hkv as [?| ->]; [done|]. apply lookup_insert_eq.
  - rewrite lookup_insert_ne by done. by apply lookup_union_Some_l.
Qed.
End Guarded.


Ltac guarded_step :=
  lazymatch goal with
  | |- guarded _ _ _ _ (mbind _ _) => apply guarded_bind; [|intros ?]
  | |- guarded _ _ _ _ (mret _) => apply guarded_ret
  | |- guarded _ _ _ _ (raise _) => apply guarded_raise
  | |- guarded _ _ _ _ (lift _) => apply guarded_lift
  | |- guarded _ _ _ _ (catch _) => apply guarded_catch
  | |- guarded _ _ _ _ (print _) => apply guarded_print
  | |- guarded _ _ _ _ (read_file _) => apply guarded_read_file
  | |- guarded _ _ _ _ (os_path_exists _) => apply guarded_os_path_exists
  | |- guarded _ _ _ _ (load_ref _) => apply guarded_load_ref
  | |- guarded _ _ _ _ (match ?x with _ => _ end) => destruct x
  end.

Ltac guarded_auto := repeat (guarded_step; try done).

Section GuardedWorkflow.
Variable ext : collaborators.
Variables (P : event → Prop) (W : string → Prop) (directory key : string).
Variable protected : string.
Hypothesis P_print : ∀ line, P (Print line).
Hypothesis P_neb : ∀ e, neb_stage_event e → P e.
Hypothesis W_names : ∀ name,
  name ≠ protected → String.prefix "/" name = false →
  W (os_path_join directory name).
Hypothesis protected_optimized :
  String.prefix "POSCAR_optimized_" protected = true.

Local Abbreviation G := (guarded P W directory key).

Lemma status_path_writable : W (status_path directory).
Proof.
  apply W_names; [|done]. intros H. by rewrite <- H in protected_optimized.
Qed.

Lemma guarded_write_other name f :
  String.prefix "POSCAR_optimized_" name = false →
  name ≠ STATUS_FILENAME →
  String.prefix "/" name = false →
  G (write_file (os_path_join directory name) f).
Proof.
  intros Hp Hs Hrel. apply guarded_write_file.
  - apply W_names; [|done]. intros ->. congruence.
  - intros Heq. apply os_path_join_inj in Heq; done.
Qed.

Lemma guarded_ase_read path : G (ase_read path).
Proof. unfold ase_read. guarded_auto. Qed.

Lemma guarded_ase_read_last path n : G (ase_read_last path n).
Proof. unfold ase_read_last. guarded_auto. Qed.

Lemma guarded_write_name name f :
  name ≠ protected → name ≠ STATUS_FILENAME →
  String.prefix "/" name = false →
  G (write_file (os_path_join directory name) f).
Proof.
  intros Hp Hs Hrel. apply guarded_write_file; [by apply W_names|].
  intros Heq. apply os_path_join_inj in Heq; done.
Qed.

Lemma guarded_relax structure name :
  name ≠ protected → name ≠ STATUS_FILENAME →
  String.prefix "/" name = false →
  G (RelaxerStep.relax ext structure (os_path_join directory name)).
Proof.
  intros. unfold RelaxerStep.relax. guarded_auto.
  by apply guarded_write_name.
Qed.

Lemma guarded_run_vacancy_relaxation filename name :
  P (Called "run_vacancy_relaxation" filename) →
  name ≠ protected → name ≠ STATUS_FILENAME →
  String.prefix "/" name = false →
  G (RelaxerStep.run_vacancy_relaxation ext filename
       (os_path_join directory name)).
Proof.
  intros. unfold RelaxerStep.run_vacancy_relaxation. guarded_auto.
  - by apply guarded_emit.
  - apply guarded_ase_read.
  - by apply guarded_relax.
Qed.

Import NebStep.

Lemma guarded_run_attempt climb params images name max_steps :
  String.prefix "POSCAR_optimized_" name = false →
  name ≠ STATUS_FILENAME →
  String.prefix "/" name = false →
  G (run_attempt ext climb params images (os_path_join directory name)
       max_steps).
Proof.
  intros. unfold run_attempt. guarded_auto.
  - by apply guarded_emit, P_neb.
  - by apply guarded_write_other.
Qed.

Lemma guarded_attempts climb images name max_steps to_try : ∀ i,
  String.prefix "POSCAR_optimized_" name = false →
  name ≠ STATUS_FILENAME →
  String.prefix "/" name = false →
  G (attempts ext climb images (os_path_join directory name) max_steps i
       to_try).
Proof.
  induction to_try as [|params rest IH]; intros i ? ? ?; simpl.
  - guarded_auto.
  - guarded_auto; [by apply guarded_run_attempt | by apply IH].
Qed.

Lemma guarded_run_with_fallback climb images name max_steps to_try :
  String.prefix "POSCAR_optimized_" name = false →
  name ≠ STATUS_FILENAME →
  String.prefix "/" name = false →
  G (run_with_fallback ext climb images (os_path_join directory name)
       max_steps to_try).
Proof.
  intros. unfold run_with_fallback. guarded_auto.
  by apply guarded_attempts.
Qed.

Lemma guarded_write_cache sub written :
  sub = "vib_initial" ∨ sub = "vib_saddle" →
  G (PrefactorStep.write_cache (os_path_join directory sub) written).
Proof.
  intros Hsub. induction written as [|[label f] written IH]; simpl.
  - apply guarded_ret.
  - apply guarded_bind; [|by intros _].
    destruct Hsub as [->| ->]; rewrite cache_path_join by done;
      by apply guarded_write_other.
Qed.

Lemma guarded_get_frequencies_as_reals atoms_path sub summary :
  sub = "vib_initial" ∨ sub = "vib_saddle" →
  summary = "initial_vib.dat" ∨ summary = "saddle_vib.dat" →
  G (PrefactorStep.get_frequencies_as_reals Q (vibrations_run ext)
       (vibrations_summary ext) (vibrations_frequencies ext) atoms_path
       (os_path_join directory sub) (os_path_join directory summary)).
Proof.
  intros Hsub Hsummary. unfold PrefactorStep.get_frequencies_as_reals.
  repeat first
    [ apply guarded_ase_read
    | by apply guarded_write_cache
    | by (destruct Hsummary as [->| ->]; apply guarded_write_other)
    | apply guarded_unchanged; intros ?; by eexists
    | guarded_step; try done ].
Qed.

Lemma guarded_calculate_prefactor initial_state_path saddle_state_path :
  G (calculate_prefactor ext initial_state_path saddle_state_path
       directory).
Proof.
  unfold calculate_prefactor, PrefactorStep.calculate_prefactor.
  repeat first
    [ apply guarded_emit, P_neb; simpl; by right
    | apply guarded_get_frequencies_as_reals; by eauto
    | guarded_step; try done ].
Qed.

Lemma guarded_try_stages initial_path final_path
    optimized_initial_path num_images max_steps :
  G (try_stages ext initial_path final_path optimized_initial_path
       directory num_images max_steps).
Proof.
  unfold try_stages, standard_stage, climbing_stage, read_barrier,
    write_saddle.
  guarded_auto;
    try apply guarded_ase_read; try apply guarded_ase_read_last;
    try (by apply guarded_run_with_fallback);
    try (by apply guarded_write_other);
    apply guarded_calculate_prefactor.
Qed.

Lemma guarded_run_neb_calculation initial_path final_path
    optimized_initial_path num_images max_steps :
  G (run_neb_calculation ext initial_path final_path optimized_initial_path
       directory num_images max_steps).
Proof.
  unfold run_neb_calculation. guarded_auto.
  - apply guarded_emit, P_neb. simpl. by left.
  - apply guarded_try_stages.
Qed.

Import IoStep.

Lemma guarded_status_item status k : G (status_item status k).
Proof. unfold status_item. guarded_auto. Qed.

Lemma guarded_reread_item k : G (reread_item directory k).
Proof.
  unfold reread_item. guarded_auto.
  - apply guarded_get_status; [done | apply status_path_writable].
  - apply guarded_status_item.
Qed.

Lemma guarded_create_endpoints pristine mig vac :
  G (create_endpoints pristine mig vac directory).
Proof.
  unfold create_endpoints. guarded_auto; by apply guarded_write_other.
Qed.

Lemma guarded_relax_endpoint which status :
  which = "initial" ∨ which = "final" →
  P (Called "run_vacancy_relaxation"
       (os_path_join directory ("POSCAR_" +:+ which))) →
  "POSCAR_optimized_" +:+ which ≠ protected →
  G (relax_endpoint ext which status directory).
Proof.
  intros Hwhich HP Hprot. unfold relax_endpoint.
  assert (Hupd : G (update_status directory (which +:+ "_relax_complete")
                      (JBool true))).
  { apply guarded_update_status; [done | apply status_path_writable | by right]. }
  assert (Hrun : G (RelaxerStep.run_vacancy_relaxation ext
                      (os_path_join directory ("POSCAR_" +:+ which))
                      (os_path_join directory (which +:+ ".traj")))).
  { apply guarded_run_vacancy_relaxation; [done| | |];
      destruct Hwhich as [-> | ->]; try done;
      intros <-; done. }
  assert (Hwrite : ∀ f, G (write_file
              (os_path_join directory ("POSCAR_optimized_" +:+ which)) f)).
  { intros f. apply guarded_write_file.
    - apply W_names; [done|]. by destruct Hwhich as [-> | ->].
    - intros Heq. apply os_path_join_inj in Heq;
        by destruct Hwhich as [-> | ->]. }
  guarded_auto. apply guarded_status_item.
Qed.

Lemma guarded_run_neb_and_record num_images max_steps :
  key ≠ "neb_steps_taken" → key ≠ "neb_climb_steps_taken" →
  key ≠ "neb_analysis_complete" → key ≠ "neb_barrier_eV" →
  key ≠ "prefactor_complete" → key ≠ "prefactor_THz" →
  G (run_neb_and_record ext directory num_images max_steps).
Proof.
  intros. unfold run_neb_and_record.
  guarded_auto; try apply guarded_run_neb_calculation;
    apply guarded_update_status; try done; try apply status_path_writable;
    by left.
Qed.

Lemma guarded_neb_step status num_images max_steps :
  key ≠ "neb_steps_taken" → key ≠ "neb_climb_steps_taken" →
  key ≠ "neb_analysis_complete" → key ≠ "neb_barrier_eV" →
  key ≠ "prefactor_complete" → key ≠ "prefactor_THz" →
  G (neb_step ext status directory num_images max_steps).
Proof.
  intros. unfold neb_step.
  guarded_auto; try apply guarded_reread_item;
    try apply guarded_status_item;
    by apply guarded_run_neb_and_record.
Qed.
End GuardedWorkflow.

Section WorkflowRuns.
Import IoStep.
Local Open Scope nat_scope.
Variable ext : collaborators.

Lemma bind_run {A B} (c : M A) (f : A → M B) s a s1 :
  c s = (Ok a, s1) → (c ≫= f) s = f a s1.
Proof. intros H. unfold mbind, M_bind. by rewrite H. Qed.

Lemma make_dir_name_in_range (pristine : Struct) mig vac path_num s :
  mig < length pristine → vac < length pristine →
  make_dir_name ext pristine mig vac path_num s
  = (Ok (format_dir_name ext pristine mig vac path_num), s).
Proof.
  intros. unfold make_dir_name. by rewrite bool_decide_true.
Qed.

Lemma final_endpoint_returns (pristine : Struct) mig vac :
  mig < length pristine → vac < length pristine → mig ≠ vac →
  ∃ final, final_endpoint pristine mig vac = Ok final.
Proof.
  intros Hmig Hvac Hne.
  destruct (lookup_lt_is_Some_2 pristine mig Hmig) as [mig_site Hm].
  destruct (lookup_lt_is_Some_2 pristine vac Hvac) as [vac_site Hv].
  unfold final_endpoint, set_frac_coords.
  rewrite Hv, remove_site_lookup_migrating, Hm by done. eauto.
Qed.

Lemma create_endpoints_returns (pristine : Struct) mig vac dir s :
  mig < length pristine → vac < length pristine → mig ≠ vac →
  ∃ s', create_endpoints pristine mig vac dir s = (Ok (), s').
Proof.
  intros Hmig Hvac Hne.
  destruct (final_endpoint_returns pristine mig vac Hmig Hvac Hne)
    as [final Hfinal].
  unfold create_endpoints. rewrite Hfinal. run_M.
  repeat (case_bool_decide; simpl); eauto.
Qed.

Lemma relax_endpoint_skips which rec dir s :
  rec !! (which +:+ "_relax_complete") = Some (JBool true) →
  relax_endpoint ext which (Fresh (JObj rec)) dir s
  = (Ok (),
     State (default_status s) (files s)
       (log s ++ [Print ("  > Skipping " +:+ which
                           +:+ " relaxation (already complete).")])).
Proof.
  intros Hflag. unfold relax_endpoint, status_item. run_M.
  by rewrite Hflag.
Qed.

Lemma run_vacancy_relaxation_returns filename traj s :
  ∃ relaxed s',
    RelaxerStep.run_vacancy_relaxation ext filename traj s
    = (Ok relaxed, s').
Proof.
  unfold RelaxerStep.run_vacancy_relaxation.
  unfold mbind at 1 2, M_bind at 1 2. simpl.
  unfold catch.
  match goal with |- context [let '(r, s') := ?c ?s0 in _] =>
    destruct (c s0) as [[relaxed|e] s1] end; simpl; eauto.
Qed.

Lemma relax_endpoint_returns which rec v dir key0 s :
  which = "initial" ∨ which = "final" →
  rec !! (which +:+ "_relax_complete") = Some v →
  flag_set dir key0 s →
  ∃ s', relax_endpoint ext which (Fresh (JObj rec)) dir s = (Ok (), s').
Proof.
  intros Hwhich Hv Hflag. unfold relax_endpoint.
  assert (Hitem : status_item (Fresh (JObj rec))
                    (which +:+ "_relax_complete") s = (Ok v, s)).
  { unfold status_item. run_M. by rewrite Hv. }
  rewrite (bind_run _ _ _ _ _ Hitem).
  destruct (py_truthy v); simpl; [by eexists|].
  destruct (run_vacancy_relaxation_returns
              (os_path_join dir ("POSCAR_" +:+ which))
              (os_path_join dir (which +:+ ".traj")) s)
    as (relaxed & s1 & Hrun).
  rewrite (bind_run _ _ _ _ _ Hrun).
  assert (Hflag1 : flag_set dir key0 s1).
  { eapply (guarded_run_vacancy_relaxation ext (λ _, True) (λ _, True)
              dir key0 "POSCAR_optimized_"); try done.
    - by destruct Hwhich as [-> | ->].
    - by destruct Hwhich as [-> | ->].
    - by destruct Hwhich as [-> | ->]. }
  destruct relaxed as [[|site0 sites]|]; try by eexists.
  run_M. destruct Hflag1 as (m1 & Hm1 & _).
  erewrite update_status_dict; [by eexists|]. simpl.
  rewrite lookup_insert_ne; [done|].
  intros Heq. apply os_path_join_inj in Heq;
    by destruct Hwhich as [-> | ->].
Qed.
End WorkflowRuns.

Section WorkflowClaims.
Import IoStep.
Local Open Scope nat_scope.

(** C8: when the record file of the task already has the completion flag
    of an endpoint set ([which] is the initial or the final one), the
    relaxation stage of that endpoint does nothing but log the skip
    message, in whatever state it is entered; and over the whole call
    [run_vacancy_relaxation] is not called on the structure file of that
    endpoint, the skip message is logged, the file of the relaxed
    structure is the one there was, and the flag is still set in the
    record file. *)
Theorem manage_path_calculations_skips_relaxed_endpoint
    (ext : collaborators) (pristine : Struct)
    (mig vac path_num num_images : nat) (max_steps : Z)
    (which : string) (s : state) (m : gmap string json) :
  let dir := format_dir_name ext pristine mig vac path_num in
  let flag := which +:+ "_relax_complete" in
  let poscar := os_path_join dir ("POSCAR_" +:+ which) in
  let optimized := os_path_join dir ("POSCAR_optimized_" +:+ which) in
  let skip := Print ("  > Skipping " +:+ which
                       +:+ " relaxation (already complete).") in
  which = "initial" ∨ which = "final" →
  mig < length pristine → vac < length pristine → mig ≠ vac →
  files s !! status_path dir = Some (JsonDoc (JObj m)) →
  m !! flag = Some (JBool true) →
  is_Some ((m ∪ default_status s) !! "initial_relax_complete") →
  (∀ s1,
     relax_endpoint ext which (Fresh (JObj (m ∪ default_status s))) dir s1
     = (Ok (), State (default_status s1) (files s1) (log s1 ++ [skip])))
  ∧ ∃ r s' evs,
      manage_path_calculations ext pristine mig vac path_num num_images
        max_steps s = (r, s')
      ∧ log s' = log s ++ evs
      ∧ (Called "run_vacancy_relaxation" poscar ∉ evs)
      ∧ skip ∈ evs
      ∧ files s' !! optimized = files s !! optimized
      ∧ flag_set dir flag s'.
Proof.
  intros dir flag poscar optimized skip Hwhich Hmig Hvac Hne Hfile Hflag
    Hother.
  assert (Hrec : (m ∪ default_status s) !! flag = Some (JBool true))
    by (by apply lookup_union_Some_l).
  assert (Hskip : ∀ s1,
     relax_endpoint ext which (Fresh (JObj (m ∪ default_status s))) dir s1
     = (Ok (), State (default_status s1) (files s1) (log s1 ++ [skip])))
    by (intros s1; by apply relax_endpoint_skips).
  split; [exact Hskip|].
  set (P := not_relaxation_of poscar).
  set (W := λ p : string, p ≠ optimized).
  set (protected := "POSCAR_optimized_" +:+ which).
  assert (HPp : ∀ line, P (Print line)) by done.
  assert (HPn : ∀ e, neb_stage_event e → P e).
  { intros [| f a |] He; try done. intros [= -> _].
    by destruct He. }
  assert (HW : ∀ name, name ≠ protected → String.prefix "/" name = false →
                       W (os_path_join dir name)).
  { intros name Hn Hrel Heq. apply Hn.
    apply os_path_join_inj in Heq; [done..|].
    by destruct Hwhich as [-> | ->]. }
  assert (Hprot : String.prefix "POSCAR_optimized_" protected = true)
    by (by destruct Hwhich as [-> | ->]).
  assert (Hkey : flag ≠ "neb_steps_taken" ∧ flag ≠ "neb_climb_steps_taken"
                 ∧ flag ≠ "neb_analysis_complete" ∧ flag ≠ "neb_barrier_eV"
                 ∧ flag ≠ "prefactor_complete" ∧ flag ≠ "prefactor_THz")
    by (by destruct Hwhich as [-> | ->]).
  destruct Hkey as (? & ? & ? & ? & ? & ?).
  assert (Hneb : ∀ status,
            guarded P W dir flag
              (neb_step ext status dir num_images max_steps))
    by (intros; by eapply guarded_neb_step).
  unfold manage_path_calculations.
  rewrite (bind_run _ _ _ _ _
             (make_dir_name_in_range ext pristine mig vac path_num s
                Hmig Hvac)).
  fold dir.
  set (s_a := State (default_status s) (files s)
                (log s ++ [Print (newline +:+ "--- Managing Path: " +:+ dir
                                    +:+ " ---")])).
  assert (Hprint : print (newline +:+ "--- Managing Path: " +:+ dir
                              +:+ " ---") s = (Ok (), s_a)) by done.
  rewrite (bind_run _ _ _ _ _ Hprint).
  rewrite (bind_run _ _ _ _ _ (get_status_dict dir s_a m Hfile)).
  change (default_status s_a) with (default_status s).
  destruct (create_endpoints_returns pristine mig vac dir s_a Hmig Hvac Hne)
    as [s_b Hb].
  rewrite (bind_run _ _ _ _ _ Hb).
  destruct (guarded_create_endpoints P W dir flag protected HPp HW Hprot
              pristine mig vac _ _ _ Hb)
    as ((evs_b & Hlog_b & HP_b) & Hfiles_b & Hflag_b).
  assert (Hset_b : flag_set dir flag s_b)
    by (apply Hflag_b; by exists m).
  assert (Hopt : ¬ W optimized) by (intros H'; by apply H').
  destruct Hwhich as [Hw | Hw].
  - (* the initial endpoint is skipped, the rest is guarded *)
    assert (Hskip' := Hskip s_b). rewrite Hw in Hskip'.
    rewrite (bind_run _ _ _ _ _ Hskip').
    set (s_c := State (default_status s_b) (files s_b) (log s_b ++ [skip])).
    match goal with |- context [?c s_c] =>
      destruct (c s_c) as [r s'] eqn:Hrest end.
    assert (Hg : guarded P W dir flag
              (relax_endpoint ext "final"
                 (Fresh (JObj (m ∪ default_status s))) dir
               ≫= λ _, neb_step ext (Fresh (JObj (m ∪ default_status s)))
                         dir num_images max_steps)).
    { apply guarded_bind; [|intros; apply Hneb].
      eapply guarded_relax_endpoint; try done; [by right | |].
      - unfold P, not_relaxation_of, poscar. subst which.
        intros [= Heq]. by apply os_path_join_inj in Heq.
      - unfold protected. by subst which. }
    destruct (Hg _ _ _ Hrest) as ((evs_d & Hlog_d & HP_d) & Hfiles_d & Hflag_d).
    exists r, s', ([Print (newline +:+ "--- Managing Path: " +:+ dir
                             +:+ " ---")] ++ evs_b ++ [skip] ++ evs_d).
    split; [done|]. split.
    { rewrite Hlog_d. simpl. rewrite Hlog_b. simpl.
      by rewrite <- !(assoc_L (++)). }
    split.
    { intros Hin. apply elem_of_cons in Hin as [?|Hin]; [done|].
      apply elem_of_app in Hin as [Hin|Hin].
      - by apply (proj1 (list.Forall_forall _ _) HP_b _ Hin).
      - apply elem_of_cons in Hin as [?|Hin]; [done|].
        by apply (proj1 (list.Forall_forall _ _) HP_d _ Hin). }
    split.
    { apply elem_of_cons. right. apply elem_of_app. right.
      apply elem_of_cons. by left. }
    split.
    { rewrite (Hfiles_d _ Hopt). change (files s_c) with (files s_b).
      by rewrite (Hfiles_b _ Hopt). }
    apply Hflag_d. destruct Hset_b as (m' & ? & ?). by exists m'.
  - (* the initial endpoint is guarded, the final one is skipped *)
    destruct Hother as [v Hv].
    destruct (relax_endpoint_returns ext "initial"
                (m ∪ default_status s) v dir flag s_b) as [s_c Hc];
      [by left | done | done |].
    rewrite (bind_run _ _ _ _ _ Hc).
    assert (Hg : guarded P W dir flag
              (relax_endpoint ext "initial"
                 (Fresh (JObj (m ∪ default_status s))) dir)).
    { eapply guarded_relax_endpoint; try done; [by left | |].
      - unfold P, not_relaxation_of, poscar. subst which.
        intros [= Heq]. by apply os_path_join_inj in Heq.
      - unfold protected. by subst which. }
    destruct (Hg _ _ _ Hc) as ((evs_c & Hlog_c & HP_c) & Hfiles_c & Hflag_c).
    assert (Hskip' := Hskip s_c). rewrite Hw in Hskip'.
    rewrite (bind_run _ _ _ _ _ Hskip').
    set (s_d := State (default_status s_c) (files s_c) (log s_c ++ [skip])).
    destruct (neb_step ext (Fresh (JObj (m ∪ default_status s))) dir
                num_images max_steps s_d) as [r s'] eqn:Hrest.
    destruct (Hneb _ _ _ _ Hrest)
      as ((evs_e & Hlog_e & HP_e) & Hfiles_e & Hflag_e).
    exists r, s', ([Print (newline +:+ "--- Managing Path: " +:+ dir
                             +:+ " ---")] ++ evs_b ++ evs_c ++ [skip]
                     ++ evs_e).
    split; [done|]. split.
    { rewrite Hlog_e. simpl. rewrite Hlog_c, Hlog_b. simpl.
      by rewrite <- !(assoc_L (++)). }
    split.
    { intros Hin. apply elem_of_cons in Hin as [?|Hin]; [done|].
      apply elem_of_app in Hin as [Hin|Hin];
        [by apply (proj1 (list.Forall_forall _ _) HP_b _ Hin)|].
      apply elem_of_app in Hin as [Hin|Hin];
        [by apply (proj1 (list.Forall_forall _ _) HP_c _ Hin)|].
      apply elem_of_cons in Hin as [?|Hin]; [done|].
      by apply (proj1 (list.Forall_forall _ _) HP_e _ Hin). }
    split.
    { apply elem_of_cons. right. apply elem_of_app. right.
      apply elem_of_app. right. apply elem_of_cons. by left. }
    split.
    { rewrite (Hfiles_e _ Hopt). change (files s_d) with (files s_c).
      by rewrite (Hfiles_c _ Hopt), (Hfiles_b _ Hopt). }
    apply Hflag_e. destruct (Hflag_c Hset_b) as (m' & ? & ?). by exists m'.
Qed.
End WorkflowClaims.

Section NebDecision.
Import IoStep.
Local Open Scope nat_scope.
Variable ext : collaborators.

Lemma bind_assoc_run {A B C} (c : M A) (g : A → M B) (f : B → M C) s :
  ((c ≫= g) ≫= f) s = (c ≫= (λ x, g x ≫= f)) s.
Proof. unfold mbind, M_bind. by destruct (c s) as [[a|e] s1]. Qed.

Lemma reread_item_flag dir k s :
  flag_set dir k s → reread_item dir k s = (Ok (JBool true), s).
Proof.
  intros (m & Hm & Hk). unfold reread_item.
  rewrite (bind_run _ _ _ _ _ (get_status_dict dir s m Hm)).
  unfold status_item. run_M.
  by rewrite (lookup_union_Some_l _ _ _ _ Hk).
Qed.

Lemma neb_step_decision rec a b dir num_images max_steps s :
  flag_set dir "initial_relax_complete" s →
  flag_set dir "final_relax_complete" s →
  rec !! "neb_steps_taken" = Some a →
  rec !! "neb_climb_steps_taken" = Some b →
  neb_step ext (Fresh (JObj rec)) dir num_images max_steps s
  = if py_eq_zero a || py_eq_zero b
    then run_neb_and_record ext dir num_images max_steps s
    else print "  > Skipping NEB calculation (already run)." s.
Proof.
  intros Hi Hf Ha Hb. unfold neb_step.
  rewrite (bind_run _ _ _ _ _ (reread_item_flag _ _ _ Hi)). simpl.
  rewrite (bind_run _ _ _ _ _ (reread_item_flag _ _ _ Hf)). simpl.
  unfold status_item. run_M. rewrite Ha. simpl.
  destruct (py_eq_zero a); simpl; [done|].
  rewrite Hb. simpl. by destruct (py_eq_zero b).
Qed.

Lemma run_neb_and_record_calls dir num_images max_steps s r s' :
  run_neb_and_record ext dir num_images max_steps s = (r, s') →
  ∃ evs, log s' = log s ++ Called "run_neb_calculation" dir :: evs
         ∧ Forall neb_stage_event evs.
Proof.
  unfold run_neb_and_record, NebStep.run_neb_calculation.
  rewrite bind_assoc_run.
  set (s1 := State (default_status s) (files s)
               (log s ++ [Called "run_neb_calculation" dir])).
  assert (Hemit : emit (Called "run_neb_calculation" dir) s = (Ok (), s1))
    by done.
  rewrite (bind_run _ _ _ _ _ Hemit). intros Hrun.
  eapply (guarded_bind neb_stage_event (λ _, True) dir
            "initial_relax_complete") in Hrun.
  - destruct Hrun as ((evs & Hlog & HP) & _). exists evs.
    split; [|done]. rewrite Hlog. simpl. by rewrite <- (assoc_L (++)).
  - by apply (guarded_try_stages ext _ _ _ _ "POSCAR_optimized_").
  - intros results.
    guarded_auto;
      apply guarded_update_status; try done; by left.
Qed.
End NebDecision.

Section NebClaims.
Import IoStep.
Local Open Scope nat_scope.

Lemma create_endpoints_keeps_status (pristine : Struct) mig vac dir s r s' :
  create_endpoints pristine mig vac dir s = (r, s') →
  files s' !! status_path dir = files s !! status_path dir.
Proof.
  assert (Hne : ∀ name f (fs : gmap string file),
            name ≠ STATUS_FILENAME → String.prefix "/" name = false →
            <[os_path_join dir name := f]> fs !! status_path dir
            = fs !! status_path dir).
  { intros name f fs Hn Hrel. apply lookup_insert_ne. intros Heq.
    by apply os_path_join_inj in Heq. }
  unfold create_endpoints. run_M.
  destruct (final_endpoint pristine mig vac);
    repeat (case_bool_decide; simpl); intros [= <- <-]; simpl;
    by rewrite ?Hne.
Qed.

(** C1, amended: for a task whose record file has both relaxation flags
    set, the NEB stage is run exactly when one of the two step counters of
    the record read at the start equals zero; it is skipped, with its
    message and the record file untouched, only when both counters are
    nonzero. No relaxation is run either way. *)
Theorem manage_path_calculations_reruns_neb (ext : collaborators)
    (pristine : Struct) (mig vac path_num num_images : nat) (max_steps : Z)
    (s : state) (m : gmap string json) (a b : json) :
  let dir := format_dir_name ext pristine mig vac path_num in
  mig < length pristine → vac < length pristine → mig ≠ vac →
  files s !! status_path dir = Some (JsonDoc (JObj m)) →
  m !! "initial_relax_complete" = Some (JBool true) →
  m !! "final_relax_complete" = Some (JBool true) →
  (m ∪ default_status s) !! "neb_steps_taken" = Some a →
  (m ∪ default_status s) !! "neb_climb_steps_taken" = Some b →
  ∃ r s' evs,
    manage_path_calculations ext pristine mig vac path_num num_images
      max_steps s = (r, s')
    ∧ log s' = log s ++ evs
    ∧ (Called "run_neb_calculation" dir ∈ evs
       ↔ py_eq_zero a = true ∨ py_eq_zero b = true)
    ∧ (∀ poscar, Called "run_vacancy_relaxation" poscar ∉ evs)
    ∧ (py_eq_zero a = false ∧ py_eq_zero b = false →
       r = Ok ()
       ∧ list.last evs
         = Some (Print "  > Skipping NEB calculation (already run).")
       ∧ files s' !! status_path dir = files s !! status_path dir).
Proof.
  intros dir Hmig Hvac Hne Hfile Hinit Hfinal Ha Hb.
  set (rec := m ∪ default_status s) in *.
  set (managing := Print (newline +:+ "--- Managing Path: " +:+ dir
                            +:+ " ---")).
  set (skip_i := Print "  > Skipping initial relaxation (already complete).").
  set (skip_f := Print "  > Skipping final relaxation (already complete).").
  unfold manage_path_calculations.
  rewrite (bind_run _ _ _ _ _
             (make_dir_name_in_range ext pristine mig vac path_num s
                Hmig Hvac)).
  fold dir.
  set (s_a := State (default_status s) (files s) (log s ++ [managing])).
  assert (Hprint : print (newline +:+ "--- Managing Path: " +:+ dir
                            +:+ " ---") s = (Ok (), s_a)) by done.
  rewrite (bind_run _ _ _ _ _ Hprint).
  rewrite (bind_run _ _ _ _ _ (get_status_dict dir s_a m Hfile)).
  change (m ∪ default_status s_a) with rec.
  destruct (create_endpoints_returns pristine mig vac dir s_a Hmig Hvac Hne)
    as [s_b Hb'].
  rewrite (bind_run _ _ _ _ _ Hb').
  assert (Hg : ∀ key, guarded is_print (λ _, True) dir key
                 (create_endpoints pristine mig vac dir)).
  { intros key.
    by apply (guarded_create_endpoints _ _ _ _ "POSCAR_optimized_"). }
  destruct (Hg "initial_relax_complete" _ _ _ Hb')
    as ((evs_b & Hlog_b & HP_b) & _ & Hflag_i).
  destruct (Hg "final_relax_complete" _ _ _ Hb') as (_ & _ & Hflag_f).
  assert (Hset_i : flag_set dir "initial_relax_complete" s_b)
    by (apply Hflag_i; by exists m).
  assert (Hset_f : flag_set dir "final_relax_complete" s_b)
    by (apply Hflag_f; by exists m).
  assert (Hfile_b : files s_b !! status_path dir
                    = files s !! status_path dir)
    by apply (create_endpoints_keeps_status _ _ _ _ _ _ _ Hb').
  rewrite (bind_run _ _ _ _ _
             (relax_endpoint_skips ext "initial" rec dir s_b
                ltac:(by apply lookup_union_Some_l))).
  rewrite (bind_run _ _ _ _ _
             (relax_endpoint_skips ext "final" rec dir _
                ltac:(by apply lookup_union_Some_l))).
  simpl default_status. simpl files. simpl log.
  set (s_d := State (default_status s_b) (files s_b)
                ((log s_b ++ [skip_i]) ++ [skip_f])).
  match goal with |- context [neb_step _ _ _ _ _ ?st] =>
    change st with s_d end.
  rewrite (neb_step_decision ext rec a b dir num_images max_steps s_d)
    by done.
  assert (Hno_relax : ∀ poscar evs,
            Forall is_print evs ∨ Forall neb_stage_event evs →
            Called "run_vacancy_relaxation" poscar ∉ evs).
  { intros poscar evs Hall Hin.
    destruct Hall as [Hall|Hall];
      apply (proj1 (list.Forall_forall _ _) Hall) in Hin; [done|].
    by destruct Hin. }
  destruct (py_eq_zero a || py_eq_zero b) eqn:Hrerun.
  - (* the stage is run *)
    destruct (run_neb_and_record ext dir num_images max_steps s_d)
      as [r s'] eqn:Hrun.
    destruct (run_neb_and_record_calls _ _ _ _ _ _ _ Hrun)
      as (evs_e & Hlog_e & HP_e).
    exists r, s',
      ([managing] ++ evs_b ++ [skip_i; skip_f]
         ++ Called "run_neb_calculation" dir :: evs_e).
    split; [done|]. split.
    { rewrite Hlog_e. simpl. rewrite Hlog_b. simpl.
      by rewrite <- !(assoc_L (++)). }
    split.
    { split; [intros _; by apply orb_true_iff|]. intros _.
      apply elem_of_cons. right. apply elem_of_app. right.
      do 2 (apply elem_of_cons; right). apply elem_of_cons. by left. }
    split.
    { intros poscar Hin. apply elem_of_cons in Hin as [?|Hin]; [done|].
      apply elem_of_app in Hin as [Hin|Hin];
        [by eapply Hno_relax; [left|]|].
      do 3 (apply elem_of_cons in Hin as [?|Hin]; [done|]).
      by eapply Hno_relax; [right|]. }
    intros [Ha0 Hb0]. by rewrite Ha0, Hb0 in Hrerun.
  - (* the stage is skipped *)
    eexists _, _,
      ([managing] ++ evs_b
         ++ [skip_i; skip_f;
             Print "  > Skipping NEB calculation (already run)."]).
    split; [reflexivity|]. simpl. split.
    { rewrite Hlog_b. simpl. by rewrite <- !(assoc_L (++)). }
    split.
    { split; [|intros Hz; by apply orb_true_iff in Hz; congruence].
      intros Hin. apply elem_of_cons in Hin as [?|Hin]; [done|].
      apply elem_of_app in Hin as [Hin|Hin].
      - by apply (proj1 (list.Forall_forall _ _) HP_b) in Hin.
      - by do 3 (apply elem_of_cons in Hin as [?|Hin]; [done|]);
          apply elem_of_nil in Hin. }
    split.
    { intros poscar Hin. apply elem_of_cons in Hin as [?|Hin]; [done|].
      apply elem_of_app in Hin as [Hin|Hin];
        [by eapply Hno_relax; [left|]|].
      by do 3 (apply elem_of_cons in Hin as [?|Hin]; [done|]);
        apply elem_of_nil in Hin. }
    intros _. split; [done|]. split; [|done].
    replace (managing :: evs_b ++ [skip_i; skip_f;
               Print "  > Skipping NEB calculation (already run)."])
      with (([managing] ++ evs_b ++ [skip_i; skip_f])
            ++ [Print "  > Skipping NEB calculation (already run)."])
      by (by rewrite <- !(assoc_L (++))).
    apply last_snoc.
Qed.
End NebClaims.

(** ** What [run_neb_calculation] returns *)

Section NebResults.
Import NebStep.
Local Open Scope Z_scope.
Variable ext : collaborators.

(** The keys ["neb_converged"] and ["climb_converged"] of the dictionary
    returned are never assigned. *)
Lemma run_neb_calculation_converged_keys initial_path final_path
    optimized_initial_path directory num_images max_steps s r s' :
  run_neb_calculation ext initial_path final_path optimized_initial_path
    directory num_images max_steps s = (Ok r, s') →
  neb_converged r = false ∧ climb_converged r = false.
Proof.
  unfold run_neb_calculation, try_stages.
  unfold mbind, M_bind, catch. simpl.
  repeat match goal with
  | |- context [match ?c ?st with _ => _ end] =>
      lazymatch c with
      | standard_stage _ _ _ _ _ _ => destruct (c st) as [[[[] ?]|?] ?]
      | climbing_stage _ _ _ _ => destruct (c st) as [[[[] ?]|?] ?]
      | read_barrier _ _ _ => destruct (c st) as [[[? ?]|?] ?]
      | write_saddle _ _ _ _ => destruct (c st) as [[?|?] ?]
      | calculate_prefactor _ _ _ _ => destruct (c st) as [[[?|]|?] ?]
      end; simpl
  end.
  all: unfold mret, M_ret; intros H; by simplify_eq.
Qed.

(** X29: with readable endpoint trajectories and no standard configuration
    converging, the budget is stored under ["neb_steps"] and the climbing
    stage is not entered. *)
Lemma run_neb_calculation_standard_exhausted initial_path final_path
    optimized_initial_path directory num_images max_steps s initial final :
  ase_read initial_path s = (Ok initial, s) →
  ase_read final_path s = (Ok final, s) →
  Forall (gives_up ext false
            ([initial] ++ replicate num_images initial ++ [final]) max_steps)
    optimizers_to_try →
  ∃ s', run_neb_calculation ext initial_path final_path
          optimized_initial_path directory num_images max_steps s
        = (Ok (set_neb_steps max_steps initial_results), s')
        ∧ attempted (drop (length (log s)) (log s')) = optimizers_to_try.
Proof.
  intros Hi Hf Hall.
  set (s0 := State (default_status s) (files s)
               (log s ++ [Called "run_neb_calculation" directory;
                          Print ("  > Setting up Standard NEB in '"
                                   +:+ directory +:+ "'...")])).
  destruct (attempts_exhausted ext false
              ([initial] ++ replicate num_images initial ++ [final])
              (os_path_join directory "neb.traj") max_steps
              optimizers_to_try 0%nat s0 Hall)
    as (s1 & evs & Hrun & Hlog & Hatt).
  assert (Hi0 : ase_read initial_path s0 = (Ok initial, s0)).
  { revert Hi. unfold ase_read. run_M.
    destruct (files s !! initial_path) as [[| |?|frames]|]; try done.
    - by intros [= ->].
    - destruct (list.last frames); [|done]. by intros [= ->]. }
  assert (Hf0 : ase_read final_path s0 = (Ok final, s0)).
  { revert Hf. unfold ase_read. run_M.
    destruct (files s !! final_path) as [[| |?|frames]|]; try done.
    - by intros [= ->].
    - destruct (list.last frames); [|done]. by intros [= ->]. }
  unfold run_neb_calculation, try_stages, standard_stage, run_with_fallback.
  unfold mbind at 1, M_bind at 1. simpl.
  unfold mbind at 1, M_bind at 1. unfold catch.
  unfold mbind at 1, M_bind at 1. simpl.
  rewrite <- (assoc_L (++)). simpl. fold s0.
  rewrite (bind_run _ _ _ _ _ Hi0), (bind_run _ _ _ _ _ Hf0).
  rewrite (bind_run _ _ _ _ _ Hrun). run_M.
  eexists. split; [reflexivity|]. simpl.
  rewrite Hlog. simpl. rewrite <- !(assoc_L (++)).
  rewrite drop_app_length. simpl. by rewrite attempted_app, Hatt.
Qed.
End NebResults.

Section WorkflowExamples.
Import IoStep.
Local Open Scope nat_scope.

Lemma manage_path_calculations_skips_relaxed_endpoint_witness :
  let s := fresh_process stalled_task in
  ∃ r s' evs,
    manage_path_calculations failing_collaborators two_lithium 0 1 1 3 5000
      s = (r, s')
    ∧ log s' = log s ++ evs
    ∧ (Called "run_vacancy_relaxation"
         (os_path_join example_dir "POSCAR_initial") ∉ evs)
    ∧ Print "  > Skipping initial relaxation (already complete)." ∈ evs
    ∧ files s' !! os_path_join example_dir "POSCAR_optimized_initial"
      = files s !! os_path_join example_dir "POSCAR_optimized_initial"
    ∧ flag_set example_dir "initial_relax_complete" s'.
Proof.
  intros s.
  apply (manage_path_calculations_skips_relaxed_endpoint
           failing_collaborators two_lithium 0 1 1 3 5000 "initial" s
           stalled_record).
  - by left.
  - simpl; lia.
  - simpl; lia.
  - lia.
  - reflexivity.
  - reflexivity.
  - eexists. reflexivity.
Defined.

(** C1 as stated fails: the record read at the start has both relaxation
    flags set and [neb_steps_taken = 5000 > 0] (with
    [neb_climb_steps_taken = 0]), and [run_neb_calculation] is called. *)
Lemma manage_path_calculations_reruns_stalled_neb :
  let s := fresh_process stalled_task in
  let s' := (manage_path_calculations failing_collaborators two_lithium
               0 1 1 3 5000 s).2 in
  get_status example_dir s = (Ok (Fresh (JObj stalled_record)), s)
  ∧ stalled_record !! "initial_relax_complete" = Some (JBool true)
  ∧ stalled_record !! "final_relax_complete" = Some (JBool true)
  ∧ stalled_record !! "neb_steps_taken" = Some (JInt 5000)
  ∧ stalled_record !! "neb_climb_steps_taken" = Some (JInt 0)
  ∧ Called "run_neb_calculation" example_dir ∈ log s'.
Proof.
  intros s s'. repeat split; try reflexivity.
  apply (list_elem_of_lookup_2 _ 5). reflexivity.
Qed.

Lemma manage_path_calculations_reruns_neb_witness :
  let s := fresh_process stalled_task in
  ∃ r s' evs,
    manage_path_calculations failing_collaborators two_lithium 0 1 1 3 5000
      s = (r, s')
    ∧ log s' = log s ++ evs
    ∧ (Called "run_neb_calculation" example_dir ∈ evs
       ↔ py_eq_zero (JInt 5000) = true ∨ py_eq_zero (JInt 0) = true)
    ∧ (∀ poscar, Called "run_vacancy_relaxation" poscar ∉ evs)
    ∧ (py_eq_zero (JInt 5000) = false ∧ py_eq_zero (JInt 0) = false →
       r = Ok ()
       ∧ list.last evs
         = Some (Print "  > Skipping NEB calculation (already run).")
       ∧ files s' !! status_path example_dir
         = files s !! status_path example_dir).
Proof.
  intros s.
  apply (manage_path_calculations_reruns_neb failing_collaborators
           two_lithium 0 1 1 3 5000 s stalled_record (JInt 5000) (JInt 0)).
  - simpl; lia.
  - simpl; lia.
  - lia.
  - reflexivity.
  - reflexivity.
  - reflexivity.
  - reflexivity.
  - reflexivity.
Defined.

(** How the record of the counterexample comes about: with both endpoints
    relaxed and an optimizer that never converges, one call leaves
    [neb_steps_taken = 5000] and [neb_climb_steps_taken = 0] in the record
    file, and the next call runs all four standard attempts again. *)
Example manage_path_calculations_twice_without_convergence :
  let run := manage_path_calculations failing_collaborators two_lithium
               0 1 1 3 5000 in
  let s1 := (run (fresh_process relaxed_task)).2 in
  let s2 := (run s1).2 in
  files s1 !! status_path example_dir = Some (JsonDoc (JObj stalled_record))
  ∧ attempted (log s1) = NebStep.optimizers_to_try
  ∧ attempted (log s2)
    = NebStep.optimizers_to_try ++ NebStep.optimizers_to_try.
Proof. by vm_compute. Qed.

(** With both counters nonzero the stage is skipped. *)
Example manage_path_calculations_both_counted :
  let done := <["neb_climb_steps_taken" := JInt 17]> stalled_record in
  let s := fresh_process {[ status_path example_dir := JsonDoc (JObj done) ]} in
  list.last (log (manage_path_calculations failing_collaborators
                    two_lithium 0 1 1 3 5000 s).2)
  = Some (Print "  > Skipping NEB calculation (already run).").
Proof. by vm_compute. Qed.
End WorkflowExamples.

(** ** More on the checkpoint store *)

Section StatusManagerMore.
Implicit Types (s : state) (m : gmap string json) (directory key : string).

Lemma insert_union_absorb (m d : gmap string json) key value :
  <[key := value]> (m ∪ d) ∪ d = <[key := value]> (m ∪ d).
Proof.
  rewrite <- insert_union_l, <- (assoc_L (∪)). by rewrite (idemp_L (∪)).
Qed.

(** What a call of [update_status] that returns leaves behind: the record
    file holds a dictionary, closed under the defaults, with the value
    under the key. *)
Lemma update_status_returns directory key value s s1 :
  update_status directory key value s = (Ok (), s1) →
  ∃ rec,
    files s1 = <[status_path directory := JsonDoc (JObj rec)]> (files s)
    ∧ rec !! key = Some value
    ∧ rec ∪ default_status s1 = rec
    ∧ (∀ k, is_Some (default_status s !! k) → is_Some (rec !! k)).
Proof.
  unfold update_status. unfold mbind at 1, M_bind at 1.
  assert (Hmissing : ∀ evs,
    (let s0 := State (default_status s)
                 (<[status_path directory := JsonDoc (JObj (default_status s))]>
                    (files s)) (log s ++ evs) in
     (assign TheDefault key value
        ≫= λ status, dump (os_path_join directory STATUS_FILENAME) status) s0
     = (Ok (), s1)) →
    ∃ rec,
      files s1 = <[status_path directory := JsonDoc (JObj rec)]> (files s)
      ∧ rec !! key = Some value
      ∧ rec ∪ default_status s1 = rec
      ∧ (∀ k, is_Some (default_status s !! k) → is_Some (rec !! k))).
  { intros evs. unfold assign. run_M. fold (status_path directory).
    intros [= <-]. simpl. eexists. split; [by rewrite insert_insert_eq|].
    split; [apply lookup_insert_eq|]. split; [apply (idemp_L (∪))|].
    intros k Hk. destruct (decide (k = key)) as [->|Hne].
    - rewrite lookup_insert_eq. eauto.
    - by rewrite lookup_insert_ne. }
  destruct (files s !! status_path directory) as [f|] eqn:Hf.
  - rewrite (get_status_existing _ _ _ Hf).
    destruct (json_load f) as [[v|]|e] eqn:Hload; [| |done].
    + destruct (fill_defaults _ v) as [status|] eqn:Hfill; [|done].
      destruct status as [| | | | | |m0];
        try (unfold assign; run_M; discriminate).
      destruct (fill_defaults_dict_inv _ _ _ Hfill) as [m ->].
      rewrite fill_defaults_dict in Hfill. injection Hfill as <-.
      unfold assign. run_M. fold (status_path directory).
      intros [= <-]. simpl. eexists. split; [done|].
      split; [apply lookup_insert_eq|].
      split; [apply insert_union_absorb|].
      intros k Hk. destruct (decide (k = key)) as [->|Hne].
      * rewrite lookup_insert_eq. eauto.
      * rewrite lookup_insert_ne by done. apply lookup_union_is_Some. auto.
    + intros H. apply (Hmissing [Print (corrupt_warning directory)]), H.
  - rewrite (get_status_missing _ _ Hf). intros H.
    apply (Hmissing []). simpl. by rewrite (right_id_L [] (++)).
Qed.

(** X1: whatever the record file was before (absent, text that
    [json.load] rejects, or a dictionary), a call of [update_status] that
    returns leaves a record file from which [get_status] reads back a
    dictionary with the value under the key and with every key of
    [DEFAULT_STATUS]; that read changes nothing. *)
Theorem update_status_stores_value directory key value s s1 :
  update_status directory key value s = (Ok (), s1) →
  ∃ rec,
    get_status directory s1 = (Ok (Fresh (JObj rec)), s1)
    ∧ files s1 !! status_path directory = Some (JsonDoc (JObj rec))
    ∧ rec !! key = Some value
    ∧ (∀ k, is_Some (default_status s !! k) → is_Some (rec !! k)).
Proof.
  intros Hup.
  destruct (update_status_returns _ _ _ _ _ Hup) as (rec & Hfiles & Hk & Hd & Hall).
  assert (Hrec : files s1 !! status_path directory = Some (JsonDoc (JObj rec)))
    by (rewrite Hfiles; apply lookup_insert_eq).
  exists rec. rewrite (get_status_dict _ _ _ Hrec), Hd. done.
Qed.

Lemma update_status_stores_value_witness :
  let s := fresh_process {[ status_path "NEB_path_001" := Unparsable "{" ]} in
  let s1 := (update_status "NEB_path_001" "neb_steps_taken" (JInt 12) s).2 in
  ∃ rec,
    get_status "NEB_path_001" s1 = (Ok (Fresh (JObj rec)), s1)
    ∧ files s1 !! status_path "NEB_path_001" = Some (JsonDoc (JObj rec))
    ∧ rec !! "neb_steps_taken" = Some (JInt 12)
    ∧ (∀ k, is_Some (default_status s !! k) → is_Some (rec !! k)).
Proof.
  apply (update_status_stores_value "NEB_path_001" "neb_steps_taken" (JInt 12)
           (fresh_process {[ status_path "NEB_path_001" := Unparsable "{" ]})).
  reflexivity.
Defined.

(** X2: [update_status] is idempotent: repeating a call that returned
    changes neither the files, nor [DEFAULT_STATUS], nor what is printed. *)
Theorem update_status_idempotent directory key value s s1 :
  update_status directory key value s = (Ok (), s1) →
  update_status directory key value s1 = (Ok (), s1).
Proof.
  intros Hup.
  destruct (update_status_returns _ _ _ _ _ Hup) as (rec & Hfiles & Hk & Hd & _).
  assert (Hrec : files s1 !! status_path directory = Some (JsonDoc (JObj rec)))
    by (rewrite Hfiles; apply lookup_insert_eq).
  rewrite (update_status_dict _ _ _ _ _ Hrec), Hd.
  rewrite (insert_id rec) by done. rewrite (insert_id (files s1)) by done.
  by destruct s1.
Qed.

Lemma update_status_idempotent_witness :
  let s := fresh_process ∅ in
  let s1 := (update_status "NEB_path_001" "neb_steps_taken" (JInt 12) s).2 in
  update_status "NEB_path_001" "neb_steps_taken" (JInt 12) s1 = (Ok (), s1).
Proof.
  apply (update_status_idempotent "NEB_path_001" "neb_steps_taken" (JInt 12)
           (fresh_process ∅)).
  reflexivity.
Defined.

(** X3: on a record file that holds a dictionary, updates of two different
    keys commute: either order leaves the same state. *)
Theorem update_status_commutes directory key1 key2 value1 value2 s m :
  files s !! status_path directory = Some (JsonDoc (JObj m)) →
  key1 ≠ key2 →
  (update_status directory key1 value1 ;;
   update_status directory key2 value2) s
  = (update_status directory key2 value2 ;;
     update_status directory key1 value1) s.
Proof.
  intros Hm Hne.
  unfold mbind, M_bind.
  rewrite !(update_status_dict _ _ _ _ _ Hm).
  erewrite !update_status_dict by (simpl; apply lookup_insert_eq).
  simpl. rewrite !insert_insert_eq, !insert_union_absorb.
  by rewrite (insert_insert_ne _ key1 key2).
Qed.

Lemma update_status_commutes_witness :
  let s := fresh_process
             {[ status_path "NEB_path_001" := JsonDoc (JObj DEFAULT_STATUS) ]} in
  (update_status "NEB_path_001" "neb_steps_taken" (JInt 12) ;;
   update_status "NEB_path_001" "initial_relax_complete" (JBool true)) s
  = (update_status "NEB_path_001" "initial_relax_complete" (JBool true) ;;
     update_status "NEB_path_001" "neb_steps_taken" (JInt 12)) s.
Proof.
  apply (update_status_commutes "NEB_path_001" "neb_steps_taken"
           "initial_relax_complete" (JInt 12) (JBool true)
           (fresh_process
              {[ status_path "NEB_path_001" := JsonDoc (JObj DEFAULT_STATUS) ]})
           DEFAULT_STATUS).
  - reflexivity.
  - discriminate.
Defined.

(** A call of [update_status] that raises has changed nothing. *)
Lemma update_status_raises directory key value s e s' :
  update_status directory key value s = (Raise e, s') → s' = s.
Proof.
  unfold update_status. unfold mbind at 1, M_bind at 1.
  destruct (files s !! status_path directory) as [f|] eqn:Hf.
  - rewrite (get_status_existing _ _ _ Hf).
    destruct (json_load f) as [[v|]|e'] eqn:Hload.
    + destruct (fill_defaults _ v) as [status|] eqn:Hfill;
        [|by intros [= _ <-]].
      unfold assign. destruct status; run_M; by intros [= <-].
    + unfold assign. by run_M.
    + by intros [= _ <-].
  - rewrite (get_status_missing _ _ Hf). unfold assign. by run_M.
Qed.

(** X4: [update_status] touches no file but the record file of its
    directory, however it ends; and on a record file that holds a
    dictionary it prints nothing and leaves [DEFAULT_STATUS] alone. *)
Theorem update_status_frame directory key value s r s' :
  update_status directory key value s = (r, s') →
  (∀ p, p ≠ status_path directory → files s' !! p = files s !! p)
  ∧ (∀ m, files s !! status_path directory = Some (JsonDoc (JObj m)) →
          default_status s' = default_status s ∧ log s' = log s).
Proof.
  intros Hup. split.
  - destruct r as [[]|e].
    + destruct (update_status_returns _ _ _ _ _ Hup) as (rec & -> & _).
      intros p Hp. by rewrite lookup_insert_ne.
    + by rewrite (update_status_raises _ _ _ _ _ _ Hup).
  - intros m Hm. rewrite (update_status_dict _ _ _ _ _ Hm) in Hup.
    by injection Hup as <- <-.
Qed.

Lemma update_status_frame_witness :
  let s := fresh_process
             {[ status_path "NEB_path_001" := JsonDoc (JObj DEFAULT_STATUS) ]} in
  let s' := (update_status "NEB_path_001" "neb_steps_taken" (JInt 12) s).2 in
  (∀ p, p ≠ status_path "NEB_path_001" → files s' !! p = files s !! p)
  ∧ (∀ m, files s !! status_path "NEB_path_001" = Some (JsonDoc (JObj m)) →
          default_status s' = default_status s ∧ log s' = log s).
Proof.
  apply (update_status_frame "NEB_path_001" "neb_steps_taken" (JInt 12)
           (fresh_process
              {[ status_path "NEB_path_001" := JsonDoc (JObj DEFAULT_STATUS) ]})
           (Ok ())).
  reflexivity.
Defined.
End StatusManagerMore.

(** ** More on the hops returned *)

Section PathfinderMore.
Import Pathfinder.
Local Open Scope nat_scope.
Implicit Types (cs : list candidate) (c : candidate).

Variable equivalent_atoms_of : Struct → result (list nat).
Variable get_neighbors : Struct → site → Q → list neighbor.

(** The value returned, from the candidates of the traversal. *)
Lemma find_unique_hops_candidates structure elem r prec :
  (find_unique_hops equivalent_atoms_of get_neighbors structure elem r
     prec).2
  = match candidates equivalent_atoms_of get_neighbors structure elem r
            prec with
    | Ok cs => Ok (fst <$> first_seen cs)
    | Raise e => Raise e
    end.
Proof.
  unfold find_unique_hops, candidates.
  destruct (equivalent_atoms_of structure) as [ea|e]; [|done].
  fold (migrating_indices structure elem).
  destruct (migrating_indices structure elem) as [|i idxs] eqn:Hidx;
    [done|].
  cbv zeta. unfold snd at 1.
  rewrite foldl_visit_start, foldl_keep_unseen_collect.
  destruct (collect _) as [l|e]; [|done].
  by rewrite foldl_keep_unseen_first_seen.
Qed.

Lemma collect_elem_of {A} (rs : list (result A)) l a :
  collect rs = Ok l → a ∈ l → Ok a ∈ rs.
Proof.
  revert l. induction rs as [|[b|e] rs IH]; intros l; simpl.
  - intros [= <-] Hin. by apply elem_of_nil in Hin.
  - destruct (collect rs) as [l'|]; [|done]. intros [= <-] Hin.
    apply elem_of_cons in Hin as [->|Hin]; [left|right; eauto].
  - done.
Qed.

Lemma elem_of_migrating_indices structure elem i :
  i ∈ migrating_indices structure elem ↔
  ∃ origin, structure !! i = Some origin ∧ specie origin = elem.
Proof.
  unfold migrating_indices. rewrite list_elem_of_omap. split.
  - intros ([j x] & Hjx & Hsome).
    apply elem_of_lookup_imap_1 in Hjx as (j' & y & Heq & Hy).
    injection Heq as Hj Hxy. subst j' y.
    destruct (String.eqb_spec (specie x) elem); [|done].
    injection Hsome as ->. eauto.
  - intros (origin & Hy & Hsp). exists (i, origin). split.
    + by apply elem_of_lookup_imap_2.
    + rewrite Hsp, String.eqb_refl. done.
Qed.

(** Where a candidate comes from. *)
Lemma elem_of_candidates structure elem r prec cs c :
  candidates equivalent_atoms_of get_neighbors structure elem r prec
  = Ok cs →
  c ∈ cs →
  ∃ origin nb equivalent_atoms a b,
    structure !! c.1.1 = Some origin ∧ specie origin = elem
    ∧ nb ∈ get_neighbors structure origin r
    ∧ index nb = c.1.2 ∧ neighbor_symbol nb = elem
    ∧ equivalent_atoms_of structure = Ok equivalent_atoms
    ∧ equivalent_atoms !! c.1.1 = Some a
    ∧ equivalent_atoms !! c.1.2 = Some b
    ∧ c.2 = make_hop_type a b (nn_distance nb) prec.
Proof.
  unfold candidates.
  destruct (equivalent_atoms_of structure) as [ea|e]; [|done].
  intros Hcs Hc. pose proof (collect_elem_of _ _ _ Hcs Hc) as Hrc.
  apply list_elem_of_bind in Hrc as (i & Hrc & Hi).
  apply elem_of_migrating_indices in Hi as (origin & Hy & Hsp).
  unfold origin_outcomes in Hrc. rewrite Hy in Hrc.
  apply list_elem_of_fmap in Hrc as (nb & Heq & Hin).
  apply list_elem_of_In, filter_In in Hin as [Hin%list_elem_of_In Hmig].
  unfold is_migrating in Hmig. apply String.eqb_eq in Hmig.
  unfold visit_outcome in Heq.
  destruct (ea !! i) as [a|] eqn:Ha; [|done].
  destruct (ea !! index nb) as [b|] eqn:Hb; [|done].
  injection Heq as ->. simpl. exists origin, nb, ea, a, b. eauto 12.
Qed.

(** X5: every hop returned starts at a site of the migrating species and
    ends at a neighbour of that site, of the migrating species, that the
    radius search returned for it; both indices are covered by the
    symmetry data. *)
Theorem find_unique_hops_sound structure elem r prec hops i j :
  (find_unique_hops equivalent_atoms_of get_neighbors structure elem r
     prec).2 = Ok hops →
  (i, j) ∈ hops →
  ∃ origin nb equivalent_atoms,
    structure !! i = Some origin ∧ specie origin = elem
    ∧ nb ∈ get_neighbors structure origin r
    ∧ index nb = j ∧ neighbor_symbol nb = elem
    ∧ equivalent_atoms_of structure = Ok equivalent_atoms
    ∧ is_Some (equivalent_atoms !! i)
    ∧ is_Some (equivalent_atoms !! j).
Proof.
  rewrite find_unique_hops_candidates.
  destruct (candidates _ _ _ _ _ _) as [cs|e] eqn:Hcs; [|done].
  intros [= <-] Hin.
  apply list_elem_of_fmap in Hin as (c & Hc1 & Hc%first_seen_subseteq).
  destruct (elem_of_candidates _ _ _ _ _ _ Hcs Hc)
    as (origin & nb & ea & a & b & H1 & H2 & H3 & H4 & H5 & H6 & H7 & H8
        & _).
  rewrite <- Hc1 in *. simpl in *. exists origin, nb, ea. eauto 10.
Qed.

Lemma first_seen_sublist cs : first_seen cs `sublist_of` cs.
Proof.
  induction cs as [|c cs IH] using rev_ind; [done|].
  rewrite first_seen_snoc. apply sublist_app; [done|].
  destruct (decide _); [apply sublist_nil_l|done].
Qed.

Lemma first_seen_signatures cs :
  (list_to_set (snd <$> first_seen cs) : gset hop_type)
  = list_to_set (snd <$> cs).
Proof.
  apply set_eq. intros sig. rewrite !elem_of_list_to_set. split.
  - intros (c & -> & Hc)%list_elem_of_fmap.
    apply list_elem_of_fmap. eauto using first_seen_subseteq.
  - intros (c & -> & Hc)%list_elem_of_fmap.
    destruct (first_seen_covers _ _ Hc) as (c' & Hc' & <-).
    apply list_elem_of_fmap. eauto.
Qed.

(** X6: when the traversal raises nothing, one hop is returned for each
    signature that occurs among the candidates: as many hops as there are
    distinct signatures, taken from the candidates without reordering. *)
Theorem find_unique_hops_one_per_signature structure elem r prec cs :
  candidates equivalent_atoms_of get_neighbors structure elem r prec
  = Ok cs →
  ∃ hops,
    (find_unique_hops equivalent_atoms_of get_neighbors structure elem r
       prec).2 = Ok hops
    ∧ length hops = size (list_to_set (snd <$> cs) : gset hop_type)
    ∧ hops `sublist_of` (fst <$> cs).
Proof.
  intros Hcs. rewrite find_unique_hops_candidates, Hcs.
  eexists. split; [done|]. split.
  - rewrite <- first_seen_signatures, size_list_to_set
      by apply first_seen_NoDup.
    by rewrite !length_fmap.
  - apply fmap_sublist, first_seen_sublist.
Qed.

(** X7: the symmetry analysis comes first. When it raises, the exception
    leaves the function and nothing is printed, with or without a site of
    the migrating species. When it returns, then whatever it returns and
    whatever the radius search gives: without a site of the migrating
    species the function prints the error line and returns the empty
    list; with such a site it prints nothing. *)
Theorem find_unique_hops_no_migrating_site structure elem r prec :
  let found := find_unique_hops equivalent_atoms_of get_neighbors structure
                 elem r prec in
  (∀ e, equivalent_atoms_of structure = Raise e → found = ([], Raise e))
  ∧ (∀ equivalent_atoms,
       equivalent_atoms_of structure = Ok equivalent_atoms →
       (found = ([no_atoms_error elem], Ok [])
        ↔ ∀ origin, origin ∈ structure → specie origin ≠ elem)
       ∧ (found.1 = []
          ↔ ∃ origin, origin ∈ structure ∧ specie origin = elem)).
Proof.
  cbv zeta. unfold find_unique_hops.
  split; [by intros e ->|]. intros ea ->.
  fold (migrating_indices structure elem).
  destruct (migrating_indices structure elem) as [|i idxs] eqn:Hidx.
  - assert (Hnone : ∀ origin, origin ∈ structure → specie origin ≠ elem).
    { intros origin Hin Hsp.
      apply list_elem_of_lookup in Hin as [i Hi].
      assert (Hmem : i ∈ migrating_indices structure elem)
        by (apply elem_of_migrating_indices; eauto).
      rewrite Hidx in Hmem. by apply elem_of_nil in Hmem. }
    split; [done|]. split; [done|].
    intros (origin & Hin & Hsp). by destruct (Hnone origin).
  - assert (Hmem : i ∈ migrating_indices structure elem)
      by (rewrite Hidx; left).
    apply elem_of_migrating_indices in Hmem as (origin & Hi & Hsp).
    apply list_elem_of_lookup_2 in Hi.
    split; split; try done.
    + intros Hall. by destruct (Hall origin).
    + eauto.
Qed.

(** X8: when the symmetry data cover every site and every neighbour the
    radius search returns is a site of the structure, the function returns
    a list of hops (no [IndexError] arises), and both ends of every hop are
    indices of the structure. *)
Theorem find_unique_hops_returns_in_range structure elem r prec
    equivalent_atoms :
  equivalent_atoms_of structure = Ok equivalent_atoms →
  length structure ≤ length equivalent_atoms →
  (∀ origin nb, nb ∈ get_neighbors structure origin r →
                index nb < length structure) →
  ∃ hops,
    (find_unique_hops equivalent_atoms_of get_neighbors structure elem r
       prec).2 = Ok hops
    ∧ ∀ i j, (i, j) ∈ hops → i < length structure ∧ j < length structure.
Proof.
  intros Hea Hlen Hnb.
  destruct (candidates_in_range equivalent_atoms_of get_neighbors structure
              elem r prec equivalent_atoms Hea Hlen Hnb) as [cs Hcs].
  rewrite find_unique_hops_candidates, Hcs. eexists. split; [done|].
  intros i j Hin.
  apply list_elem_of_fmap in Hin as (c & Hc1 & Hc%first_seen_subseteq).
  destruct (elem_of_candidates _ _ _ _ _ _ Hcs Hc)
    as (origin & nb & ea & a & b & H1 & _ & H3 & H4 & _).
  rewrite <- Hc1 in *. simpl in *. split.
  - by apply lookup_lt_Some in H1.
  - rewrite <- H4. eauto.
Qed.
End PathfinderMore.

Section PathfinderMoreExamples.
Import Pathfinder.
Local Open Scope nat_scope.

Lemma find_unique_hops_sound_witness :
  let li := Site "Li" (0, 0, 0)%Q in
  let structure := [li; li; li] in
  let equivalent_atoms_of := λ _ : Struct, Ok [0; 0; 0] in
  let get_neighbors := λ (_ : Struct) (_ : site) (_ : Q),
    [Neighbor 3 1 "Li"; Neighbor (30049 # 10000) 2 "Li";
     Neighbor 2 0 "O"] in
  ∃ origin nb equivalent_atoms,
    structure !! 0 = Some origin ∧ specie origin = "Li"
    ∧ nb ∈ get_neighbors structure origin 7%Q
    ∧ index nb = 1 ∧ neighbor_symbol nb = "Li"
    ∧ equivalent_atoms_of structure = Ok equivalent_atoms
    ∧ is_Some (equivalent_atoms !! 0)
    ∧ is_Some (equivalent_atoms !! 1).
Proof.
  apply (find_unique_hops_sound (λ _, Ok [0; 0; 0])
           (λ _ _ _, [Neighbor 3 1 "Li"; Neighbor (30049 # 10000) 2 "Li";
                      Neighbor 2 0 "O"])
           [Site "Li" (0, 0, 0)%Q; Site "Li" (0, 0, 0)%Q;
            Site "Li" (0, 0, 0)%Q] "Li" 7%Q 2%Z [(0, 1)]).
  - vm_compute. reflexivity.
  - apply list_elem_of_In. simpl. left. reflexivity.
Defined.

Lemma find_unique_hops_one_per_signature_witness :
  let li := Site "Li" (0, 0, 0)%Q in
  let structure := [li; li; li] in
  let equivalent_atoms_of := λ _ : Struct, Ok [0; 0; 0] in
  let get_neighbors := λ (_ : Struct) (_ : site) (_ : Q),
    [Neighbor 3 1 "Li"; Neighbor (30049 # 10000) 2 "Li";
     Neighbor 2 0 "O"] in
  let cs := [((0, 1), make_hop_type 0 0 3 2);
             ((0, 2), make_hop_type 0 0 (30049 # 10000) 2);
             ((1, 1), make_hop_type 0 0 3 2);
             ((1, 2), make_hop_type 0 0 (30049 # 10000) 2);
             ((2, 1), make_hop_type 0 0 3 2);
             ((2, 2), make_hop_type 0 0 (30049 # 10000) 2)] in
  ∃ hops,
    (find_unique_hops equivalent_atoms_of get_neighbors structure "Li" 7%Q
       2%Z).2 = Ok hops
    ∧ length hops = size (list_to_set (snd <$> cs) : gset hop_type)
    ∧ hops `sublist_of` (fst <$> cs).
Proof.
  apply (find_unique_hops_one_per_signature (λ _, Ok [0; 0; 0])
           (λ _ _ _, [Neighbor 3 1 "Li"; Neighbor (30049 # 10000) 2 "Li";
                      Neighbor 2 0 "O"])
           [Site "Li" (0, 0, 0)%Q; Site "Li" (0, 0, 0)%Q;
            Site "Li" (0, 0, 0)%Q] "Li" 7%Q 2%Z).
  reflexivity.
Defined.

Lemma find_unique_hops_returns_in_range_witness :
  let li := Site "Li" (0, 0, 0)%Q in
  let structure := [li; li; li] in
  let equivalent_atoms_of := λ _ : Struct, Ok [0; 0; 0] in
  let get_neighbors := λ (_ : Struct) (_ : site) (_ : Q),
    [Neighbor 3 1 "Li"; Neighbor (30049 # 10000) 2 "Li";
     Neighbor 2 0 "O"] in
  ∃ hops,
    (find_unique_hops equivalent_atoms_of get_neighbors structure "Li" 7%Q
       2%Z).2 = Ok hops
    ∧ ∀ i j, (i, j) ∈ hops → i < length structure ∧ j < length structure.
Proof.
  apply (find_unique_hops_returns_in_range (λ _, Ok [0; 0; 0])
           (λ _ _ _, [Neighbor 3 1 "Li"; Neighbor (30049 # 10000) 2 "Li";
                      Neighbor 2 0 "O"])
           [Site "Li" (0, 0, 0)%Q; Site "Li" (0, 0, 0)%Q;
            Site "Li" (0, 0, 0)%Q] "Li" 7%Q 2%Z [0; 0; 0]).
  - reflexivity.
  - simpl. lia.
  - intros origin nb Hin. apply list_elem_of_In in Hin. simpl in Hin.
    destruct Hin as [<-|[<-|[<-|[]]]]; simpl; lia.
Defined.
End PathfinderMoreExamples.

(** ** What the relaxations return *)

Section ReadFacts.
Lemma ase_read_eq path s :
  ase_read path s = (read_structure (files s !! path), s).
Proof.
  unfold ase_read. run_M.
  destruct (files s !! path) as [[| | |frames]|]; try done.
  simpl. by destruct (list.last frames).
Qed.
End ReadFacts.

Section RelaxationOutcomes.
Import RelaxerStep.
Variable ext : collaborators.
Variable bulk_relax : Atoms → result (bool * Atoms).

(** X9: [run_vacancy_relaxation] lets no exception out. It returns atoms
    exactly when the file could be read and the relaxer reported
    convergence, and then the trajectory file holds the frames of that run;
    it changes no file but the trajectory, and not [DEFAULT_STATUS]. *)
Theorem run_vacancy_relaxation_outcome filename trajectory_file s :
  ∃ relaxed s',
    run_vacancy_relaxation ext filename trajectory_file s = (Ok relaxed, s')
    ∧ default_status s' = default_status s
    ∧ (∀ p, p ≠ trajectory_file → files s' !! p = files s !! p)
    ∧ ∀ relaxed_atoms,
        relaxed = Some relaxed_atoms ↔
        ∃ structure frames,
          read_structure (files s !! filename) = Ok structure
          ∧ relaxer_relax ext structure
            = Ran frames (Ok (true, relaxed_atoms))
          ∧ files s' = <[trajectory_file := Trajectory frames]> (files s).
Proof.
  unfold run_vacancy_relaxation. unfold mbind at 1, M_bind at 1.
  unfold emit at 1. unfold mbind at 1, M_bind at 1. unfold catch.
  unfold mbind at 1, M_bind at 1. unfold print at 1, emit at 1.
  unfold mbind at 1, M_bind at 1. rewrite ase_read_eq. simpl.
  destruct (read_structure (files s !! filename)) as [structure|e] eqn:Hread.
  - unfold relax. unfold mbind at 1, M_bind at 1.
    destruct (relaxer_relax ext structure) as [e|frames [[[] a]|e]] eqn:Hrel;
      run_M; eexists _, _; (split; [reflexivity|]); simpl;
      (split; [done|]); split;
      try (intros p Hp; by rewrite ?lookup_insert_ne);
      try done; intros relaxed_atoms; split;
      try (intros [= <-]; eauto);
      try (intros (st & fr & [= <-] & Hr & _); rewrite Hrel in Hr;
           by simplify_eq);
      try done.
  - run_M. eexists _, _. split; [reflexivity|]. simpl.
    split; [done|]. split; [done|]. intros relaxed_atoms. split; [done|].
    by intros (st & fr & ? & _).
Qed.

(** X10: [run_bulk_relaxation] lets no exception out and writes no file.
    It returns the atoms of the relaxer whenever the file could be read and
    the relaxer returned, converged or not; it returns [None] only when
    reading or relaxing raised. *)
Theorem run_bulk_relaxation_outcome filename s :
  ∃ relaxed s',
    run_bulk_relaxation bulk_relax filename s = (Ok relaxed, s')
    ∧ default_status s' = default_status s
    ∧ files s' = files s
    ∧ ∀ relaxed_atoms,
        relaxed = Some relaxed_atoms ↔
        ∃ structure converged,
          read_structure (files s !! filename) = Ok structure
          ∧ bulk_relax structure = Ok (converged, relaxed_atoms).
Proof.
  unfold run_bulk_relaxation. unfold mbind at 1, M_bind at 1.
  unfold emit at 1. unfold mbind at 1, M_bind at 1. unfold catch.
  unfold mbind at 1, M_bind at 1. rewrite ase_read_eq. simpl.
  destruct (read_structure (files s !! filename)) as [structure|e] eqn:Hread.
  - destruct (bulk_relax structure) as [[[] a]|e] eqn:Hrel;
      run_M;
      eexists _, _; (split; [reflexivity|]); simpl;
      (split; [done|]); (split; [done|]); intros relaxed_atoms; split;
      try (intros [= <-]; eauto);
      try (intros (st & c & [= <-] & Hr); rewrite Hrel in Hr;
           by simplify_eq);
      try done.
  - run_M. eexists _, _. split; [reflexivity|]. simpl.
    split; [done|]. split; [done|]. intros relaxed_atoms. split; [done|].
    by intros (st & c & ? & _).
Qed.
End RelaxationOutcomes.

(** ** More on what [run_neb_calculation] returns *)

Section NebOutcomes.
Import NebStep.
Local Open Scope Z_scope.
Variable ext : collaborators.
Variable max_steps : Z.

(** X11: [run_neb_calculation] lets no exception out: it always returns
    the dictionary of results. In it the keys ["neb_converged"] and
    ["climb_converged"] are [False]; ["prefactor_ok"] is set exactly when a
    prefactor is stored, and only after ["analysis_ok"]; ["analysis_ok"] is
    set only when a barrier is stored. *)
Theorem run_neb_calculation_returns initial_path final_path
    optimized_initial_path directory num_images s :
  ∃ r s',
    run_neb_calculation ext initial_path final_path optimized_initial_path
      directory num_images max_steps s = (Ok r, s')
    ∧ neb_converged r = false ∧ climb_converged r = false
    ∧ (prefactor_ok r = true ↔ is_Some (prefactor_THz r))
    ∧ (prefactor_ok r = true → analysis_ok r = true)
    ∧ (analysis_ok r = true → is_Some (barrier_eV r)).
Proof.
  unfold run_neb_calculation, try_stages.
  unfold mbind, M_bind, catch. simpl.
  repeat match goal with
  | |- context [match ?c ?st with _ => _ end] =>
      lazymatch c with
      | standard_stage _ _ _ _ _ _ => destruct (c st) as [[[[] ?]|?] ?]
      | climbing_stage _ _ _ _ => destruct (c st) as [[[[] ?]|?] ?]
      | read_barrier _ _ _ => destruct (c st) as [[[? ?]|?] ?]
      | write_saddle _ _ _ _ => destruct (c st) as [[?|?] ?]
      | calculate_prefactor _ _ _ _ => destruct (c st) as [[[?|]|?] ?]
      end; simpl
  end.
  all: unfold mret, M_ret; eexists _, _; (split; [reflexivity|]); simpl.
  all: repeat split; try done; eauto; try by intros [? ?].
Qed.

Lemma bind_raise_run {A B} (c : M A) (f : A → M B) s e s1 :
  c s = (Raise e, s1) → (c ≫= f) s = (Raise e, s1).
Proof. intros H. unfold mbind, M_bind. by rewrite H. Qed.

(** The loop on a list in which the configurations before [params] give up
    and [params] raises: the exception leaves the loop. *)
Lemma attempts_raise climb images traj_path pre :
  ∀ params post e i s,
  Forall (gives_up ext climb images max_steps) pre →
  raises_in ext climb images max_steps params e →
  ∃ s1 evs,
    attempts ext climb images traj_path max_steps i
      (pre ++ params :: post) s
    = (Raise e, s1)
    ∧ log s1 = log s ++ evs ∧ attempted evs = pre ++ [params].
Proof.
  induction pre as [|p pre IH]; intros params post e i s Hall Hraise.
  - simpl. unfold run_attempt.
    destruct Hraise as [Hrun|[frames Hrun]]; rewrite Hrun; run_M;
      eexists _, _; (split; [reflexivity|]); simpl;
      rewrite <- !(assoc_L (++)); (split; [reflexivity|]);
      by destruct params.
  - apply list.Forall_cons in Hall as [Hp Hrest]. simpl app.
    destruct (attempts_cons_gives_up ext climb images traj_path max_steps
                p (pre ++ params :: post) i s Hp)
      as (s1 & evs1 & -> & Hlog1 & Hatt1).
    destruct (IH params post e (S i) s1 Hrest Hraise)
      as (s2 & evs2 & -> & Hlog2 & Hatt2).
    exists s2, (evs1 ++ evs2). split; [done|].
    rewrite Hlog2, Hlog1, attempted_app, Hatt1, Hatt2.
    by rewrite (assoc_L (++)).
Qed.

(** X12: an exception in an attempt of the standard stage ends the stage:
    the configurations after it are not tried, the error line is the last
    line printed, and the results returned are the initial ones, with
    ["neb_steps"] at 0 whatever the earlier attempts used up. *)
Theorem run_neb_calculation_attempt_raises initial_path final_path
    optimized_initial_path directory num_images s initial final
    pre params post e :
  let images := [initial] ++ replicate num_images initial ++ [final] in
  read_structure (files s !! initial_path) = Ok initial →
  read_structure (files s !! final_path) = Ok final →
  optimizers_to_try = pre ++ params :: post →
  Forall (gives_up ext false images max_steps) pre →
  raises_in ext false images max_steps params e →
  ∃ s', run_neb_calculation ext initial_path final_path
          optimized_initial_path directory num_images max_steps s
        = (Ok initial_results, s')
        ∧ attempted (drop (length (log s)) (log s')) = pre ++ [params]
        ∧ list.last (log s') = Some (Print (error_line directory e)).
Proof.
  intros images Hi Hf Hsplit Hall Hraise.
  set (s0 := State (default_status s) (files s)
               (log s ++ [Called "run_neb_calculation" directory;
                          Print ("  > Setting up Standard NEB in '"
                                   +:+ directory +:+ "'...")])).
  destruct (attempts_raise false images (os_path_join directory "neb.traj")
              pre params post e 0%nat s0 Hall Hraise)
    as (s1 & evs & Hrun & Hlog & Hatt).
  assert (Hi0 : ase_read initial_path s0 = (Ok initial, s0))
    by (rewrite ase_read_eq; simpl; by rewrite Hi).
  assert (Hf0 : ase_read final_path s0 = (Ok final, s0))
    by (rewrite ase_read_eq; simpl; by rewrite Hf).
  unfold run_neb_calculation, try_stages, standard_stage, run_with_fallback.
  unfold mbind at 1, M_bind at 1. simpl.
  unfold mbind at 1, M_bind at 1. unfold catch.
  unfold mbind at 1, M_bind at 1. simpl.
  rewrite <- (assoc_L (++)). simpl. fold s0.
  rewrite (bind_run _ _ _ _ _ Hi0), (bind_run _ _ _ _ _ Hf0).
  rewrite <- Hsplit in Hrun.
  rewrite (bind_raise_run _ _ _ _ _ Hrun). run_M.
  eexists. split; [reflexivity|]. simpl. split.
  - rewrite Hlog. simpl. rewrite <- !(assoc_L (++)).
    rewrite drop_app_length. simpl.
    rewrite !attempted_app, Hatt. simpl. apply app_nil_r.
  - apply last_snoc.
Qed.

(** X13: when an endpoint trajectory cannot be read, no optimizer is run:
    the function prints the error line and returns the initial results,
    with ["neb_steps"] at 0, and no file has changed. *)
Theorem run_neb_calculation_unreadable_endpoint initial_path final_path
    optimized_initial_path directory num_images s e :
  read_structure (files s !! initial_path) = Raise e
  ∨ (∃ initial, read_structure (files s !! initial_path) = Ok initial
                ∧ read_structure (files s !! final_path) = Raise e) →
  run_neb_calculation ext initial_path final_path optimized_initial_path
    directory num_images max_steps s
  = (Ok initial_results,
     State (default_status s) (files s)
       (log s ++ [Called "run_neb_calculation" directory;
                  Print ("  > Setting up Standard NEB in '"
                           +:+ directory +:+ "'...");
                  Print (error_line directory e)])).
Proof.
  intros Hread.
  unfold run_neb_calculation, try_stages, standard_stage.
  unfold mbind at 1, M_bind at 1. simpl.
  unfold mbind at 1, M_bind at 1. unfold catch.
  unfold mbind at 1, M_bind at 1. simpl.
  unfold mbind at 1, M_bind at 1. rewrite ase_read_eq. simpl.
  destruct Hread as [->|(initial & -> & Hf)].
  - run_M. by rewrite <- !(assoc_L (++)).
  - unfold mbind at 1, M_bind at 1. rewrite ase_read_eq. simpl.
    rewrite Hf. run_M. by rewrite <- !(assoc_L (++)).
Qed.
End NebOutcomes.

(** ** Invariants of the per-path workflow *)

Section Keeps.
Variable I : state → Prop.
Hypothesis I_log : ∀ s e,
  I s → I (State (default_status s) (files s) (log s ++ [e])).

Lemma keeps_unchanged {A} (c : M A) :
  (∀ s, ∃ r, c s = (r, s)) → keeps I c.
Proof.
  intros Hc s r s' Hrun. destruct (Hc s) as [r' Hr]. rewrite Hr in Hrun.
  by injection Hrun as _ <-.
Qed.

Lemma keeps_ret {A} (a : A) : keeps I (mret a).
Proof. apply keeps_unchanged. intros s. by eexists. Qed.

Lemma keeps_raise {A} e : keeps I (raise e : M A).
Proof. apply keeps_unchanged. intros s. by eexists. Qed.

Lemma keeps_lift {A} (r : result A) : keeps I (lift r).
Proof. apply keeps_unchanged. intros s. by eexists. Qed.

Lemma keeps_read_file path : keeps I (read_file path).
Proof.
  apply keeps_unchanged. intros s. unfold read_file.
  destruct (files s !! path); by eexists.
Qed.

Lemma keeps_os_path_exists path : keeps I (os_path_exists path).
Proof. apply keeps_unchanged. intros s. by eexists. Qed.

Lemma keeps_load_ref r : keeps I (load_ref r).
Proof. apply keeps_unchanged. intros s. by eexists. Qed.

Lemma keeps_bind {A B} (c : M A) (f : A → M B) :
  keeps I c → (∀ a, keeps I (f a)) → keeps I (c ≫= f).
Proof.
  intros Hc Hf s r s' Hrun HI. unfold mbind, M_bind in Hrun.
  destruct (c s) as [[a|e] s1] eqn:Hcs.
  - eapply Hf; [done|]. by eapply Hc.
  - injection Hrun as <- <-. by eapply Hc.
Qed.

Lemma keeps_catch {A} (c : M A) : keeps I c → keeps I (catch c).
Proof.
  intros Hc s r s' Hrun. unfold catch in Hrun.
  destruct (c s) as [r1 s1] eqn:Hcs. injection Hrun as <- <-.
  by eapply Hc.
Qed.

Lemma keeps_emit e : keeps I (emit e).
Proof. intros s r s' [= <- <-]. apply I_log. Qed.

Lemma keeps_print line : keeps I (print line).
Proof. apply keeps_emit. Qed.

Lemma keeps_ase_read path : keeps I (ase_read path).
Proof.
  apply keeps_unchanged. intros s. rewrite ase_read_eq. by eexists.
Qed.

Lemma keeps_ase_read_last path n : keeps I (ase_read_last path n).
Proof.
  apply keeps_unchanged. intros s. unfold ase_read_last. run_M.
  destruct (files s !! path) as [[| | |]|]; by eexists.
Qed.
End Keeps.

Ltac keeps_step :=
  lazymatch goal with
  | |- keeps _ (mbind _ _) => apply keeps_bind; [|intros ?]
  | |- keeps _ (mret _) => apply keeps_ret
  | |- keeps _ (raise _) => apply keeps_raise
  | |- keeps _ (lift _) => apply keeps_lift
  | |- keeps _ (catch _) => apply keeps_catch
  | |- keeps _ (print _) => by apply keeps_print
  | |- keeps _ (emit _) => by apply keeps_emit
  | |- keeps _ (read_file _) => apply keeps_read_file
  | |- keeps _ (os_path_exists _) => apply keeps_os_path_exists
  | |- keeps _ (load_ref _) => apply keeps_load_ref
  | |- keeps _ (ase_read _) => apply keeps_ase_read
  | |- keeps _ (ase_read_last _ _) => apply keeps_ase_read_last
  | |- keeps _ (match ?x with _ => _ end) => destruct x
  end.

Ltac keeps_auto := repeat (keeps_step; try done).

(** The prefactor stage keeps what is kept by printing and by the writes
    of its summaries and of its caches. *)
Section KeepsPrefactor.
Import PrefactorStep.
Variable float : Type.
Variable is_zero : float → bool.
Variable fmul fdiv : float → float → float.
Variable cm_to_thz : float.
Variable format_4f : float → string.
Variable vib_run :
  Atoms → string → gmap string file → list (string * file) * result ().
Variable vib_summary :
  Atoms → string → gmap string file → string * result ().
Variable vib_get_frequencies :
  Atoms → string → gmap string file → result (list float).

Local Abbreviation get_frequencies_as_reals :=
  (get_frequencies_as_reals float vib_run vib_summary vib_get_frequencies).

Lemma keeps_write_cache (I : state → Prop) vib_dir_name written :
  (∀ label f, keeps I (write_file (cache_path vib_dir_name label) f)) →
  keeps I (write_cache vib_dir_name written).
Proof.
  intros Hwrite. induction written as [|[label f] written IH]; simpl.
  - apply keeps_unchanged. intros s. by eexists.
  - apply keeps_bind; [apply Hwrite|by intros _].
Qed.

Lemma keeps_current_files (I : state → Prop) : keeps I current_files.
Proof. apply keeps_unchanged. intros s. by eexists. Qed.

(** One analysis keeps what is kept by printing and by the writes of its
    summary and of its cache. *)
Lemma keeps_get_frequencies_as_reals (I : state → Prop) atoms_path
    vib_dir_name summary_file_path :
  (∀ s e, I s → I (State (default_status s) (files s) (log s ++ [e]))) →
  (∀ f, keeps I (write_file summary_file_path f)) →
  (∀ label f, keeps I (write_file (cache_path vib_dir_name label) f)) →
  keeps I
    (get_frequencies_as_reals atoms_path vib_dir_name summary_file_path).
Proof.
  intros Hlog Hsummary Hcache.
  unfold PrefactorStep.get_frequencies_as_reals.
  repeat first
    [ apply keeps_current_files
    | by apply keeps_write_cache
    | apply Hsummary
    | keeps_step; try done ].
Qed.

Lemma keeps_calculate_prefactor_body (I : state → Prop)
    initial_state_path saddle_state_path directory :
  (∀ s e, I s → I (State (default_status s) (files s) (log s ++ [e]))) →
  (∀ f, keeps I (write_file (os_path_join directory "initial_vib.dat") f)) →
  (∀ f, keeps I (write_file (os_path_join directory "saddle_vib.dat") f)) →
  (∀ label f,
     keeps I (write_file
                (cache_path (os_path_join directory "vib_initial") label)
                f)) →
  (∀ label f,
     keeps I (write_file
                (cache_path (os_path_join directory "vib_saddle") label)
                f)) →
  keeps I
    (calculate_prefactor float is_zero fmul fdiv cm_to_thz format_4f
       vib_run vib_summary vib_get_frequencies initial_state_path
       saddle_state_path directory).
Proof.
  intros Hlog Hs1 Hs2 Hc1 Hc2. unfold calculate_prefactor.
  repeat first
    [ by apply keeps_get_frequencies_as_reals
    | keeps_step; try done ].
Qed.
End KeepsPrefactor.

(** The stages of a task that do not touch the record file keep what the
    files they write leave alone. *)
Section KeepsFiles.
Variable ext : collaborators.
Variable I : state → Prop.
Variable directory : string.
Hypothesis I_log : ∀ s e,
  I s → I (State (default_status s) (files s) (log s ++ [e])).
Hypothesis I_write : ∀ name f,
  name ≠ STATUS_FILENAME → String.prefix "/" name = false →
  keeps I (write_file (os_path_join directory name) f).

Lemma keeps_run_vacancy_relaxation filename name :
  name ≠ STATUS_FILENAME → String.prefix "/" name = false →
  keeps I (RelaxerStep.run_vacancy_relaxation ext filename
             (os_path_join directory name)).
Proof.
  intros. unfold RelaxerStep.run_vacancy_relaxation, RelaxerStep.relax.
  keeps_auto; by apply I_write.
Qed.

Import NebStep.

Lemma keeps_attempts climb images name max_steps to_try : ∀ i,
  name ≠ STATUS_FILENAME → String.prefix "/" name = false →
  keeps I (attempts ext climb images (os_path_join directory name)
             max_steps i to_try).
Proof.
  induction to_try as [|params rest IH]; intros i ? ?; simpl.
  - keeps_auto.
  - unfold run_attempt. keeps_auto; [by apply I_write | by apply IH].
Qed.

Lemma keeps_run_neb_calculation initial_path final_path
    optimized_initial_path num_images max_steps :
  keeps I (run_neb_calculation ext initial_path final_path
             optimized_initial_path directory num_images max_steps).
Proof.
  assert (Hprefactor : ∀ initial_state_path saddle_state_path,
    keeps I (calculate_prefactor ext initial_state_path saddle_state_path
               directory)).
  { intros. unfold calculate_prefactor.
    apply keeps_bind; [by apply keeps_emit|]. intros _.
    apply keeps_calculate_prefactor_body; try done.
    - intros f. by apply I_write.
    - intros f. by apply I_write.
    - intros label f. rewrite cache_path_join by done. by apply I_write.
    - intros label f. rewrite cache_path_join by done. by apply I_write. }
  unfold run_neb_calculation, try_stages, standard_stage, climbing_stage,
    read_barrier, write_saddle, run_with_fallback.
  keeps_auto;
    try (by apply keeps_attempts);
    try (by apply I_write);
    try apply Hprefactor;
    apply keeps_unchanged; intros s; by eexists.
Qed.

Import IoStep.

Lemma keeps_status_item status k : keeps I (status_item status k).
Proof. unfold status_item. keeps_auto. Qed.

Lemma keeps_create_endpoints pristine mig vac :
  keeps I (create_endpoints pristine mig vac directory).
Proof. unfold create_endpoints. keeps_auto; by apply I_write. Qed.
End KeepsFiles.

(** The whole of a task keeps what, besides, reading the record and the
    updates of the workflow keep. *)
Section KeepsWorkflow.
Variable ext : collaborators.
Variable I : state → Prop.
Variable directory : string.
Hypothesis I_log : ∀ s e,
  I s → I (State (default_status s) (files s) (log s ++ [e])).
Hypothesis I_write : ∀ name f,
  name ≠ STATUS_FILENAME → String.prefix "/" name = false →
  keeps I (write_file (os_path_join directory name) f).
Hypothesis I_get_status : keeps I (get_status directory).
Hypothesis I_update_status : ∀ k v,
  workflow_update k v → keeps I (update_status directory k v).

Import IoStep.

Lemma keeps_reread_item k : keeps I (reread_item directory k).
Proof.
  unfold reread_item. keeps_auto. by apply keeps_status_item.
Qed.

Lemma keeps_relax_endpoint which status :
  which = "initial" ∨ which = "final" →
  keeps I (relax_endpoint ext which status directory).
Proof.
  intros Hwhich. unfold relax_endpoint.
  assert (Hupd : keeps I (update_status directory
                            (which +:+ "_relax_complete") (JBool true))).
  { apply I_update_status. left. split; [|done].
    destruct Hwhich as [-> | ->]; unfold completion_flags; set_solver. }
  assert (Hrun : keeps I (RelaxerStep.run_vacancy_relaxation ext
                      (os_path_join directory ("POSCAR_" +:+ which))
                      (os_path_join directory (which +:+ ".traj")))).
  { apply keeps_run_vacancy_relaxation; try done;
      by destruct Hwhich as [-> | ->]. }
  assert (Hwrite : ∀ f, keeps I (write_file
              (os_path_join directory ("POSCAR_optimized_" +:+ which)) f)).
  { intros f. apply I_write; by destruct Hwhich as [-> | ->]. }
  keeps_auto. by apply keeps_status_item.
Qed.

Lemma keeps_run_neb_and_record num_images max_steps :
  keeps I (run_neb_and_record ext directory num_images max_steps).
Proof.
  unfold run_neb_and_record.
  keeps_auto; try (by apply keeps_run_neb_calculation);
    apply I_update_status; unfold workflow_update, completion_flags;
    [right; left | right; left | left | right; right | left | right; right];
    (split; [set_solver|]); eauto.
Qed.

Lemma keeps_neb_step status num_images max_steps :
  keeps I (neb_step ext status directory num_images max_steps).
Proof.
  unfold neb_step.
  keeps_auto; try apply keeps_reread_item;
    try (by apply keeps_status_item);
    by apply keeps_run_neb_and_record.
Qed.

(** What follows the first read of the record in
    [manage_path_calculations]. *)
Lemma keeps_stages pristine mig vac status num_images max_steps :
  keeps I (create_endpoints pristine mig vac directory;;
           relax_endpoint ext "initial" status directory;;
           relax_endpoint ext "final" status directory;;
           neb_step ext status directory num_images max_steps).
Proof.
  keeps_auto.
  - by apply keeps_create_endpoints.
  - apply keeps_relax_endpoint. by left.
  - apply keeps_relax_endpoint. by right.
  - apply keeps_neb_step.
Qed.
End KeepsWorkflow.

Section KeepsTask.
Import IoStep.
Variable ext : collaborators.

(** A task keeps [I] when, for its directory, [I] is kept by the writes
    of files, the reads of the record and the updates of the workflow. *)
Lemma keeps_manage_path_calculations (I : state → Prop) pristine mig vac
    path_num num_images max_steps :
  let dir := format_dir_name ext pristine mig vac path_num in
  (∀ s e, I s → I (State (default_status s) (files s) (log s ++ [e]))) →
  (∀ name f, name ≠ STATUS_FILENAME → String.prefix "/" name = false →
             keeps I (write_file (os_path_join dir name) f)) →
  keeps I (get_status dir) →
  (∀ k v, workflow_update k v → keeps I (update_status dir k v)) →
  keeps I (manage_path_calculations ext pristine mig vac path_num
             num_images max_steps).
Proof.
  intros dir Hlog Hwrite Hget Hupd s r s' Hrun HI.
  unfold manage_path_calculations in Hrun.
  unfold mbind at 1, M_bind at 1, make_dir_name in Hrun.
  case_bool_decide.
  - revert Hrun HI. fold dir. apply keeps_bind; [by apply keeps_print|].
    intros _. apply keeps_bind; [done|]. intros status.
    by apply keeps_stages.
  - by injection Hrun as _ <-.
Qed.
End KeepsTask.

Section TaskInvariants.
Import IoStep.
Variable ext : collaborators.

Lemma get_status_keeps_default directory s r s' :
  get_status directory s = (r, s') → default_status s' = default_status s.
Proof.
  intros Hrun.
  destruct (files s !! status_path directory) as [f|] eqn:Hf.
  - rewrite (get_status_existing _ _ _ Hf) in Hrun.
    destruct (json_load f) as [[v|]|e]; by injection Hrun as _ <-.
  - rewrite (get_status_missing _ _ Hf) in Hrun. by injection Hrun as _ <-.
Qed.

(** A completion flag that is set stays set under what a task does in
    its directory. *)
Lemma flag_set_log dir key s e :
  flag_set dir key s →
  flag_set dir key (State (default_status s) (files s) (log s ++ [e])).
Proof. by apply flag_set_files. Qed.

Lemma flag_set_write dir key name f :
  name ≠ STATUS_FILENAME → String.prefix "/" name = false →
  keeps (flag_set dir key) (write_file (os_path_join dir name) f).
Proof.
  intros Hname Hrel st r0 st' [= <- <-].
  apply flag_set_files. simpl. apply lookup_insert_ne.
  intros Heq. by apply os_path_join_inj in Heq.
Qed.

Lemma flag_set_get_status dir key :
  keeps (flag_set dir key) (get_status dir).
Proof.
  intros st r0 st' Hrun.
  by apply (guarded_get_status (λ _, True) (λ _, True) dir key) in Hrun
    as (_ & _ & Hflag).
Qed.

Lemma flag_set_update_status dir key k v :
  key ∈ completion_flags → workflow_update k v →
  keeps (flag_set dir key) (update_status dir k v).
Proof.
  intros Hkey Hupd st r0 st' Hrun.
  apply (guarded_update_status (λ _, True) (λ _, True) dir key) in Hrun
    as (_ & _ & Hflag); try done.
  unfold workflow_update, completion_flags in *.
  destruct Hupd as [[_ ->]|[[Hk _]|[Hk _]]]; [by right|left|left];
    intros ->; set_solver.
Qed.

(** X14: a completion flag that is [True] in the record file of a task
    is still [True] there after [manage_path_calculations], whatever the
    libraries do and however the call ends. *)
Theorem manage_path_calculations_keeps_flags pristine mig vac path_num
    num_images max_steps key s r s' :
  let dir := format_dir_name ext pristine mig vac path_num in
  key ∈ completion_flags →
  manage_path_calculations ext pristine mig vac path_num num_images
    max_steps s = (r, s') →
  flag_set dir key s → flag_set dir key s'.
Proof.
  intros dir Hkey.
  apply (keeps_manage_path_calculations ext (flag_set dir key)).
  - apply flag_set_log.
  - apply flag_set_write.
  - apply flag_set_get_status.
  - intros k v. by apply flag_set_update_status.
Qed.

(** A task keeps what a path outside its directory holds. *)
Lemma keeps_outside_manage_path_calculations pristine mig vac path_num
    num_images max_steps p (x : option file) :
  (∀ name,
     String.prefix "/" name = false →
     p ≠ os_path_join (format_dir_name ext pristine mig vac path_num) name) →
  keeps (λ st, files st !! p = x)
    (manage_path_calculations ext pristine mig vac path_num num_images
       max_steps).
Proof.
  intros Hp.
  set (dir := format_dir_name ext pristine mig vac path_num) in *.
  apply keeps_manage_path_calculations; fold dir.
  - by intros st e.
  - intros name f Hname Hrel st r0 st' [= <- <-] HI. rewrite <- HI.
    simpl. apply lookup_insert_ne. intros Heq. by apply (Hp name).
  - intros st r0 st' Hget HI. rewrite <- HI.
    apply (guarded_get_status (λ _, True) (λ p', p' ≠ p) dir "") in Hget
      as (_ & Hframe & _); try done.
    + apply Hframe. by intros H.
    + intros Heq. by apply (Hp STATUS_FILENAME).
  - intros k v _ st r0 st' Hupd HI. rewrite <- HI.
    apply (update_status_effect (λ _, True) (λ p', p' ≠ p) dir) in Hupd
      as (_ & Hframe); try done.
    + apply Hframe. by intros H.
    + intros Heq. by apply (Hp STATUS_FILENAME).
Qed.

(** X15: [manage_path_calculations] changes no file outside the directory
    of its task: a path, relative or absolute, that does not begin with
    the name of the directory and the separator after it holds after the
    call what it held before, however the call ends. *)
Theorem manage_path_calculations_stays_inside pristine mig vac path_num
    num_images max_steps p s r s' :
  let dir := format_dir_name ext pristine mig vac path_num in
  String.prefix (join_prefix dir) p = false →
  manage_path_calculations ext pristine mig vac path_num num_images
    max_steps s = (r, s') →
  files s' !! p = files s !! p.
Proof.
  intros dir Hp Hrun.
  assert (Hout : ∀ name, String.prefix "/" name = false →
                         p ≠ os_path_join dir name).
  { intros name Hrel ->. unfold os_path_join in Hp. rewrite Hrel in Hp.
    by rewrite prefix_app in Hp. }
  by apply (keeps_outside_manage_path_calculations pristine mig vac
              path_num num_images max_steps p (files s !! p) Hout _ _ _
              Hrun).
Qed.

(** X16: [manage_path_calculations] never changes [DEFAULT_STATUS]: its
    updates go through a record read from a file that holds a
    dictionary. *)
Theorem manage_path_calculations_keeps_default pristine mig vac path_num
    num_images max_steps s r s' :
  manage_path_calculations ext pristine mig vac path_num num_images
    max_steps s = (r, s') →
  default_status s' = default_status s.
Proof.
  set (dir := format_dir_name ext pristine mig vac path_num).
  set (d := default_status s).
  set (I := λ st, default_status st = d ∧ record_dict dir st).
  assert (Hlog : ∀ st e,
    I st → I (State (default_status st) (files st) (log st ++ [e])))
    by (by intros st e [? ?]).
  assert (Hwrite : ∀ name f,
    name ≠ STATUS_FILENAME → String.prefix "/" name = false →
    keeps I (write_file (os_path_join dir name) f)).
  { intros name f Hname Hrel st r0 st' [= <- <-] [Hd [m Hm]].
    split; [done|]. exists m. simpl. rewrite lookup_insert_ne; [done|].
    intros Heq. by apply os_path_join_inj in Heq. }
  assert (Hget : keeps I (get_status dir)).
  { intros st r0 st' Hrun [Hd [m Hm]].
    rewrite (get_status_dict _ _ _ Hm) in Hrun. injection Hrun as _ <-.
    split; [done|by exists m]. }
  assert (Hupd : ∀ k v, keeps I (update_status dir k v)).
  { intros k v st r0 st' Hrun [Hd [m Hm]].
    rewrite (update_status_dict _ _ _ _ _ Hm) in Hrun.
    injection Hrun as _ <-. split; [done|]. eexists. simpl.
    apply lookup_insert_eq. }
  unfold manage_path_calculations.
  unfold mbind at 1, M_bind at 1, make_dir_name.
  case_bool_decide; [|by intros [= _ <-]].
  fold dir. unfold mbind at 1, M_bind at 1. simpl.
  set (s1 := State _ _ _). unfold mbind at 1, M_bind at 1.
  destruct (get_status dir s1) as [[status|e] s2] eqn:Hstatus;
    [|intros [= _ <-]; by apply get_status_keeps_default in Hstatus].
  assert (Hd2 : default_status s2 = d)
    by (by apply get_status_keeps_default in Hstatus).
  destruct (deref status s2) as [| | | | | |rec] eqn:Hderef.
  7: { destruct (get_status_leaves_record _ _ _ _ _ Hstatus Hderef)
         as (m & Hm & _).
       intros Hrun.
       destruct (keeps_stages ext I dir Hlog Hwrite Hget
                   (λ k v _, Hupd k v) _ _ _ _ _ _ _ _ _ Hrun) as [Hd' _];
         [split; [done|by exists m]|done]. }
  all: destruct status as [|v]; [done|]; simpl in Hderef; subst v.
  all: unfold mbind at 1, M_bind at 1.
  all: destruct (create_endpoints _ _ _ _ s2) as [[[]|e] s3] eqn:Hcreate.
  all: apply (keeps_create_endpoints (λ st, default_status st = d) dir)
         in Hcreate;
       [|done|intros name f _ _ st r0 st' [= <- <-]; done].
  all: unfold relax_endpoint, status_item; run_M.
  all: intros [= _ <-]; by apply Hcreate.
Qed.
End TaskInvariants.

Section EndpointFiles.
Import IoStep.
Local Open Scope nat_scope.

(** X17: [create_endpoints] writes an endpoint file only where none
    exists: every file that exists keeps its content. A missing
    [POSCAR_initial] is created with the vacancy structure, and when the
    step returns a missing [POSCAR_final] has been created with the final
    structure. No other path changes, and [DEFAULT_STATUS] is left alone. *)
Theorem create_endpoints_keeps_existing (pristine : Struct) mig vac dir
    s r s' :
  let initial_path := os_path_join dir "POSCAR_initial" in
  let final_path := os_path_join dir "POSCAR_final" in
  create_endpoints pristine mig vac dir s = (r, s') →
  (∀ p f, files s !! p = Some f → files s' !! p = Some f)
  ∧ (files s !! initial_path = None →
     files s' !! initial_path
     = Some (Poscar (initial_endpoint pristine vac)))
  ∧ (r = Ok () → files s !! final_path = None →
     ∃ final, final_endpoint pristine mig vac = Ok final
              ∧ files s' !! final_path = Some (Poscar final))
  ∧ (∀ p, p ≠ initial_path → p ≠ final_path →
          files s' !! p = files s !! p)
  ∧ default_status s' = default_status s.
Proof.
  intros initial_path final_path.
  assert (Hne : initial_path ≠ final_path).
  { intros Heq. apply os_path_join_inj in Heq; done. }
  unfold create_endpoints. fold initial_path final_path. run_M.
  destruct (files s !! initial_path) as [fi|] eqn:Hi; simpl;
    rewrite ?lookup_insert_ne by done;
    (destruct (files s !! final_path) as [ff|] eqn:Hf; simpl;
      [|destruct (final_endpoint pristine mig vac) as [final|e]]); simpl;
    intros [= <- <-]; simpl.
  all: repeat split; try done.
  all: try (intros p f Hp;
            destruct (decide (p = initial_path)) as [->|?];
            [congruence|];
            destruct (decide (p = final_path)) as [->|?];
            [congruence|];
            by rewrite ?lookup_insert_ne by done).
  all: try (intros p f Hp;
            destruct (decide (p = final_path)) as [->|?];
            [congruence|];
            by rewrite ?lookup_insert_ne by done).
  all: try (intros p f Hp;
            destruct (decide (p = initial_path)) as [->|?];
            [congruence|];
            by rewrite ?lookup_insert_ne by done).
  all: try (intros; by rewrite ?lookup_insert_ne by done).
  all: try (intros; rewrite ?lookup_insert_ne by done;
            by rewrite lookup_insert_eq).
  all: try (intros; eexists; split; [done|]; by rewrite lookup_insert_eq).
  all: try congruence.
Qed.

(** X18: for a hop from a site to itself (a periodic image of the origin)
    the final structure is not the initial one with the migrating atom
    moved: the site removed is the migrating atom, and the atom that
    followed it in the pristine structure is put on the vacancy. When the
    site is the last one of the structure the construction raises
    [IndexError]. *)
Theorem final_endpoint_same_site (pristine : Struct) i removed :
  pristine !! i = Some removed →
  match pristine !! S i with
  | Some next =>
      ∃ final,
        final_endpoint pristine i i = Ok final
        ∧ final !! i = Some (Site (specie next) (frac_coords removed))
        ∧ length final + 1 = length pristine
        ∧ ∀ k, k ≠ i → final !! k = initial_endpoint pristine i !! k
  | None => final_endpoint pristine i i = Raise IndexError
  end.
Proof.
  intros Hi. unfold final_endpoint, set_frac_coords, remove_site.
  rewrite Nat.ltb_irrefl, Hi, list_lookup_delete_ge by lia.
  destruct (pristine !! S i) as [next|] eqn:Hnext; [|done].
  eexists. split; [done|].
  assert (Hlen : length (delete i pristine) + 1 = length pristine).
  { pose proof (lookup_lt_Some _ _ _ Hi). rewrite length_delete by eauto.
    lia. }
  split; [|split].
  - apply list_lookup_insert_eq. apply lookup_lt_Some in Hnext. lia.
  - by rewrite length_insert.
  - intros k Hk. unfold initial_endpoint, remove_site.
    by rewrite list_lookup_insert_ne.
Qed.

Lemma final_endpoint_same_site_witness :
  let a := Site "Li" (0, 0, 0)%Q in
  let b := Site "O" (1 # 2, 0, 0)%Q in
  ∃ final,
    final_endpoint [a; b] 0 0 = Ok final
    ∧ final !! 0 = Some (Site "O" (0, 0, 0)%Q)
    ∧ length final + 1 = 2
    ∧ ∀ k, k ≠ 0 → final !! k = initial_endpoint [a; b] 0 !! k.
Proof.
  apply (final_endpoint_same_site
           [Site "Li" (0, 0, 0)%Q; Site "O" (1 # 2, 0, 0)%Q] 0
           (Site "Li" (0, 0, 0)%Q)).
  reflexivity.
Defined.
End EndpointFiles.

Section NebGate.
Import IoStep.
Variable ext : collaborators.

(** A read of one key from a record file that holds a dictionary. *)
Lemma reread_item_dict dir k s m v :
  files s !! status_path dir = Some (JsonDoc (JObj m)) →
  (m ∪ default_status s) !! k = Some v →
  reread_item dir k s = (Ok v, s).
Proof.
  intros Hm Hk. unfold reread_item. unfold mbind, M_bind.
  rewrite (get_status_dict _ _ _ Hm). unfold status_item. run_M.
  by rewrite Hk.
Qed.

(** Step 4 when a relaxation flag is not true in the record file. *)
Lemma neb_step_not_ready status dir num_images max_steps s m
    initial_done final_done :
  files s !! status_path dir = Some (JsonDoc (JObj m)) →
  (m ∪ default_status s) !! "initial_relax_complete" = Some initial_done →
  (m ∪ default_status s) !! "final_relax_complete" = Some final_done →
  py_truthy initial_done && py_truthy final_done = false →
  neb_step ext status dir num_images max_steps s
  = print "  > Skipping NEB calculation (endpoints not ready)." s.
Proof.
  intros Hm Hi Hf Hnot. unfold neb_step.
  rewrite (bind_run _ _ _ _ _ (reread_item_dict _ _ _ _ _ Hm Hi)).
  destruct (py_truthy initial_done) eqn:Hti.
  - rewrite (bind_run _ _ _ _ _ (reread_item_dict _ _ _ _ _ Hm Hf)).
    simpl in Hnot. by rewrite Hnot.
  - run_M. by rewrite Hti.
Qed.

(** X19: step 4 goes by the record file as it is then, not by the record
    read at the start of the call: when the file holds a dictionary in
    which, after the defaults are filled in, the first of the two
    relaxation flags or, that one being true, the second is not true, the
    step prints that the endpoints are not ready and does nothing else,
    whatever the record read at the start says. *)
Theorem neb_step_waits_for_endpoints status dir num_images max_steps s m
    initial_done final_done :
  files s !! status_path dir = Some (JsonDoc (JObj m)) →
  (m ∪ default_status s) !! "initial_relax_complete" = Some initial_done →
  (m ∪ default_status s) !! "final_relax_complete" = Some final_done →
  py_truthy initial_done && py_truthy final_done = false →
  neb_step ext status dir num_images max_steps s
  = (Ok (),
     State (default_status s) (files s)
       (log s ++ [Print "  > Skipping NEB calculation (endpoints not ready)."])).
Proof.
  intros Hm Hi Hf Hnot.
  by rewrite (neb_step_not_ready _ _ _ _ _ _ _ _ Hm Hi Hf Hnot).
Qed.
End NebGate.

Section NebGateExamples.
Import IoStep.

Lemma neb_step_waits_for_endpoints_witness :
  let record : gmap string json :=
    <["initial_relax_complete" := JBool true]> DEFAULT_STATUS in
  let s := fresh_process {[ status_path example_dir := JsonDoc (JObj record) ]} in
  neb_step failing_collaborators (Fresh (JObj relaxed_record)) example_dir 3
    5000 s
  = (Ok (),
     State (default_status s) (files s)
       (log s ++ [Print "  > Skipping NEB calculation (endpoints not ready)."])).
Proof.
  apply (neb_step_waits_for_endpoints failing_collaborators
           (Fresh (JObj relaxed_record)) example_dir 3 5000
           (fresh_process
              {[ status_path example_dir :=
                   JsonDoc (JObj (<["initial_relax_complete" := JBool true]>
                                    DEFAULT_STATUS)) ]})
           (<["initial_relax_complete" := JBool true]> DEFAULT_STATUS)
           (JBool true) (JBool false));
    reflexivity.
Defined.
End NebGateExamples.

(** ** The relaxation steps of a task *)

Section RelaxationSteps.
Import IoStep.
Variable ext : collaborators.

Lemma run_vacancy_relaxation_run filename trajectory_file s :
  ∃ evs,
    RelaxerStep.run_vacancy_relaxation ext filename trajectory_file s
    = (Ok (match vacancy_relaxation ext (files s !! filename) with
           | Some (_, relaxed) => relaxed
           | None => None
           end),
       State (default_status s)
         (match vacancy_relaxation ext (files s !! filename) with
          | Some (frames, _) =>
              <[trajectory_file := Trajectory frames]> (files s)
          | None => files s
          end)
         (log s ++ Called "run_vacancy_relaxation" filename :: evs))
    ∧ Forall is_print evs.
Proof.
  unfold RelaxerStep.run_vacancy_relaxation, vacancy_relaxation.
  unfold mbind at 1, M_bind at 1. unfold emit at 1.
  unfold mbind at 1, M_bind at 1. unfold catch.
  unfold mbind at 1, M_bind at 1. unfold print at 1, emit at 1.
  unfold mbind at 1, M_bind at 1. rewrite ase_read_eq. simpl.
  destruct (read_structure (files s !! filename)) as [structure|e].
  - unfold RelaxerStep.relax. unfold mbind at 1, M_bind at 1.
    destruct (relaxer_relax ext structure) as [e|frames [[[] a]|e]];
      run_M; rewrite <- !(assoc_L (++)); simpl; eexists;
      (split; [reflexivity|]); by repeat constructor.
  - run_M. rewrite <- !(assoc_L (++)). simpl. eexists.
    split; [reflexivity|]. by repeat constructor.
Qed.

(** Step 2 or 3 on a record whose flag is not true. *)
Lemma relax_endpoint_run which status dir s m v :
  which = "initial" ∨ which = "final" →
  files s !! status_path dir = Some (JsonDoc (JObj m)) →
  status_item status (which +:+ "_relax_complete") s = (Ok v, s) →
  py_truthy v = false →
  ∃ evs,
    relax_endpoint ext which status dir s
    = (Ok (),
       State (default_status s)
         (files_after_relaxation ext which dir m (default_status s)
            (files s))
         (log s ++ Called "run_vacancy_relaxation"
                     (os_path_join dir ("POSCAR_" +:+ which)) :: evs))
    ∧ Forall is_print evs.
Proof.
  intros Hwhich Hm Hitem Hv. unfold relax_endpoint.
  rewrite (bind_run _ _ _ _ _ Hitem), Hv. simpl.
  destruct (run_vacancy_relaxation_run
              (os_path_join dir ("POSCAR_" +:+ which))
              (os_path_join dir (which +:+ ".traj")) s)
    as (evs & Hrun & Hevs).
  rewrite (bind_run _ _ _ _ _ Hrun). unfold files_after_relaxation.
  destruct (vacancy_relaxation ext _) as [[frames [[|site0 sites]|]]|];
    try (exists evs; by destruct s).
  erewrite bind_run by reflexivity. erewrite bind_run by reflexivity.
  erewrite update_status_dict.
  - simpl. rewrite <- (assoc_L (++)). simpl. eexists.
    split; [reflexivity|].
    apply Forall_app. split; [done|]. by repeat constructor.
  - simpl. rewrite !lookup_insert_ne; [done| |];
      intros Heq; apply os_path_join_inj in Heq;
      by destruct Hwhich as [-> | ->].
Qed.

(** X20: step 2 (or 3) on a task whose record file holds a dictionary and
    whose flag is not true in the record read at the start: the step
    returns; if the relaxer ran, the trajectory file holds its frames; if
    it converged to a structure that is not empty, that structure is in
    the optimized file and the flag is [True] in the record file;
    otherwise the record file and the optimized file are as before. No
    other file changes, and [DEFAULT_STATUS] is left alone. *)
Theorem relax_endpoint_outcome which status dir s m v :
  let poscar := os_path_join dir ("POSCAR_" +:+ which) in
  let traj := os_path_join dir (which +:+ ".traj") in
  let optimized := os_path_join dir ("POSCAR_optimized_" +:+ which) in
  let flag := which +:+ "_relax_complete" in
  which = "initial" ∨ which = "final" →
  files s !! status_path dir = Some (JsonDoc (JObj m)) →
  status_item status flag s = (Ok v, s) →
  py_truthy v = false →
  ∃ s',
    relax_endpoint ext which status dir s = (Ok (), s')
    ∧ default_status s' = default_status s
    ∧ (∀ p, p ≠ traj → p ≠ optimized → p ≠ status_path dir →
            files s' !! p = files s !! p)
    ∧ match vacancy_relaxation ext (files s !! poscar) with
      | Some (frames, relaxed) =>
          files s' !! traj = Some (Trajectory frames)
          ∧ match relaxed with
            | Some (site0 :: sites) =>
                files s' !! optimized = Some (Poscar (site0 :: sites))
                ∧ flag_set dir flag s'
            | _ =>
                files s' !! optimized = files s !! optimized
                ∧ files s' !! status_path dir
                  = files s !! status_path dir
            end
      | None => files s' = files s
      end.
Proof.
  intros poscar traj optimized flag Hwhich Hm Hitem Hv.
  destruct (relax_endpoint_run which status dir s m v Hwhich Hm Hitem Hv)
    as (evs & Hrun & _).
  assert (Hne1 : traj ≠ optimized).
  { intros Heq. apply os_path_join_inj in Heq;
      by destruct Hwhich as [-> | ->]. }
  assert (Hne2 : traj ≠ status_path dir).
  { intros Heq. apply os_path_join_inj in Heq;
      by destruct Hwhich as [-> | ->]. }
  assert (Hne3 : optimized ≠ status_path dir).
  { intros Heq. apply os_path_join_inj in Heq;
      by destruct Hwhich as [-> | ->]. }
  eexists. split; [exact Hrun|]. simpl. split; [done|].
  unfold files_after_relaxation. fold poscar traj optimized flag.
  destruct (vacancy_relaxation ext (files s !! poscar))
    as [[frames [[|site0 sites]|]]|].
  - split; [intros p ? ? ?; by rewrite lookup_insert_ne|].
    split; [apply lookup_insert_eq|].
    by rewrite !lookup_insert_ne.
  - split; [intros p ? ? ?; by rewrite !lookup_insert_ne|].
    split.
    { rewrite (lookup_insert_ne _ (status_path dir)) by done.
      rewrite (lookup_insert_ne _ optimized) by done.
      apply lookup_insert_eq. }
    split.
    { rewrite (lookup_insert_ne _ (status_path dir)) by done.
      apply lookup_insert_eq. }
    eexists. simpl. rewrite lookup_insert_eq. split; [done|].
    apply lookup_insert_eq.
  - split; [intros p ? ? ?; by rewrite lookup_insert_ne|].
    split; [apply lookup_insert_eq|].
    by rewrite !lookup_insert_ne.
  - done.
Qed.
End RelaxationSteps.

(** ** A task from its relaxations to the NEB stage *)

Section TaskPaths.
Import IoStep.
Local Open Scope nat_scope.
Variable ext : collaborators.

Lemma status_item_fresh rec key v s :
  rec !! key = Some v →
  status_item (Fresh (JObj rec)) key s = (Ok v, s).
Proof. intros Hv. unfold status_item. run_M. by rewrite Hv. Qed.

Lemma relaxation_event_print evs :
  Forall is_print evs → Forall relaxation_event evs.
Proof. apply Forall_impl. by intros []. Qed.

(** Step 1 on valid, distinct indices: it returns, prints at most, and
    leaves the record file and [DEFAULT_STATUS] alone. *)
Lemma create_endpoints_run (pristine : Struct) mig vac dir s :
  mig < length pristine → vac < length pristine → mig ≠ vac →
  ∃ s' evs,
    create_endpoints pristine mig vac dir s = (Ok (), s')
    ∧ default_status s' = default_status s
    ∧ files s' !! status_path dir = files s !! status_path dir
    ∧ log s' = log s ++ evs ∧ Forall is_print evs.
Proof.
  intros Hmig Hvac Hne.
  destruct (create_endpoints_returns pristine mig vac dir s Hmig Hvac Hne)
    as [s' Hrun].
  pose proof (create_endpoints_keeps_status _ _ _ _ _ _ _ Hrun) as Hstatus.
  pose proof (keeps_create_endpoints (λ st, default_status st = default_status s)
                dir (λ _ _ H, H)
                (λ name f _ _ st r0 st' Heq H,
                   eq_trans (f_equal default_status
                               (eq_sym (f_equal snd Heq))) H)
                pristine mig vac _ _ _ Hrun eq_refl) as Hdefault.
  destruct (guarded_create_endpoints is_print (λ _, True) dir ""
              "POSCAR_optimized_" (λ _, I) (λ _ _ _, I) eq_refl
              pristine mig vac _ _ _ Hrun) as ((evs & Hlog & Hevs) & _).
  eauto 10.
Qed.

(** Step 2 or 3 with a relaxer that does not converge to a structure. *)
Lemma relax_endpoint_fails which rec dir s m v :
  which = "initial" ∨ which = "final" →
  files s !! status_path dir = Some (JsonDoc (JObj m)) →
  rec !! (which +:+ "_relax_complete") = Some v →
  (∀ structure frames site0 sites,
     relaxer_relax ext structure ≠ Ran frames (Ok (true, site0 :: sites))) →
  ∃ s' evs,
    relax_endpoint ext which (Fresh (JObj rec)) dir s = (Ok (), s')
    ∧ default_status s' = default_status s
    ∧ files s' !! status_path dir = files s !! status_path dir
    ∧ log s' = log s ++ evs ∧ Forall relaxation_event evs
    ∧ (py_truthy v = false →
       Called "run_vacancy_relaxation"
         (os_path_join dir ("POSCAR_" +:+ which)) ∈ evs).
Proof.
  intros Hwhich Hm Hv Hnever.
  destruct (py_truthy v) eqn:Htruthy.
  - unfold relax_endpoint.
    rewrite (bind_run _ _ _ _ _ (status_item_fresh _ _ _ s Hv)), Htruthy.
    simpl. eexists _, [_]. split; [reflexivity|]. simpl.
    repeat split; try done. by repeat constructor.
  - destruct (relax_endpoint_run ext which (Fresh (JObj rec)) dir s m v
                Hwhich Hm (status_item_fresh _ _ _ s Hv) Htruthy)
      as (evs & Hrun & Hevs).
    eexists _, _. split; [exact Hrun|]. simpl.
    split; [done|]. split; [|split; [done|split]].
    + unfold files_after_relaxation, vacancy_relaxation.
      destruct (read_structure _) as [structure|e]; [|done].
      pose proof (Hnever structure) as Hn.
      destruct (relaxer_relax ext structure)
        as [e|frames [[[] [|site0 sites]]|e]]; try done;
        try (apply lookup_insert_ne; intros Heq;
             apply os_path_join_inj in Heq;
             by destruct Hwhich as [-> | ->]).
      by destruct (Hn frames site0 sites).
    + constructor; [done|]. by apply relaxation_event_print.
    + intros _. left.
Qed.

(** X21: when the first relaxation flag is not true in the record of a
    task and the relaxer converges to no structure, one call of
    [manage_path_calculations] returns without entering the NEB stage: it
    runs the relaxation of the initial endpoint, its events are lines
    printed and relaxations only, the last line says that the endpoints
    are not ready, and the record file and [DEFAULT_STATUS] are as
    before, so that the next call tries the relaxation again. *)
Theorem manage_path_calculations_failed_relaxation pristine mig vac
    path_num num_images max_steps s m initial_done final_done :
  let dir := format_dir_name ext pristine mig vac path_num in
  mig < length pristine → vac < length pristine → mig ≠ vac →
  files s !! status_path dir = Some (JsonDoc (JObj m)) →
  (m ∪ default_status s) !! "initial_relax_complete" = Some initial_done →
  (m ∪ default_status s) !! "final_relax_complete" = Some final_done →
  py_truthy initial_done = false →
  (∀ structure frames site0 sites,
     relaxer_relax ext structure ≠ Ran frames (Ok (true, site0 :: sites))) →
  ∃ s' evs,
    manage_path_calculations ext pristine mig vac path_num num_images
      max_steps s = (Ok (), s')
    ∧ log s' = log s ++ evs
    ∧ Forall relaxation_event evs
    ∧ Called "run_vacancy_relaxation" (os_path_join dir "POSCAR_initial")
      ∈ evs
    ∧ list.last evs
      = Some (Print "  > Skipping NEB calculation (endpoints not ready).")
    ∧ files s' !! status_path dir = files s !! status_path dir
    ∧ default_status s' = default_status s.
Proof.
  intros dir Hmig Hvac Hne Hm Hi Hf Hnot Hnever.
  unfold manage_path_calculations.
  rewrite (bind_run _ _ _ _ _
             (make_dir_name_in_range ext pristine mig vac path_num s
                Hmig Hvac)).
  fold dir. erewrite bind_run by reflexivity.
  set (s_a := State _ _ _).
  assert (Hm_a : files s_a !! status_path dir = Some (JsonDoc (JObj m)))
    by done.
  rewrite (bind_run _ _ _ _ _ (get_status_dict _ _ _ Hm_a)).
  change (default_status s_a) with (default_status s).
  set (rec := m ∪ default_status s) in *.
  destruct (create_endpoints_run pristine mig vac dir s_a Hmig Hvac Hne)
    as (s_b & evs_b & Hrun_b & Hd_b & Hf_b & Hl_b & He_b).
  rewrite (bind_run _ _ _ _ _ Hrun_b).
  assert (Hm_b : files s_b !! status_path dir = Some (JsonDoc (JObj m)))
    by (by rewrite Hf_b).
  destruct (relax_endpoint_fails "initial" rec dir s_b m initial_done
              (or_introl eq_refl) Hm_b Hi Hnever)
    as (s_c & evs_c & Hrun_c & Hd_c & Hf_c & Hl_c & He_c & Hcall).
  rewrite (bind_run _ _ _ _ _ Hrun_c).
  assert (Hm_c : files s_c !! status_path dir = Some (JsonDoc (JObj m)))
    by (by rewrite Hf_c).
  destruct (relax_endpoint_fails "final" rec dir s_c m final_done
              (or_intror eq_refl) Hm_c Hf Hnever)
    as (s_d & evs_d & Hrun_d & Hd_d & Hf_d & Hl_d & He_d & _).
  rewrite (bind_run _ _ _ _ _ Hrun_d).
  assert (Hm_d : files s_d !! status_path dir = Some (JsonDoc (JObj m)))
    by (by rewrite Hf_d).
  assert (Hd : default_status s_d = default_status s)
    by (by rewrite Hd_d, Hd_c, Hd_b).
  rewrite (neb_step_not_ready ext _ dir _ _ s_d m initial_done final_done
             Hm_d); rewrite ?Hd; try done; [|by rewrite Hnot].
  eexists _, ([_] ++ evs_b ++ evs_c ++ evs_d ++ [_]).
  split; [reflexivity|]. simpl.
  split.
  { rewrite Hl_d, Hl_c, Hl_b. unfold s_a. simpl.
    by rewrite <- !(assoc_L (++)). }
  split.
  { constructor; [done|]. rewrite !Forall_app.
    repeat split; try done; [by apply relaxation_event_print|].
    by repeat constructor. }
  split.
  { right. rewrite !elem_of_app. right. left. by apply Hcall. }
  split.
  { rewrite !app_comm_cons, !(assoc_L (++)). apply last_snoc. }
  split; [by rewrite Hm_d|done].
Qed.

(** Step 1 when each endpoint file is absent or holds a structure:
    afterwards both hold one. *)
Lemma create_endpoints_readable (pristine : Struct) mig vac dir s :
  let initial_path := os_path_join dir "POSCAR_initial" in
  let final_path := os_path_join dir "POSCAR_final" in
  mig < length pristine → vac < length pristine → mig ≠ vac →
  (∀ f, files s !! initial_path = Some f → ∃ st, f = Poscar st) →
  (∀ f, files s !! final_path = Some f → ∃ st, f = Poscar st) →
  ∃ s' evs initial final,
    create_endpoints pristine mig vac dir s = (Ok (), s')
    ∧ default_status s' = default_status s
    ∧ files s' !! status_path dir = files s !! status_path dir
    ∧ log s' = log s ++ evs
    ∧ files s' !! initial_path = Some (Poscar initial)
    ∧ files s' !! final_path = Some (Poscar final).
Proof.
  intros initial_path final_path Hmig Hvac Hne Hi Hf.
  destruct (create_endpoints_run pristine mig vac dir s Hmig Hvac Hne)
    as (s' & evs & Hrun & Hd & Hst & Hl & _).
  assert (Hpaths : initial_path ≠ final_path).
  { intros Heq. apply os_path_join_inj in Heq; done. }
  exists s', evs.
  revert Hrun. unfold create_endpoints. fold initial_path final_path.
  destruct (final_endpoint_returns pristine mig vac Hmig Hvac Hne)
    as [final Hfinal]. rewrite Hfinal. run_M.
  destruct (files s !! initial_path) as [fi|] eqn:Hfi; simpl;
    rewrite ?lookup_insert_ne by done;
    destruct (files s !! final_path) as [ff|] eqn:Hff; simpl;
    intros [= <-]; simpl in *;
    try (destruct (Hi fi eq_refl) as [sti ->]);
    try (destruct (Hf ff eq_refl) as [stf ->]);
    eexists _, _; repeat split; try done;
    rewrite ?lookup_insert_eq; try done;
    rewrite ?lookup_insert_ne by done; rewrite ?lookup_insert_eq; done.
Qed.

(** Step 2 or 3 with a relaxation that converges to a structure. *)
Lemma relax_endpoint_converges which rec dir s m v structure frames
    site0 sites :
  which = "initial" ∨ which = "final" →
  files s !! status_path dir = Some (JsonDoc (JObj m)) →
  rec !! (which +:+ "_relax_complete") = Some v →
  py_truthy v = false →
  files s !! os_path_join dir ("POSCAR_" +:+ which)
  = Some (Poscar structure) →
  relaxer_relax ext structure = Ran frames (Ok (true, site0 :: sites)) →
  ∃ evs,
    relax_endpoint ext which (Fresh (JObj rec)) dir s
    = (Ok (),
       State (default_status s)
         (<[status_path dir :=
              JsonDoc (JObj (<[which +:+ "_relax_complete" := JBool true]>
                               (m ∪ default_status s)))]>
            (<[os_path_join dir ("POSCAR_optimized_" +:+ which) :=
                 Poscar (site0 :: sites)]>
               (<[os_path_join dir (which +:+ ".traj") :=
                    Trajectory frames]> (files s))))
         (log s ++ evs)).
Proof.
  intros Hwhich Hm Hv Htruthy Hposcar Hrelax.
  destruct (relax_endpoint_run ext which (Fresh (JObj rec)) dir s m v
              Hwhich Hm (status_item_fresh _ _ _ s Hv) Htruthy)
    as (evs & Hrun & _).
  revert Hrun. unfold files_after_relaxation, vacancy_relaxation.
  rewrite Hposcar. simpl. rewrite Hrelax. eauto.
Qed.

(** X22: when neither relaxation flag is true in the record of a task,
    the endpoint files are absent or hold structures, and the relaxer
    converges to a structure on whatever it is given, one call of
    [manage_path_calculations] relaxes both endpoints and goes on to the
    NEB stage in the same call, provided a step count of the record read
    at the start is zero: both flags are [True] in the record file
    afterwards and [run_neb_calculation] has been entered. *)
Theorem manage_path_calculations_relaxes_then_runs_neb pristine mig vac
    path_num num_images max_steps s m initial_done final_done
    neb_steps_taken neb_climb_steps_taken :
  let dir := format_dir_name ext pristine mig vac path_num in
  let rec := m ∪ default_status s in
  mig < length pristine → vac < length pristine → mig ≠ vac →
  files s !! status_path dir = Some (JsonDoc (JObj m)) →
  rec !! "initial_relax_complete" = Some initial_done →
  py_truthy initial_done = false →
  rec !! "final_relax_complete" = Some final_done →
  py_truthy final_done = false →
  rec !! "neb_steps_taken" = Some neb_steps_taken →
  rec !! "neb_climb_steps_taken" = Some neb_climb_steps_taken →
  py_eq_zero neb_steps_taken || py_eq_zero neb_climb_steps_taken = true →
  (∀ which f,
     which = "initial" ∨ which = "final" →
     files s !! os_path_join dir ("POSCAR_" +:+ which) = Some f →
     ∃ st, f = Poscar st) →
  (∀ structure, ∃ frames site0 sites,
     relaxer_relax ext structure = Ran frames (Ok (true, site0 :: sites))) →
  ∃ r s' evs,
    manage_path_calculations ext pristine mig vac path_num num_images
      max_steps s = (r, s')
    ∧ log s' = log s ++ evs
    ∧ Called "run_neb_calculation" dir ∈ evs
    ∧ flag_set dir "initial_relax_complete" s'
    ∧ flag_set dir "final_relax_complete" s'.
Proof.
  intros dir rec Hmig Hvac Hne Hm Hi Hti Hf Htf Hsteps Hclimb Hzero
    Hposcar Hrelaxer.
  unfold manage_path_calculations.
  rewrite (bind_run _ _ _ _ _
             (make_dir_name_in_range ext pristine mig vac path_num s
                Hmig Hvac)).
  fold dir. erewrite bind_run by reflexivity.
  set (s_a := State _ _ _).
  assert (Hm_a : files s_a !! status_path dir = Some (JsonDoc (JObj m)))
    by done.
  rewrite (bind_run _ _ _ _ _ (get_status_dict _ _ _ Hm_a)).
  change (default_status s_a) with (default_status s). fold rec.
  destruct (create_endpoints_readable pristine mig vac dir s_a Hmig Hvac
              Hne (λ f, Hposcar "initial" f (or_introl eq_refl))
              (λ f, Hposcar "final" f (or_intror eq_refl)))
    as (s_b & evs_b & initial & final & Hrun_b & Hd_b & Hf_b & Hl_b
        & Hinitial & Hfinal).
  rewrite (bind_run _ _ _ _ _ Hrun_b).
  assert (Hm_b : files s_b !! status_path dir = Some (JsonDoc (JObj m)))
    by (by rewrite Hf_b).
  destruct (Hrelaxer initial) as (frames_i & site_i & sites_i & Hrelax_i).
  destruct (relax_endpoint_converges "initial" rec dir s_b m initial_done
              initial frames_i site_i sites_i (or_introl eq_refl) Hm_b Hi
              Hti Hinitial Hrelax_i) as (evs_c & Hrun_c).
  rewrite (bind_run _ _ _ _ _ Hrun_c). rewrite Hd_b. fold rec.
  set (s_c := State _ _ _).
  assert (Hm_c : files s_c !! status_path dir
                 = Some (JsonDoc (JObj (<["initial_relax_complete" :=
                                            JBool true]> rec))))
    by apply lookup_insert_eq.
  assert (Hfinal_c : files s_c !! os_path_join dir "POSCAR_final"
                     = Some (Poscar final)).
  { unfold s_c. simpl. rewrite !lookup_insert_ne; [done| | |];
      intros Heq; apply os_path_join_inj in Heq; done. }
  destruct (Hrelaxer final) as (frames_f & site_f & sites_f & Hrelax_f).
  destruct (relax_endpoint_converges "final" rec dir s_c _ final_done
              final frames_f site_f sites_f (or_intror eq_refl) Hm_c Hf
              Htf Hfinal_c Hrelax_f) as (evs_d & Hrun_d).
  rewrite (bind_run _ _ _ _ _ Hrun_d).
  set (s_d := State _ _ _).
  assert (Hflag_f : flag_set dir "final_relax_complete" s_d).
  { eexists. split; [apply lookup_insert_eq|apply lookup_insert_eq]. }
  assert (Hflag_i : flag_set dir "initial_relax_complete" s_d).
  { eexists. split; [apply lookup_insert_eq|].
    rewrite lookup_insert_ne by done.
    apply lookup_union_Some_l, lookup_insert_eq. }
  rewrite (neb_step_decision ext rec neb_steps_taken neb_climb_steps_taken
             dir num_images max_steps s_d Hflag_i Hflag_f Hsteps Hclimb).
  rewrite Hzero.
  destruct (run_neb_and_record ext dir num_images max_steps s_d)
    as [r s'] eqn:Hrun.
  destruct (run_neb_and_record_calls ext _ _ _ _ _ _ Hrun)
    as (evs_e & Hl_e & _).
  assert (Hkeeps : ∀ key, key ∈ completion_flags →
            keeps (flag_set dir key)
              (run_neb_and_record ext dir num_images max_steps)).
  { intros key Hkey. apply keeps_run_neb_and_record.
    - apply flag_set_log.
    - apply flag_set_write.
    - apply flag_set_get_status.
    - intros k v. by apply flag_set_update_status. }
  exists r, s',
    ([Print (newline +:+ "--- Managing Path: " +:+ dir +:+ " ---")]
       ++ evs_b ++ evs_c ++ evs_d
       ++ Called "run_neb_calculation" dir :: evs_e).
  split; [done|]. split.
  { rewrite Hl_e. unfold s_d, s_c. simpl. rewrite Hl_b. unfold s_a. simpl.
    by rewrite <- !(assoc_L (++)). }
  split.
  { right. rewrite !elem_of_app. do 3 right. left. }
  split.
  - apply (Hkeeps "initial_relax_complete"
             ltac:(unfold completion_flags; set_solver) _ _ _ Hrun Hflag_i).
  - apply (Hkeeps "final_relax_complete"
             ltac:(unfold completion_flags; set_solver) _ _ _ Hrun Hflag_f).
Qed.
End TaskPaths.

(** ** The prefactor *)


Section Prefactor.
Import PrefactorStep.
Local Open Scope nat_scope.
Variable float : Type.
Variable is_zero : float → bool.
Variable fmul fdiv : float → float → float.
Variable cm_to_thz : float.
Variable format_4f : float → string.
Variable vib_run :
  Atoms → string → gmap string file → list (string * file) * result ().
Variable vib_summary :
  Atoms → string → gmap string file → string * result ().
Variable vib_get_frequencies :
  Atoms → string → gmap string file → result (list float).

Local Abbreviation multiply_ratio := (multiply_ratio float is_zero fmul fdiv).
Local Abbreviation vineyard_product :=
  (vineyard_product float is_zero fmul fdiv cm_to_thz).
Local Abbreviation get_frequencies_as_reals :=
  (get_frequencies_as_reals float vib_run vib_summary vib_get_frequencies).

Lemma foldl_multiply_ratio_raise e pairs :
  foldl multiply_ratio (Raise e) pairs = Raise e.
Proof. by induction pairs. Qed.

(** The loop: the product of the quotients, unless a divisor is zero. *)
Lemma foldl_multiply_ratio pairs : ∀ prefactor_cm,
  foldl multiply_ratio (Ok prefactor_cm) pairs
  = if forallb (λ pair, negb (is_zero pair.2)) pairs
    then Ok (foldl (λ acc pair, fmul acc (fdiv pair.1 pair.2)) prefactor_cm
               pairs)
    else Raise (ExternalError "float division by zero").
Proof.
  induction pairs as [|[i s] pairs IH]; intros prefactor_cm; [done|].
  simpl. unfold py_div. simpl. destruct (is_zero s); simpl.
  - apply foldl_multiply_ratio_raise.
  - apply IH.
Qed.

Lemma forallb_zip_drop (initial_freqs saddle_freqs : list float) :
  forallb (λ pair, negb (is_zero pair.2))
    (zip (drop 4 initial_freqs) (drop 4 saddle_freqs)) = true
  ↔ ∀ k i s, 4 ≤ k → initial_freqs !! k = Some i →
             saddle_freqs !! k = Some s → is_zero s = false.
Proof.
  rewrite forallb_forall. split.
  - intros Hall k i s Hk Hi Hs.
    apply negb_true_iff, (Hall (i, s)), list_elem_of_In.
    apply (list_elem_of_lookup_2 _ (k - 4)).
    apply lookup_zip_with_Some. exists i, s.
    rewrite !lookup_drop. replace (4 + (k - 4)) with k by lia. done.
  - intros Hall [i s] Hin%list_elem_of_In.
    apply list_elem_of_lookup in Hin as [k Hk].
    apply lookup_zip_with_Some in Hk as (i' & s' & [= <- <-] & Hi & Hs).
    rewrite lookup_drop in Hi, Hs. simpl.
    apply negb_true_iff, (Hall (4 + k) i s); [lia|done|done].
Qed.

Lemma vineyard_product_length (initial_freqs saddle_freqs : list float)
    prefactor_thz :
  vineyard_product initial_freqs saddle_freqs = Ok prefactor_thz →
  4 ≤ length initial_freqs.
Proof.
  unfold PrefactorStep.vineyard_product.
  destruct (initial_freqs !! 3) as [prefactor_cm|] eqn:H3; [|done].
  intros _. apply lookup_lt_Some in H3. lia.
Qed.

(** X23: the product raises [IndexError] exactly when the initial state
    has fewer than four frequencies, and it has a value exactly when there
    are at least four and no saddle frequency that is paired with an
    initial one, from the fifth on, is zero. The saddle state may have any
    number of frequencies, none included. *)
Theorem vineyard_product_defined (initial_freqs saddle_freqs : list float) :
  (vineyard_product initial_freqs saddle_freqs = Raise IndexError
   ↔ length initial_freqs < 4)
  ∧ ((∃ prefactor_thz,
        vineyard_product initial_freqs saddle_freqs = Ok prefactor_thz)
     ↔ 4 ≤ length initial_freqs
       ∧ ∀ k i s, 4 ≤ k → initial_freqs !! k = Some i →
                  saddle_freqs !! k = Some s → is_zero s = false).
Proof.
  unfold PrefactorStep.vineyard_product.
  destruct (initial_freqs !! 3) as [prefactor_cm|] eqn:H3.
  - pose proof (lookup_lt_Some _ _ _ H3) as Hlen.
    rewrite foldl_multiply_ratio.
    pose proof (forallb_zip_drop initial_freqs saddle_freqs) as Hall.
    destruct (forallb _ _).
    + split; [split; [done|lia]|]. split; [|eauto].
      intros _. split; [lia|]. by apply Hall.
    + split; [split; [done|lia]|]. split; [by intros [? ?]|].
      intros [_ H]. by apply Hall in H.
  - apply lookup_ge_None in H3. split; [split; [lia|done]|].
    split; [by intros [? ?]|]. intros [? _]. lia.
Qed.

(** X24: the product depends on the saddle frequencies only through those
    at the positions, from the fifth on, where the initial state has a
    frequency as well: the first four, and those beyond the length of the
    initial list, are not looked at, and positions that the saddle list
    lacks shorten the product. *)
Theorem vineyard_product_ignores
    (initial_freqs saddle_freqs saddle_freqs' : list float) :
  (∀ k, 4 ≤ k < length initial_freqs →
        saddle_freqs !! k = saddle_freqs' !! k) →
  vineyard_product initial_freqs saddle_freqs
  = vineyard_product initial_freqs saddle_freqs'.
Proof.
  intros Hsame. unfold PrefactorStep.vineyard_product.
  destruct (initial_freqs !! 3) as [prefactor_cm|]; [|done].
  assert (Hzip : zip (drop 4 initial_freqs) (drop 4 saddle_freqs)
                 = zip (drop 4 initial_freqs) (drop 4 saddle_freqs')).
  { apply list_eq. intros k. rewrite !lookup_zip_with.
    rewrite !lookup_drop.
    destruct (initial_freqs !! (4 + k)) as [i|] eqn:Hi; [|done]. simpl.
    rewrite Hsame; [done|]. apply lookup_lt_Some in Hi. lia. }
  by rewrite Hzip.
Qed.

(** The frequencies an analysis returns are those of the structure in
    the file. *)
Lemma get_frequencies_as_reals_returns atoms_path vib_dir_name
    summary_file_path s freqs s' :
  get_frequencies_as_reals atoms_path vib_dir_name summary_file_path s
  = (Ok freqs, s') →
  ∃ atoms fs,
    read_structure (files s !! atoms_path) = Ok atoms
    ∧ vib_get_frequencies atoms vib_dir_name fs = Ok freqs.
Proof.
  unfold PrefactorStep.get_frequencies_as_reals.
  erewrite bind_run by reflexivity.
  unfold mbind at 1, M_bind at 1. rewrite ase_read_eq.
  destruct (read_structure _) as [atoms|e]; [|done].
  erewrite bind_run by reflexivity.
  destruct (vib_run atoms vib_dir_name _) as [written ran].
  unfold mbind at 1, M_bind at 1.
  destruct (write_cache vib_dir_name written _) as [[[]|e] s1]; [|done].
  destruct ran as [[]|e]; [|done].
  erewrite bind_run by reflexivity.
  erewrite bind_run by reflexivity.
  destruct (vib_summary atoms vib_dir_name _) as [summary summarised].
  erewrite bind_run by reflexivity.
  destruct summarised as [[]|e]; [|done].
  erewrite bind_run by reflexivity.
  erewrite bind_run by reflexivity.
  erewrite bind_run by reflexivity.
  unfold lift. intros [= Hfreqs _]. eauto.
Qed.

(** X25: [calculate_prefactor] lets no exception out. It writes no file
    but the two summaries and the files of the two caches, which lie in
    the directories [vib_initial] and [vib_saddle] of the task, leaves
    [DEFAULT_STATUS] alone, and returns a value only when the analysis of
    the initial state gave at least four frequencies, of which the value
    is the product with those of the saddle state. *)
Theorem calculate_prefactor_outcome initial_state_path saddle_state_path
    directory s :
  ∃ r s',
    calculate_prefactor float is_zero fmul fdiv cm_to_thz format_4f
      vib_run vib_summary vib_get_frequencies initial_state_path
      saddle_state_path directory s
    = (Ok r, s')
    ∧ default_status s' = default_status s
    ∧ (∀ p, p ≠ os_path_join directory "initial_vib.dat" →
            p ≠ os_path_join directory "saddle_vib.dat" →
            String.prefix
              (join_prefix (os_path_join directory "vib_initial")) p
            = false →
            String.prefix
              (join_prefix (os_path_join directory "vib_saddle")) p
            = false →
            files s' !! p = files s !! p)
    ∧ ∀ prefactor_thz, r = Some prefactor_thz →
        ∃ atoms fs initial_freqs saddle_freqs,
          read_structure (files s !! initial_state_path) = Ok atoms
          ∧ vib_get_frequencies atoms
              (os_path_join directory "vib_initial") fs
            = Ok initial_freqs
          ∧ 4 ≤ length initial_freqs
          ∧ vineyard_product initial_freqs saddle_freqs = Ok prefactor_thz.
Proof.
  destruct (calculate_prefactor float is_zero fmul fdiv cm_to_thz format_4f
              vib_run vib_summary vib_get_frequencies initial_state_path
              saddle_state_path directory s) as [r s'] eqn:Hrun.
  assert (Hdefault : default_status s' = default_status s).
  { apply (keeps_calculate_prefactor_body float is_zero fmul fdiv cm_to_thz
             format_4f vib_run vib_summary vib_get_frequencies
             (λ st, default_status st = default_status s)
             initial_state_path saddle_state_path directory
             ltac:(done)
             ltac:(by intros f st r0 st' [= <- <-])
             ltac:(by intros f st r0 st' [= <- <-])
             ltac:(by intros label f st r0 st' [= <- <-])
             ltac:(by intros label f st r0 st' [= <- <-])
             s r s' Hrun eq_refl). }
  assert (Hframe : ∀ p,
    p ≠ os_path_join directory "initial_vib.dat" →
    p ≠ os_path_join directory "saddle_vib.dat" →
    String.prefix (join_prefix (os_path_join directory "vib_initial")) p
    = false →
    String.prefix (join_prefix (os_path_join directory "vib_saddle")) p
    = false →
    files s' !! p = files s !! p).
  { intros p Hp1 Hp2 Hp3 Hp4.
    apply (keeps_calculate_prefactor_body float is_zero fmul fdiv cm_to_thz
             format_4f vib_run vib_summary vib_get_frequencies
             (λ st, files st !! p = files s !! p)
             initial_state_path saddle_state_path directory)
      with (s := s) (r := r); try done.
    - intros f st r0 st' [= <- <-] HI. simpl. by rewrite lookup_insert_ne.
    - intros f st r0 st' [= <- <-] HI. simpl. by rewrite lookup_insert_ne.
    - intros label f st r0 st' [= <- <-] HI. simpl.
      rewrite lookup_insert_ne; [done|]. intros <-.
      unfold cache_path in Hp3. by rewrite prefix_app in Hp3.
    - intros label f st r0 st' [= <- <-] HI. simpl.
      rewrite lookup_insert_ne; [done|]. intros <-.
      unfold cache_path in Hp4. by rewrite prefix_app in Hp4. }
  revert Hrun. unfold calculate_prefactor.
  erewrite bind_run by reflexivity.
  unfold mbind at 1, M_bind at 1, catch.
  match goal with
  | |- context [let '(r0, st) := ?body ?st0 in _] =>
      destruct (body st0) as [[prefactor_thz|e] s1] eqn:Hbody
  end.
  2: { run_M. intros [= <- <-]. eexists _, _. by repeat split. }
  intros [= <- <-]. eexists _, _. repeat split; try done.
  intros ? [= <-]. revert Hbody.
  unfold mbind at 1, M_bind at 1.
  destruct (get_frequencies_as_reals initial_state_path _ _ _)
    as [[initial_freqs|e] s2] eqn:Hinitial; [|done].
  apply get_frequencies_as_reals_returns in Hinitial
    as (atoms & fs & Hread & Hfreqs).
  unfold mbind at 1, M_bind at 1.
  destruct (get_frequencies_as_reals saddle_state_path _ _ _)
    as [[saddle_freqs|e] s3]; [|done].
  do 5 (erewrite bind_run by reflexivity).
  unfold mbind at 1, M_bind at 1, lift at 1.
  destruct (PrefactorStep.vineyard_product _ _ _ _ _ initial_freqs
              saddle_freqs) as [product|e] eqn:Hprod; [|done].
  run_M. intros [= <- _].
  exists atoms, fs, initial_freqs, saddle_freqs. repeat split; try done.
  by apply (vineyard_product_length initial_freqs saddle_freqs product).
Qed.
End Prefactor.

Section PrefactorExamples.
Import PrefactorStep.
Local Open Scope nat_scope.

Lemma vineyard_product_ignores_witness :
  let is_zero := λ x : Q, Qeq_bool x 0 in
  let c := (299792458 # 10000000000)%Q in
  vineyard_product Q is_zero Qmult Qdiv c
    [1; 2; 3; 4; 6]%Q [9; 9; 9; 9; 3]%Q
  = vineyard_product Q is_zero Qmult Qdiv c
      [1; 2; 3; 4; 6]%Q [0; 0; 0; 0; 3; 0]%Q.
Proof.
  apply (vineyard_product_ignores Q (λ x : Q, Qeq_bool x 0) Qmult Qdiv
           (299792458 # 10000000000)%Q
           [1; 2; 3; 4; 6]%Q [9; 9; 9; 9; 3]%Q [0; 0; 0; 0; 3; 0]%Q).
  intros k [Hlo Hhi]. simpl in Hhi.
  assert (k = 4) as -> by lia. reflexivity.
Defined.

(** A run in which the analysis of the initial state is interrupted after
    one displacement: no value is returned and no summary is written,
    and the cache file of that displacement stays in [vib_initial]. *)
Example calculate_prefactor_interrupted :
  let is_zero := λ x : Q, Qeq_bool x 0 in
  let c := (299792458 # 10000000000)%Q in
  let vib_run := λ (_ : Atoms) (_ : string) (_ : gmap string file),
    ([("eq", JsonDoc JNull)], Raise (ExternalError "calculator failed")) in
  let vib_summary := λ (_ : Atoms) (_ : string) (_ : gmap string file),
    ("", Ok ()) in
  let vib_get_frequencies := λ (_ : Atoms) (_ : string)
    (_ : gmap string file), Ok ([] : list Q) in
  let s := fresh_process {[ "d/POSCAR_optimized_initial" := Poscar [] ]} in
  let run := calculate_prefactor Q is_zero Qmult Qdiv c (λ _, "0.0000")
               vib_run vib_summary vib_get_frequencies
               "d/POSCAR_optimized_initial" "d/POSCAR_saddle" "d" s in
  run.1 = Ok None
  ∧ files run.2 !! "d/vib_initial/cache.eq.json" = Some (JsonDoc JNull)
  ∧ files run.2 !! "d/initial_vib.dat" = None.
Proof. vm_compute. by repeat split. Qed.
End PrefactorExamples.

(** ** The main program *)

Section MainFacts.
Import IoStep MainWorkflow.
Local Open Scope Z_scope.
Variable ext : collaborators.
Variable bulk_relax : Atoms → result (bool * Atoms).
Variable matrix : Type.
Variable get_sc_fromstruct : Struct → Q → Z → result matrix.
Variable make_supercell : Struct → matrix → result Struct.
Variable str_float : Q → string.
Variable str_matrix : matrix → string.
Variable reduced_formula : Struct → string.
Variable equivalent_atoms_of : Struct → result (list nat).
Variable get_neighbors : Struct → site → Q → list Pathfinder.neighbor.
Variable get_structure : Atoms → result Struct.
Variable cuda_is_available : bool.

Local Abbreviation main :=
  (main ext bulk_relax matrix get_sc_fromstruct make_supercell str_float
     str_matrix reduced_formula equivalent_atoms_of get_neighbors
     get_structure cuda_is_available).
Local Abbreviation supercell_and_rest :=
  (supercell_and_rest ext bulk_relax matrix get_sc_fromstruct make_supercell
     str_float str_matrix reduced_formula equivalent_atoms_of get_neighbors
     get_structure).
Local Abbreviation find_and_manage :=
  (find_and_manage ext equivalent_atoms_of get_neighbors).

Section LogOnly.
Variable I : state → Prop.
Hypothesis I_log : ∀ s e,
  I s → I (State (default_status s) (files s) (log s ++ [e])).

Lemma keeps_print_lines lines : keeps I (print_lines lines).
Proof. induction lines; simpl; keeps_auto. Qed.

Lemma run_bulk_relaxation_runs filename s :
  ∃ relaxed s',
    RelaxerStep.run_bulk_relaxation bulk_relax filename s = (Ok relaxed, s')
    ∧ files s' = files s ∧ default_status s' = default_status s.
Proof.
  unfold RelaxerStep.run_bulk_relaxation.
  unfold mbind at 1, M_bind at 1. unfold emit at 1.
  unfold mbind at 1, M_bind at 1. unfold catch.
  unfold mbind at 1, M_bind at 1. rewrite ase_read_eq. simpl.
  destruct (read_structure _) as [structure|e]; [|run_M; eauto].
  destruct (bulk_relax structure) as [[[] a]|e]; run_M; eauto.
Qed.

Lemma keeps_run_bulk_relaxation filename :
  keeps I (RelaxerStep.run_bulk_relaxation bulk_relax filename).
Proof. unfold RelaxerStep.run_bulk_relaxation. keeps_auto. Qed.

Lemma keeps_create_supercell structure min_length max_atoms :
  keeps I (SupercellStep.create_supercell matrix get_sc_fromstruct
             make_supercell str_float str_matrix reduced_formula structure
             min_length max_atoms).
Proof. unfold SupercellStep.create_supercell. keeps_auto. Qed.
End LogOnly.

(** A path in the directory of a task starts with the letter of
    [NEB_path_], or with a slash. *)
Lemma task_path_head pristine mig vac path_num name :
  ∃ c rest,
    os_path_join (format_dir_name ext pristine mig vac path_num) name
    = String c rest
    ∧ (c = "N"%char ∨ c = "/"%char).
Proof.
  unfold os_path_join.
  destruct (String.prefix "/" name) eqn:Hname.
  - destruct name as [|c rest]; [done|].
    change (String.prefix "/" (String c rest))
      with (if ascii_dec "/" c then String.prefix "" rest else false)
      in Hname.
    destruct (ascii_dec "/" c) as [<-|]; [|done]. eauto.
  - unfold format_dir_name, join_prefix. simpl.
    destruct (ends_with_slash _); simpl; eauto.
Qed.

(** The tasks leave alone a path that starts with another letter. *)
Lemma keeps_outside_manage_paths pristine p (x : option file) c rest hops :
  ∀ i,
  p = String c rest → c ≠ "N"%char → c ≠ "/"%char →
  keeps (λ st, files st !! p = x) (manage_paths ext pristine i hops).
Proof.
  induction hops as [|[site1_idx site2_idx] hops IH]; intros i Hp Hn Hs;
    simpl.
  - apply keeps_ret.
  - apply keeps_bind; [|intros _; by apply IH].
    apply keeps_outside_manage_path_calculations. intros name _ Heq.
    destruct (task_path_head pristine site1_idx site2_idx (i + 1)%nat name)
      as (c' & rest' & Hjoin & Hc').
    rewrite <- Heq, Hp in Hjoin. injection Hjoin as -> _.
    by destruct Hc'.
Qed.

Lemma keeps_outside_find_and_manage pristine p (x : option file) c rest :
  p = String c rest → c ≠ "N"%char → c ≠ "/"%char →
  keeps (λ st, files st !! p = x) (find_and_manage pristine).
Proof.
  intros Hp Hn Hs. unfold MainWorkflow.find_and_manage.
  keeps_auto; try (by apply keeps_print_lines).
  by eapply keeps_outside_manage_paths.
Qed.

(** Steps 2 to 5 leave the temporary file behind only when the
    conversion of the relaxed supercell raises. *)
Lemma supercell_and_rest_temporary_file initial_pmg_structure s r s' :
  supercell_and_rest initial_pmg_structure s = (r, s') →
  files s' !! "POSCAR_supercell_unrelaxed" = None
  ∨ files s' = files s
  ∨ ∃ relaxed_supercell_ase unrelaxed_supercell e,
      get_structure relaxed_supercell_ase = Raise e
      ∧ r = Raise e
      ∧ files s' = <["POSCAR_supercell_unrelaxed" :=
                       Poscar unrelaxed_supercell]> (files s).
Proof.
  unfold MainWorkflow.supercell_and_rest.
  unfold mbind at 1, M_bind at 1. simpl.
  unfold mbind at 1, M_bind at 1.
  match goal with
  | |- context [SupercellStep.create_supercell ?a ?b ?c ?d ?e ?f ?g ?h ?i ?st] =>
      destruct (SupercellStep.create_supercell a b c d e f g h i st)
        as [[unrelaxed|e0] s1] eqn:Hcreate
  end.
  all: pose proof (keeps_create_supercell (λ st, files st = files s)
                     (λ _ _ H, H) _ _ _ _ _ _ Hcreate eq_refl) as Hfiles1.
  2: { intros [= _ <-]. right. by left. }
  unfold mbind at 1, M_bind at 1. simpl.
  unfold mbind at 1, M_bind at 1. simpl.
  unfold mbind at 1, M_bind at 1. simpl.
  unfold mbind at 1, M_bind at 1.
  match goal with
  | |- context [RelaxerStep.run_bulk_relaxation ?a ?b ?st] =>
      destruct (run_bulk_relaxation_runs b st)
        as (relaxed & s2 & Hrelax & Hfiles2 & _); rewrite Hrelax
  end.
  simpl in Hfiles2.
  assert (Htemp : files s2 !! "POSCAR_supercell_unrelaxed"
                  = Some (Poscar unrelaxed))
    by (rewrite Hfiles2; apply lookup_insert_eq).
  destruct relaxed as [relaxed_supercell_ase|].
  - unfold mbind at 1, M_bind at 1, lift at 1.
    destruct (get_structure relaxed_supercell_ase) as [pristine|e]
      eqn:Hconversion.
    + erewrite bind_run by reflexivity.
      erewrite bind_run
        by (unfold os_remove; simpl; rewrite Htemp; reflexivity).
      erewrite bind_run by reflexivity.
      intros Hrun. left.
      apply (keeps_outside_find_and_manage pristine
               "POSCAR_supercell_unrelaxed" None "P"
               "OSCAR_supercell_unrelaxed" eq_refl ltac:(done) ltac:(done)
               _ _ _ Hrun).
      simpl. rewrite lookup_insert_ne by done. apply lookup_delete_eq.
    + intros [= <- <-]. right. right.
      exists relaxed_supercell_ase, unrelaxed, e.
      by rewrite Hfiles2, Hfiles1.
  - erewrite bind_run by reflexivity.
    erewrite bind_run
      by (unfold os_remove; simpl; rewrite Htemp; reflexivity).
    intros [= _ <-]. left. simpl. apply lookup_delete_eq.
Qed.

(** X26: [main] removes its temporary file on every way out but one.
    Afterwards there is no file [POSCAR_supercell_unrelaxed], also when
    such a file existed before, or no file has changed at all; or the
    conversion of the relaxed supercell to a pymatgen structure raised:
    then the exception leaves [main], and the temporary file, which holds
    the supercell as it was before its relaxation, is the one file that
    has changed. *)
Theorem main_temporary_file argv s r s' :
  main argv s = (r, s') →
  files s' !! "POSCAR_supercell_unrelaxed" = None
  ∨ files s' = files s
  ∨ ∃ relaxed_supercell_ase unrelaxed_supercell e,
      get_structure relaxed_supercell_ase = Raise e
      ∧ r = Raise e
      ∧ files s' = <["POSCAR_supercell_unrelaxed" :=
                       Poscar unrelaxed_supercell]> (files s).
Proof.
  unfold MainWorkflow.main. unfold mbind at 1, M_bind at 1. simpl.
  destruct argv as [|script [|input_filename argv]];
    try (run_M; intros [= _ <-]; right; by left).
  unfold mbind at 1, M_bind at 1. simpl.
  destruct (bool_decide _); simpl;
    [|run_M; intros [= _ <-]; right; by left].
  unfold mbind at 1, M_bind at 1. simpl.
  unfold mbind at 1, M_bind at 1.
  match goal with
  | |- context [RelaxerStep.run_bulk_relaxation ?a ?b ?st] =>
      destruct (run_bulk_relaxation_runs b st)
        as (relaxed & s1 & Hrelax & Hfiles1 & _); rewrite Hrelax
  end.
  simpl in Hfiles1.
  destruct relaxed as [relaxed_ase_atoms|];
    [|run_M; intros [= _ <-]; right; by left].
  unfold mbind at 1, M_bind at 1. simpl.
  unfold mbind at 1, M_bind at 1, lift at 1.
  destruct (get_structure relaxed_ase_atoms) as [initial_pmg_structure|e];
    [|intros [= _ <-]; right; by left].
  intros Hrun.
  apply supercell_and_rest_temporary_file in Hrun. simpl in Hrun.
  by rewrite <- Hfiles1.
Qed.

(** X27: without an argument, or with an argument that names no existing
    file, [main] exits with status 1 after two lines, the device line and
    the complaint: no relaxation is run and no file is touched. *)
Theorem main_rejects_missing_input argv s :
  (∀ input_filename,
     argv !! 1%nat = Some input_filename →
     files s !! input_filename = None) →
  ∃ device_line complaint,
    main argv s
    = (Ok (Exit 1),
       State (default_status s) (files s)
         (log s ++ [Print device_line; Print complaint])).
Proof.
  intros Hmissing. unfold MainWorkflow.main.
  destruct argv as [|script [|input_filename argv]];
    try (run_M; rewrite <- (assoc_L (++)); by eexists _, _).
  run_M. rewrite (Hmissing input_filename eq_refl). simpl.
  rewrite <- (assoc_L (++)). by eexists _, _.
Qed.

Lemma print_lines_run lines s :
  print_lines lines s
  = (Ok (), State (default_status s) (files s) (log s ++ (Print <$> lines))).
Proof.
  revert s. induction lines as [|line lines IH]; intros s; simpl.
  - unfold mret, M_ret. rewrite app_nil_r. by destruct s.
  - erewrite bind_run by reflexivity. rewrite IH. simpl.
    by rewrite <- (assoc_L (++)).
Qed.

(** Steps 4 and 5 when they reach the last line. *)
Lemma find_and_manage_finished pristine s s' :
  find_and_manage pristine s = (Ok Finished, s') →
  ∃ hops,
    (Pathfinder.find_unique_hops equivalent_atoms_of get_neighbors pristine
       MIGRATING_ELEMENT MAX_HOP_DISTANCE DISTANCE_PRECISION).2 = Ok hops
    ∧ hops ≠ []
    ∧ files s' !! "POSCAR_supercell_pristine"
      = files s !! "POSCAR_supercell_pristine"
    ∧ list.last (log s')
      = Some (Print "Workflow finished successfully!").
Proof.
  unfold MainWorkflow.find_and_manage.
  erewrite bind_run by reflexivity.
  erewrite bind_run by apply print_lines_run.
  destruct (Pathfinder.find_unique_hops _ _ _ _ _ _).2 as [hops|e];
    [|by run_M].
  erewrite bind_run by reflexivity.
  destruct hops as [|hop hops]; [by run_M|].
  erewrite bind_run by reflexivity.
  erewrite bind_run by reflexivity.
  unfold mbind at 1, M_bind at 1.
  match goal with
  | |- context [manage_paths ?e ?p ?i ?h ?st] =>
      destruct (manage_paths e p i h st) as [[[]|e0] s1] eqn:Hrun
  end; [|done].
  pose proof (keeps_outside_manage_paths pristine
                "POSCAR_supercell_pristine"
                (files s !! "POSCAR_supercell_pristine") "P"
                "OSCAR_supercell_pristine" _ _ eq_refl ltac:(done)
                ltac:(done) _ _ _ Hrun eq_refl) as Hkeep.
  run_M. intros [= <-]. exists (hop :: hops). simpl.
  repeat split; try done. apply last_snoc.
Qed.

(** X28: when [main] reaches its last line, an input file was named and
    existed, the file [POSCAR_supercell_pristine] holds the supercell in
    which the hops were sought, at least one hop was found there, and the
    last line printed is the one that reports success. *)
Theorem main_finished argv s s' :
  main argv s = (Ok Finished, s') →
  ∃ input_filename pristine hops,
    argv !! 1%nat = Some input_filename
    ∧ is_Some (files s !! input_filename)
    ∧ (Pathfinder.find_unique_hops equivalent_atoms_of get_neighbors
         pristine MIGRATING_ELEMENT MAX_HOP_DISTANCE
         DISTANCE_PRECISION).2 = Ok hops
    ∧ hops ≠ []
    ∧ files s' !! "POSCAR_supercell_pristine" = Some (Poscar pristine)
    ∧ list.last (log s')
      = Some (Print "Workflow finished successfully!").
Proof.
  unfold MainWorkflow.main. erewrite bind_run by reflexivity.
  destruct argv as [|script [|input_filename argv]]; try by run_M.
  erewrite bind_run by reflexivity. simpl.
  destruct (files s !! input_filename) as [f|] eqn:Hinput; [|by run_M].
  simpl. erewrite bind_run by reflexivity.
  unfold mbind at 1, M_bind at 1.
  match goal with
  | |- context [RelaxerStep.run_bulk_relaxation ?a ?b ?st] =>
      destruct (run_bulk_relaxation_runs b st)
        as (relaxed & s1 & Hrelax & _ & _); rewrite Hrelax
  end.
  destruct relaxed as [relaxed_ase_atoms|]; [|by run_M].
  erewrite bind_run by reflexivity.
  unfold mbind at 1, M_bind at 1, lift at 1.
  destruct (get_structure relaxed_ase_atoms) as [initial_pmg_structure|e];
    [|done].
  unfold MainWorkflow.supercell_and_rest.
  erewrite bind_run by reflexivity.
  unfold mbind at 1, M_bind at 1.
  match goal with
  | |- context [SupercellStep.create_supercell ?a ?b ?c ?d ?e ?f ?g ?h ?i ?st] =>
      destruct (SupercellStep.create_supercell a b c d e f g h i st)
        as [[unrelaxed|e0] s2]
  end; [|done].
  erewrite bind_run by reflexivity.
  erewrite bind_run by reflexivity.
  erewrite bind_run by reflexivity.
  unfold mbind at 1, M_bind at 1.
  match goal with
  | |- context [RelaxerStep.run_bulk_relaxation ?a ?b ?st] =>
      destruct (run_bulk_relaxation_runs b st)
        as (relaxed & s3 & Hrelax3 & Hfiles3 & _); rewrite Hrelax3
  end.
  simpl in Hfiles3.
  assert (Htemp : files s3 !! "POSCAR_supercell_unrelaxed"
                  = Some (Poscar unrelaxed))
    by (rewrite Hfiles3; apply lookup_insert_eq).
  destruct relaxed as [relaxed_supercell_ase|].
  - unfold mbind at 1, M_bind at 1, lift at 1.
    destruct (get_structure relaxed_supercell_ase) as [pristine|e];
      [|done].
    erewrite bind_run by reflexivity.
    erewrite bind_run
      by (unfold os_remove; simpl; rewrite Htemp; reflexivity).
    erewrite bind_run by reflexivity.
    intros (hops & Hhops & Hne & Hfile & Hlast)%find_and_manage_finished.
    exists input_filename, pristine, hops. repeat split; try done.
    rewrite Hfile. simpl. apply lookup_insert_eq.
  - erewrite bind_run by reflexivity.
    erewrite bind_run
      by (unfold os_remove; simpl; rewrite Htemp; reflexivity).
    by run_M.
Qed.
End MainFacts.

(** ** The properties above on examples *)

Section MoreExamples.
Import IoStep NebStep MainWorkflow.
Local Open Scope Z_scope.

Lemma run_neb_calculation_attempt_raises_witness :
  let s := fresh_process relaxed_task in
  ∃ s', run_neb_calculation aseneb_raises
          (os_path_join example_dir "initial.traj")
          (os_path_join example_dir "final.traj")
          (os_path_join example_dir "POSCAR_optimized_initial")
          example_dir 3 5000 s
        = (Ok initial_results, s')
        ∧ attempted (drop (length (log s)) (log s'))
          = [OptimizerConfig "FIRE" "improvedtangent" (1 # 100)]
            ++ [OptimizerConfig "FIRE" "aseneb" (1 # 100)]
        ∧ list.last (log s')
          = Some (Print (error_line example_dir
                           (ExternalError "optimizer failed"))).
Proof.
  apply (run_neb_calculation_attempt_raises aseneb_raises 5000
           (os_path_join example_dir "initial.traj")
           (os_path_join example_dir "final.traj")
           (os_path_join example_dir "POSCAR_optimized_initial")
           example_dir 3 (fresh_process relaxed_task) two_lithium
           two_lithium
           [OptimizerConfig "FIRE" "improvedtangent" (1 # 100)]
           (OptimizerConfig "FIRE" "aseneb" (1 # 100))
           [OptimizerConfig "LBFGS" "improvedtangent" (1 # 100);
            OptimizerConfig "LBFGS" "aseneb" (1 # 100)]
           (ExternalError "optimizer failed")).
  - reflexivity.
  - reflexivity.
  - reflexivity.
  - repeat constructor. eexists _, _. reflexivity.
  - right. eexists. reflexivity.
Defined.

Lemma run_neb_calculation_unreadable_endpoint_witness :
  let s := fresh_process stalled_task in
  run_neb_calculation failing_collaborators
    (os_path_join example_dir "initial.traj")
    (os_path_join example_dir "final.traj")
    (os_path_join example_dir "POSCAR_optimized_initial")
    example_dir 3 5000 s
  = (Ok initial_results,
     State (default_status s) (files s)
       (log s ++ [Called "run_neb_calculation" example_dir;
                  Print ("  > Setting up Standard NEB in '"
                           +:+ example_dir +:+ "'...");
                  Print (error_line example_dir FileNotFoundError)])).
Proof.
  apply (run_neb_calculation_unreadable_endpoint failing_collaborators 5000
           (os_path_join example_dir "initial.traj")
           (os_path_join example_dir "final.traj")
           (os_path_join example_dir "POSCAR_optimized_initial")
           example_dir 3 (fresh_process stalled_task) FileNotFoundError).
  left. reflexivity.
Defined.

Lemma manage_path_calculations_keeps_flags_witness :
  let s := fresh_process stalled_task in
  flag_set example_dir "final_relax_complete"
    (manage_path_calculations failing_collaborators two_lithium 0 1 1 3
       5000 s).2.
Proof.
  apply (manage_path_calculations_keeps_flags failing_collaborators
           two_lithium 0 1 1 3 5000 "final_relax_complete"
           (fresh_process stalled_task)
           (manage_path_calculations failing_collaborators two_lithium 0 1
              1 3 5000 (fresh_process stalled_task)).1).
  - unfold completion_flags. apply list_elem_of_In. simpl. right. left.
    reflexivity.
  - vm_compute. reflexivity.
  - exists stalled_record. split; reflexivity.
Defined.

Lemma manage_path_calculations_stays_inside_witness :
  let s := fresh_process stalled_task in
  files (manage_path_calculations failing_collaborators two_lithium 0 1 1 3
           5000 s).2 !! "POSCAR_supercell_pristine"
  = files s !! "POSCAR_supercell_pristine".
Proof.
  apply (manage_path_calculations_stays_inside failing_collaborators
           two_lithium 0 1 1 3 5000 "POSCAR_supercell_pristine"
           (fresh_process stalled_task)
           (manage_path_calculations failing_collaborators two_lithium 0 1
              1 3 5000 (fresh_process stalled_task)).1).
  - reflexivity.
  - vm_compute. reflexivity.
Defined.

Lemma manage_path_calculations_keeps_default_witness :
  let s := fresh_process ∅ in
  default_status
    (manage_path_calculations failing_collaborators two_lithium 0 1 1 3
       5000 s).2
  = default_status s.
Proof.
  apply (manage_path_calculations_keeps_default failing_collaborators
           two_lithium 0 1 1 3 5000 (fresh_process ∅)
           (manage_path_calculations failing_collaborators two_lithium 0 1
              1 3 5000 (fresh_process ∅)).1).
  vm_compute. reflexivity.
Defined.

Lemma create_endpoints_keeps_existing_witness :
  let initial_path := os_path_join example_dir "POSCAR_initial" in
  let final_path := os_path_join example_dir "POSCAR_final" in
  let s := fresh_process {[ initial_path := Unparsable "edited by hand" ]} in
  let s' := (create_endpoints two_lithium 0 1 example_dir s).2 in
  (∀ p f, files s !! p = Some f → files s' !! p = Some f)
  ∧ (files s !! initial_path = None →
     files s' !! initial_path
     = Some (Poscar (initial_endpoint two_lithium 1)))
  ∧ (Ok () = Ok () → files s !! final_path = None →
     ∃ final, final_endpoint two_lithium 0 1 = Ok final
              ∧ files s' !! final_path = Some (Poscar final))
  ∧ (∀ p, p ≠ initial_path → p ≠ final_path →
          files s' !! p = files s !! p)
  ∧ default_status s' = default_status s.
Proof.
  apply (create_endpoints_keeps_existing two_lithium 0 1 example_dir
           (fresh_process
              {[ os_path_join example_dir "POSCAR_initial" :=
                   Unparsable "edited by hand" ]})
           (Ok ())).
  vm_compute. reflexivity.
Defined.

Lemma main_temporary_file_witness :
  let s := fresh_process example_input in
  let run := example_main_conversion_fails ["main_workflow.py"; "Li.cif"] s in
  files run.2 !! "POSCAR_supercell_unrelaxed" = None
  ∨ files run.2 = files s
  ∨ ∃ relaxed_supercell_ase unrelaxed_supercell e,
      example_get_structure relaxed_supercell_ase = Raise e
      ∧ run.1 = Raise e
      ∧ files run.2 = <["POSCAR_supercell_unrelaxed" :=
                          Poscar unrelaxed_supercell]> (files s).
Proof.
  apply (main_temporary_file failing_collaborators
           (λ atoms, Ok (true, atoms))
           unit (λ _ _ _, Ok ()) (λ structure _, Ok (structure ++ structure))
           (λ _, "10.0") (λ _, "[[2 0 0] [0 1 0] [0 0 1]]") (λ _, "Li")
           (λ _, Ok [0; 0; 0; 0]%nat)
           (λ _ _ _, [Pathfinder.Neighbor 3 1 "Li"])
           example_get_structure false
           ["main_workflow.py"; "Li.cif"] (fresh_process example_input)).
  vm_compute. reflexivity.
Defined.

(** The way out on which the temporary file stays: the conversion of the
    relaxed supercell raises, the exception leaves [main], and the file
    holds the supercell of two cells. *)
Example main_leaves_temporary_file :
  let s := fresh_process example_input in
  let run := example_main_conversion_fails ["main_workflow.py"; "Li.cif"] s in
  run.1 = Raise (ExternalError "singular matrix")
  ∧ files run.2 !! "POSCAR_supercell_unrelaxed"
    = Some (Poscar (two_lithium ++ two_lithium))
  ∧ files run.2 !! "POSCAR_supercell_pristine" = None.
Proof. vm_compute. by repeat split. Qed.

Lemma main_rejects_missing_input_witness :
  let s := fresh_process example_input in
  ∃ device_line complaint,
    example_main ["main_workflow.py"; "Na.cif"] s
    = (Ok (Exit 1),
       State (default_status s) (files s)
         (log s ++ [Print device_line; Print complaint])).
Proof.
  apply (main_rejects_missing_input failing_collaborators
           (λ atoms, Ok (true, atoms))
           unit (λ _ _ _, Ok ()) (λ structure _, Ok structure)
           (λ _, "10.0") (λ _, "[[1 0 0] [0 1 0] [0 0 1]]") (λ _, "Li")
           (λ _, Ok [0; 0]%nat) (λ _ _ _, [Pathfinder.Neighbor 3 1 "Li"])
           (λ atoms, Ok atoms) false
           ["main_workflow.py"; "Na.cif"] (fresh_process example_input)).
  intros input_filename [= <-]. reflexivity.
Defined.

Lemma main_finished_witness :
  let s := fresh_process example_input in
  let s' := (example_main ["main_workflow.py"; "Li.cif"] s).2 in
  ∃ input_filename pristine hops,
    ["main_workflow.py"; "Li.cif"] !! 1%nat = Some input_filename
    ∧ is_Some (files s !! input_filename)
    ∧ (Pathfinder.find_unique_hops (λ _, Ok [0; 0]%nat)
         (λ _ _ _, [Pathfinder.Neighbor 3 1 "Li"])
         pristine MIGRATING_ELEMENT MAX_HOP_DISTANCE
         DISTANCE_PRECISION).2 = Ok hops
    ∧ hops ≠ []
    ∧ files s' !! "POSCAR_supercell_pristine" = Some (Poscar pristine)
    ∧ list.last (log s')
      = Some (Print "Workflow finished successfully!").
Proof.
  apply (main_finished failing_collaborators
           (λ atoms, Ok (true, atoms))
           unit (λ _ _ _, Ok ()) (λ structure _, Ok structure)
           (λ _, "10.0") (λ _, "[[1 0 0] [0 1 0] [0 0 1]]") (λ _, "Li")
           (λ _, Ok [0; 0]%nat) (λ _ _ _, [Pathfinder.Neighbor 3 1 "Li"])
           (λ atoms, Ok atoms) false
           ["main_workflow.py"; "Li.cif"] (fresh_process example_input)).
  vm_compute. reflexivity.
Defined.

Lemma relax_endpoint_outcome_witness :
  let poscar := os_path_join example_dir "POSCAR_initial" in
  let traj := os_path_join example_dir "initial.traj" in
  let optimized := os_path_join example_dir "POSCAR_optimized_initial" in
  let s := fresh_process (<[poscar := Poscar two_lithium]> fresh_task) in
  ∃ s',
    relax_endpoint relaxing_collaborators "initial"
      (Fresh (JObj DEFAULT_STATUS)) example_dir s = (Ok (), s')
    ∧ default_status s' = default_status s
    ∧ (∀ p, p ≠ traj → p ≠ optimized → p ≠ status_path example_dir →
            files s' !! p = files s !! p)
    ∧ files s' !! traj = Some (Trajectory [two_lithium])
    ∧ files s' !! optimized = Some (Poscar two_lithium)
    ∧ flag_set example_dir "initial_relax_complete" s'.
Proof.
  intros poscar traj optimized s.
  assert (Hm : files s !! status_path example_dir
               = Some (JsonDoc (JObj DEFAULT_STATUS)))
    by (vm_compute; reflexivity).
  assert (Hitem : status_item (Fresh (JObj DEFAULT_STATUS))
                    ("initial" +:+ "_relax_complete") s
                  = (Ok (JBool false), s))
    by (vm_compute; reflexivity).
  destruct (relax_endpoint_outcome relaxing_collaborators "initial"
              (Fresh (JObj DEFAULT_STATUS)) example_dir s DEFAULT_STATUS
              (JBool false) (or_introl eq_refl) Hm Hitem eq_refl)
    as (s' & Hrun & Hd & Hframe & Hrelaxed).
  vm_compute vacancy_relaxation in Hrelaxed.
  exists s'. repeat split; try assumption; apply Hrelaxed.
Defined.

Lemma manage_path_calculations_failed_relaxation_witness :
  let s := fresh_process fresh_task in
  ∃ s' evs,
    manage_path_calculations failing_collaborators two_lithium 0 1 1 3 5000
      s = (Ok (), s')
    ∧ log s' = log s ++ evs
    ∧ Forall relaxation_event evs
    ∧ Called "run_vacancy_relaxation"
        (os_path_join example_dir "POSCAR_initial") ∈ evs
    ∧ list.last evs
      = Some (Print "  > Skipping NEB calculation (endpoints not ready).")
    ∧ files s' !! status_path example_dir
      = files s !! status_path example_dir
    ∧ default_status s' = default_status s.
Proof.
  apply (manage_path_calculations_failed_relaxation failing_collaborators
           two_lithium 0 1 1 3 5000 (fresh_process fresh_task)
           DEFAULT_STATUS (JBool false) (JBool false)).
  - simpl. lia.
  - simpl. lia.
  - lia.
  - reflexivity.
  - reflexivity.
  - reflexivity.
  - reflexivity.
  - intros structure frames site0 sites. simpl. discriminate.
Defined.

Lemma manage_path_calculations_relaxes_then_runs_neb_witness :
  let s := fresh_process fresh_task in
  ∃ r s' evs,
    manage_path_calculations relaxing_collaborators two_lithium 0 1 1 3 5000
      s = (r, s')
    ∧ log s' = log s ++ evs
    ∧ Called "run_neb_calculation" example_dir ∈ evs
    ∧ flag_set example_dir "initial_relax_complete" s'
    ∧ flag_set example_dir "final_relax_complete" s'.
Proof.
  apply (manage_path_calculations_relaxes_then_runs_neb
           relaxing_collaborators two_lithium 0 1 1 3 5000
           (fresh_process fresh_task) DEFAULT_STATUS (JBool false)
           (JBool false) (JInt 0) (JInt 0)).
  - simpl. lia.
  - simpl. lia.
  - lia.
  - reflexivity.
  - reflexivity.
  - reflexivity.
  - reflexivity.
  - reflexivity.
  - reflexivity.
  - reflexivity.
  - reflexivity.
  - intros which f [-> | ->] Hf; vm_compute in Hf; discriminate.
  - intros structure. simpl. eexists _, _, _. reflexivity.
Defined.

Lemma run_neb_calculation_standard_exhausted_witness :
  let s := fresh_process relaxed_task in
  ∃ s', run_neb_calculation failing_collaborators
          (os_path_join example_dir "initial.traj")
          (os_path_join example_dir "final.traj")
          (os_path_join example_dir "POSCAR_optimized_initial")
          example_dir 3 5000 s
        = (Ok (set_neb_steps 5000 initial_results), s')
        ∧ attempted (drop (length (log s)) (log s')) = optimizers_to_try.
Proof.
  apply (run_neb_calculation_standard_exhausted failing_collaborators
           (os_path_join example_dir "initial.traj")
           (os_path_join example_dir "final.traj")
           (os_path_join example_dir "POSCAR_optimized_initial")
           example_dir 3 5000 (fresh_process relaxed_task) two_lithium
           two_lithium).
  - reflexivity.
  - reflexivity.
  - repeat constructor; eexists _, _; reflexivity.
Defined.

(** A calculation in which every stage completes: the barrier is rounded
    as a [numpy.float64], the prefactor as a Python float; the saddle
    point, both summaries and the caches of both analyses are in the
    directory of the task afterwards. *)
Example run_neb_calculation_complete :
  let optimized := os_path_join example_dir "POSCAR_optimized_initial" in
  let s := fresh_process (<[optimized := Poscar two_lithium]> relaxed_task) in
  let run := run_neb_calculation completing_collaborators
               (os_path_join example_dir "initial.traj")
               (os_path_join example_dir "final.traj") optimized
               example_dir 3 5000 s in
  let barrier := round_binary64 (4268 # 10000) in
  let prefactor := round_binary64 (29979 # 10000) in
  run.1 = Ok (Results false false true true 42 42 (Some barrier)
                (Some prefactor))
  ∧ files run.2 !! os_path_join example_dir "POSCAR_saddle"
    = Some (Poscar two_lithium)
  ∧ files run.2 !! os_path_join example_dir "initial_vib.dat"
    = Some (Unparsable "summary")
  ∧ files run.2 !! os_path_join example_dir "saddle_vib.dat"
    = Some (Unparsable "summary")
  ∧ files run.2 !! os_path_join example_dir "vib_initial/cache.eq.json"
    = Some (JsonDoc JNull)
  ∧ files run.2 !! os_path_join example_dir "vib_saddle/cache.eq.json"
    = Some (JsonDoc JNull).
Proof. vm_compute. by repeat split. Qed.
End MoreExamples.

